(** * DevAssist: the agent loop, the task router and the two memory stores

    A shallow embedding of the core of the [devassist] package:

    - [devassist/core/agent/react_agent.py]   (module [ReactAgent])
    - [devassist/core/agent/tool_agent.py]    (modules [Router], [ToolAgent])
    - [devassist/tools/base/tool_collection.py] (module [ToolCollection])
    - [devassist/core/agent/hybrid_agent.py]  (module [HybridAgent])
    - [devassist/core/memory/short_term.py]   (module [ShortTermMemory])
    - [devassist/core/memory/long_term.py]    (module [LongTermMemory])

    Conventions of the embedding.

    - Python [str] is [string]; the text functions ([lower], [split],
      [strip], [isalnum], ...) are the ASCII ones, so the development
      speaks about ASCII task texts.
    - JSON-like values are [pyval]; a [dict] whose iteration order is
      observable is an insertion-ordered association list ([pydict]),
      a [dict] that is only accessed by key is a [gmap].
    - [time.time()] is an injected clock: every call site receives its
      reading as an argument of type [Z].  The identifiers produced by
      [uuid.uuid4()] are arguments as well.
    - A Python computation that may raise is an [outcome]; [try]/[except
      Exception] is [try_except].  Exceptions are instances of
      [Exception]; interpreter-exit signals are outside the model.
    - Calls to [logging] and to [BaseAgent.log_action] / [update_state]
      only write diagnostics and are left out. *)

From Stdlib Require Import ZArith List String Ascii Bool Lia Floats Sorted.
From Equations Require Import Equations.
From stdpp Require Import gmap strings list fin_maps pretty.
Import ListNotations.

Set Warnings "-inexact-float,-register-all".
Local Open Scope string_scope.
Local Open Scope Z_scope.

(* ===================================================================== *)
(** ** Python text *)
(* ===================================================================== *)

Module PyStr.

Definition code (c : ascii) : nat := nat_of_ascii c.

(** [c.isspace()] on ASCII: TAB, LF, VT, FF, CR, FS, GS, RS, US, SPACE. *)
Definition isspace (c : ascii) : bool :=
  let n := code c in
  ((9 <=? n)%nat && (n <=? 13)%nat) || ((28 <=? n)%nat && (n <=? 32)%nat).

Definition isupper (c : ascii) : bool :=
  let n := code c in (65 <=? n)%nat && (n <=? 90)%nat.

Definition islower (c : ascii) : bool :=
  let n := code c in (97 <=? n)%nat && (n <=? 122)%nat.

Definition isdigit (c : ascii) : bool :=
  let n := code c in (48 <=? n)%nat && (n <=? 57)%nat.

Definition isalnum (c : ascii) : bool := isupper c || islower c || isdigit c.

Definition lower_char (c : ascii) : ascii :=
  if isupper c then ascii_of_nat (code c + 32) else c.

Definition upper_char (c : ascii) : ascii :=
  if islower c then ascii_of_nat (code c - 32) else c.

Definition chars (s : string) : list ascii := list_ascii_of_string s.
Definition of_chars (l : list ascii) : string := string_of_list_ascii l.

(** [s.lower()] *)
Definition lower (s : string) : string := of_chars (map lower_char (chars s)).

(** [s.capitalize()] *)
Definition capitalize (s : string) : string :=
  match chars s with
  | [] => ""
  | c :: cs => of_chars (upper_char c :: map lower_char cs)
  end.

Fixpoint lstrip_chars (l : list ascii) : list ascii :=
  match l with
  | c :: cs => if isspace c then lstrip_chars cs else l
  | [] => []
  end.

(** [s.strip()] *)
Definition strip_chars (l : list ascii) : list ascii :=
  rev (lstrip_chars (rev (lstrip_chars l))).
Definition strip (s : string) : string := of_chars (strip_chars (chars s)).

(** [s.split()]: the maximal runs of non-space characters. *)
Fixpoint split_ws_aux (cur : list ascii) (l : list ascii) : list (list ascii) :=
  match l with
  | [] => match cur with [] => [] | _ => [rev cur] end
  | c :: cs =>
      if isspace c
      then match cur with
           | [] => split_ws_aux [] cs
           | _ => rev cur :: split_ws_aux [] cs
           end
      else split_ws_aux (c :: cur) cs
  end.
Definition split_ws (s : string) : list string :=
  map of_chars (split_ws_aux [] (chars s)).

(** [s.split(sep)] for a one-character separator: empty pieces are kept. *)
Fixpoint split_on_aux (sep : ascii) (cur : list ascii) (l : list ascii)
  : list (list ascii) :=
  match l with
  | [] => [rev cur]
  | c :: cs =>
      if Ascii.eqb c sep
      then rev cur :: split_on_aux sep [] cs
      else split_on_aux sep (c :: cur) cs
  end.
Definition split_on (sep : ascii) (s : string) : list string :=
  map of_chars (split_on_aux sep [] (chars s)).

(** ["".join(l)] *)
Definition join (l : list string) : string := fold_right String.append "" l.

Fixpoint prefix_chars (p l : list ascii) : bool :=
  match p, l with
  | [], _ => true
  | a :: p', b :: l' => Ascii.eqb a b && prefix_chars p' l'
  | _ :: _, [] => false
  end.

(** [s.startswith(p)] *)
Definition startswith (p s : string) : bool := prefix_chars (chars p) (chars s).

(** [s.endswith(p)] *)
Definition endswith (p s : string) : bool :=
  prefix_chars (rev (chars p)) (rev (chars s)).

Fixpoint contains_chars (p l : list ascii) : bool :=
  prefix_chars p l ||
  match l with
  | [] => false
  | _ :: l' => contains_chars p l'
  end.

(** [p in s] *)
Definition contains (p s : string) : bool := contains_chars (chars p) (chars s).

Lemma lower_char_idem c : lower_char (lower_char c) = lower_char c.
Proof.
  unfold lower_char. destruct (isupper c) eqn:E; [|now rewrite E].
  destruct c as [[] [] [] [] [] [] [] []]; vm_compute in E; try discriminate;
    vm_compute; reflexivity.
Qed.

Lemma chars_of_chars l : chars (of_chars l) = l.
Proof. apply list_ascii_of_string_of_list_ascii. Qed.

Lemma lower_idem s : lower (lower s) = lower s.
Proof.
  unfold lower. rewrite chars_of_chars, map_map. f_equal.
  apply map_ext. intros; apply lower_char_idem.
Qed.

End PyStr.

(* ===================================================================== *)
(** ** Python values, dictionaries and exceptions *)
(* ===================================================================== *)

(** JSON-like values: what a memory item, a tool input, a tool result or
    an observation is made of. *)
Inductive pyval : Type :=
| PNone
| PBool (b : bool)
| PInt (z : Z)
| PStr (s : string)
| PList (l : list pyval)
| PDict (d : list (string * pyval)).

(** An insertion-ordered dictionary with string keys. *)
Definition pydict (V : Type) : Type := list (string * V).

Module PyDict.
Section Ops.
Context {V : Type}.

(** [d.get(k)] / [d[k]] *)
Fixpoint get (k : string) (d : pydict V) : option V :=
  match d with
  | [] => None
  | (k', v) :: d' => if String.eqb k k' then Some v else get k d'
  end.

(** [k in d] *)
Definition mem (k : string) (d : pydict V) : bool :=
  match get k d with Some _ => true | None => false end.

(** [d[k] = v]: an existing key keeps its position, a new one goes last. *)
Fixpoint set (k : string) (v : V) (d : pydict V) : pydict V :=
  match d with
  | [] => [(k, v)]
  | (k', v') :: d' =>
      if String.eqb k k' then (k, v) :: d' else (k', v') :: set k v d'
  end.

(** [del d[k]] / the store side of [d.pop(k, None)] *)
Fixpoint del (k : string) (d : pydict V) : pydict V :=
  match d with
  | [] => []
  | (k', v') :: d' =>
      if String.eqb k k' then del k d' else (k', v') :: del k d'
  end.

(** [list(d.keys())] *)
Definition keys (d : pydict V) : list string := map fst d.

Lemma get_del_eq k d : get k (del k d) = None.
Proof.
  induction d as [|[k' v'] d IH]; simpl; [reflexivity|].
  destruct (String.eqb k k') eqn:E; simpl; [exact IH|].
  rewrite E. exact IH.
Qed.

Lemma get_del_ne k k' d : k <> k' -> get k (del k' d) = get k d.
Proof.
  intros Hne. induction d as [|[k0 v0] d IH]; simpl; [reflexivity|].
  destruct (String.eqb k' k0) eqn:E.
  - apply String.eqb_eq in E. subst k0.
    destruct (String.eqb k k') eqn:E'; [|exact IH].
    apply String.eqb_eq in E'. contradiction.
  - simpl. destruct (String.eqb k k0); [reflexivity|exact IH].
Qed.

Lemma get_set_eq k v d : get k (set k v d) = Some v.
Proof.
  induction d as [|[k' v'] d IH]; simpl.
  - now rewrite String.eqb_refl.
  - destruct (String.eqb k k') eqn:E; simpl.
    + now rewrite String.eqb_refl.
    + now rewrite E.
Qed.

Lemma get_set_ne k k' v d : k <> k' -> get k (set k' v d) = get k d.
Proof.
  intros Hne. apply String.eqb_neq in Hne.
  induction d as [|[k0 v0] d IH]; simpl.
  - now rewrite Hne.
  - destruct (String.eqb k' k0) eqn:E; simpl.
    + apply String.eqb_eq in E. subst k0. now rewrite Hne.
    + destruct (String.eqb k k0); [reflexivity|exact IH].
Qed.

Lemma keys_del k d :
  keys (del k d) = List.filter (fun k' => negb (String.eqb k k')) (keys d).
Proof.
  unfold keys.
  induction d as [|[k' v'] d IH]; simpl; [reflexivity|].
  destruct (String.eqb k k'); simpl; [exact IH|].
  f_equal. exact IH.
Qed.
End Ops.
End PyDict.

(** An instance of [Exception], carrying [str(e)].  [is_import_error]
    tells [ImportError] (and its subclasses) from the rest. *)
Record exn : Type := Exn { is_import_error : bool; exn_str : string }.

Inductive outcome (A : Type) : Type :=
| Ret (a : A)
| Raise (e : exn).
Arguments Ret {A} a.
Arguments Raise {A} e.

#[global] Instance outcome_ret : MRet outcome := fun A a => Ret a.
#[global] Instance outcome_bind : MBind outcome := fun A B k m =>
  match m with
  | Ret a => k a
  | Raise e => Raise e
  end.

(** [try: body  except Exception as e: handler(e)] *)
Definition try_except {A} (body : outcome A) (handler : exn -> outcome A)
  : outcome A :=
  match body with
  | Ret a => Ret a
  | Raise e => handler e
  end.

(** A computation that returned normally. *)
Definition returns {A} (m : outcome A) : Prop := exists a, m = Ret a.

(** The observation dictionaries every tool boundary produces. *)
Definition success_result (v : pyval) : pyval :=
  PDict [("status", PStr "success"); ("result", v)].
Definition error_result (msg : string) : pyval :=
  PDict [("status", PStr "error"); ("error", PStr msg)].

(** [isinstance(v, dict) and k in v] *)
Definition is_dict_with (k : string) (v : pyval) : bool :=
  match v with
  | PDict d => PyDict.mem k d
  | _ => false
  end.

(* ===================================================================== *)
(** ** react_agent.py *)
(* ===================================================================== *)

Module ReactAgent.

(** The execution context built by [execute]. *)
Record context : Type := Context {
  task : string;
  thoughts : list string;
  actions : list (string * pydict pyval);
  observations : list pyval
}.

(** The dictionary [execute] returns. *)
Record result : Type := Result {
  r_task : string;
  answer : string;
  iterations : Z;
  r_context : context
}.

(** The two methods a subclass of [ReactAgent] overrides in this
    package.  [St] is the mutable part of the agent (for a [ToolAgent],
    its tool table); [_execute_action] may change it. *)
Class Agent (St : Type) : Type := {
  _decide_action : St -> context -> string * pydict pyval;
  _execute_action : St -> string -> pydict pyval -> St * outcome pyval
}.

Definition generic_answer : string :=
  "Task execution completed. Please check the detailed results for more information.".

(** [ReactAgent._generate_thought] *)
Definition _generate_thought (current_iteration : Z) (ctx : context) : string :=
  "Thinking about how to " +:+ task ctx +:+ " (iteration "
    +:+ pretty current_iteration +:+ ")".

(** [ReactAgent._should_terminate] *)
Definition _should_terminate (max_iterations current_iteration : Z)
    (ctx : context) : bool :=
  current_iteration >=? max_iterations - 1.

Section FinalAnswer.
(** The builtin [str]. *)
Variable py_str : pyval -> string.

(** The body of the [for] loop of [_generate_final_answer]: [Some a]
    is [return a], [None] is falling through to the next observation.
    The inner test compares the two string literals ["status"] and
    ["success"], as the source does. *)
Definition final_answer_step (observation : pyval) : option string :=
  if is_dict_with "result" observation then
    match observation with
    | PDict d =>
        match PyDict.get "result" d with
        | Some (PDict rd) =>
            if String.eqb "status" "success"
            then Some (py_str (default (PStr "Task completed successfully")
                                       (PyDict.get "result" rd)))
            else None
        | _ => None
        end
    | _ => None
    end
  else None.

Fixpoint final_answer_scan (obs : list pyval) : option string :=
  match obs with
  | [] => None
  | o :: rest =>
      match final_answer_step o with
      | Some a => Some a
      | None => final_answer_scan rest
      end
  end.

(** [ReactAgent._generate_final_answer] *)
Definition _generate_final_answer (ctx : context) : string :=
  default generic_answer (final_answer_scan (observations ctx)).
End FinalAnswer.

Section Execute.
Context {St : Type} `{Agent St}.
Variable py_str : pyval -> string.
(** [self.max_iterations]: set by [__init__], assigned nowhere else. *)
Variable max_iterations : Z.

(** One pass through the body of the [while] loop, up to the
    termination test. *)
Definition iteration (st : St) (cur : Z) (ctx : context)
  : St * outcome context :=
  let thought := _generate_thought cur ctx in
  let ctx1 := Context (task ctx) (thoughts ctx ++ [thought])
                      (actions ctx) (observations ctx) in
  let '(action_name, action_input) := _decide_action st ctx1 in
  let ctx2 := Context (task ctx1) (thoughts ctx1)
                      (actions ctx1 ++ [(action_name, action_input)])
                      (observations ctx1) in
  let '(st', o) := _execute_action st action_name action_input in
  (st', observation ← o;
        mret (Context (task ctx2) (thoughts ctx2) (actions ctx2)
                      (observations ctx2 ++ [observation]))).

(** The [while self.current_iteration < self.max_iterations] loop.
    It yields the agent state, the final value of
    [self.current_iteration] and the context. *)
Equations? react_loop (st : St) (cur : Z) (ctx : context)
  : outcome (St * Z * context)
  by wf (Z.to_nat (max_iterations - cur)) lt :=
  react_loop st cur ctx with Z_lt_dec cur max_iterations => {
    | right _ => Ret (st, cur, ctx)
    | left _ with iteration st cur ctx => {
        | (st', Raise e) => Raise e
        | (st', Ret ctx') with _should_terminate max_iterations cur ctx' => {
            | true => Ret (st', cur, ctx')
            | false => react_loop st' (cur + 1) ctx' } } }.
Proof. lia. Qed.

(** [ReactAgent.execute] *)
Definition execute (st : St) (task : string) : outcome (St * result) :=
  let context := Context task [] [] [] in
  '(st', current_iteration, context') ← react_loop st 0 context;
  let final_answer := _generate_final_answer py_str context' in
  mret (st', Result task final_answer (current_iteration + 1) context').
End Execute.

(** [ReactAgent] itself: the placeholder action and the placeholder
    observation. *)
#[global] Instance react_agent : Agent unit := {
  _decide_action _ ctx :=
    ("dummy_action", [("query", PStr ("Placeholder action for " +:+ task ctx))]);
  _execute_action st action_name _ :=
    (st, Ret (error_result ("Unknown action or tool: " +:+ action_name)))
}.

End ReactAgent.

(* ===================================================================== *)
(** ** The fragment of Python's [re] the package uses *)
(* ===================================================================== *)

Module Re.

(** Pattern syntax.  [Group] is the pattern's capturing group 1 (no
    pattern of the package reads another group). *)
Inductive regex : Type :=
| Eps
| Chr (c : ascii)
| Dot
| Space
| OneOf (cs : list ascii)
| Seq (r1 r2 : regex)
| Alt (r1 r2 : regex)
| Star (r : regex)
| StarLazy (r : regex)
| Group (r : regex)
| Eol.

(** [r?], [r+] and [r+?] *)
Definition Opt (r : regex) : regex := Alt r Eps.
Definition Plus (r : regex) : regex := Seq r (Star r).
Definition PlusLazy (r : regex) : regex := Seq r (StarLazy r).

(** A literal word, a sequence, an alternation of literal words. *)
Definition lit (s : string) : regex :=
  fold_right (fun c r => Seq (Chr c) r) Eps (PyStr.chars s).
Definition cat (rs : list regex) : regex := fold_right Seq Eps rs.
Fixpoint alts (ws : list string) : regex :=
  match ws with
  | [] => OneOf []
  | [w] => lit w
  | w :: ws' => Alt (lit w) (alts ws')
  end.

(** [\s+] and [\s*] *)
Definition ws1 : regex := Plus Space.
Definition ws0 : regex := Star Space.

Record flags : Type := Flags { ignorecase : bool; dotall : bool }.

Definition newline : ascii := "010"%char.

Section Matcher.
Variable fl : flags.
Variable R : Type.

Definition char_eq (a b : ascii) : bool :=
  if ignorecase fl
  then Ascii.eqb (PyStr.lower_char a) (PyStr.lower_char b)
  else Ascii.eqb a b.

(** Backtracking matcher in continuation-passing style: [rmatch r s g k]
    matches [r] at the head of [s] and hands the rest of the text and
    the text of group 1 to [k]; the first success is the answer, which
    is the order in which [re] explores alternatives.  A repetition is
    bounded by the length of the text, each round having to consume. *)
Fixpoint rmatch (r : regex) (s : list ascii) (g : option (list ascii))
    (k : list ascii -> option (list ascii) -> option R) {struct r} : option R :=
  match r with
  | Eps => k s g
  | Chr c =>
      match s with
      | a :: s' => if char_eq c a then k s' g else None
      | [] => None
      end
  | Dot =>
      match s with
      | a :: s' => if dotall fl || negb (Ascii.eqb a newline) then k s' g else None
      | [] => None
      end
  | Space =>
      match s with
      | a :: s' => if PyStr.isspace a then k s' g else None
      | [] => None
      end
  | OneOf cs =>
      match s with
      | a :: s' => if existsb (fun c => char_eq c a) cs then k s' g else None
      | [] => None
      end
  | Seq r1 r2 => rmatch r1 s g (fun s' g' => rmatch r2 s' g' k)
  | Alt r1 r2 =>
      match rmatch r1 s g k with
      | Some x => Some x
      | None => rmatch r2 s g k
      end
  | Star r' =>
      (fix loop (n : nat) (s : list ascii) (g : option (list ascii)) {struct n}
         : option R :=
         match n with
         | O => k s g
         | S n' =>
             match rmatch r' s g
                     (fun s' g' =>
                        if (length s' <? length s)%nat then loop n' s' g' else None)
             with
             | Some x => Some x
             | None => k s g
             end
         end) (S (length s)) s g
  | StarLazy r' =>
      (fix loop (n : nat) (s : list ascii) (g : option (list ascii)) {struct n}
         : option R :=
         match n with
         | O => k s g
         | S n' =>
             match k s g with
             | Some x => Some x
             | None =>
                 rmatch r' s g
                   (fun s' g' =>
                      if (length s' <? length s)%nat then loop n' s' g' else None)
             end
         end) (S (length s)) s g
  | Group r' =>
      rmatch r' s g (fun s' _ => k s' (Some (firstn (length s - length s') s)))
  | Eol =>
      match s with
      | [] => k s g
      | [a] => if Ascii.eqb a newline then k s g else None
      | _ => None
      end
  end.
End Matcher.

(** A match object: where the match starts and ends, and [group(1)]. *)
Record rmatch_result : Type := Match {
  m_start : nat;
  m_end : nat;
  group1 : string
}.

(** [re.match] at offset [pos] of the text whose remainder is [s]. *)
Definition match_here (fl : flags) (r : regex) (pos : nat) (s : list ascii)
  : option rmatch_result :=
  rmatch fl rmatch_result r s None
    (fun s' g =>
       Some (Match pos (pos + (length s - length s'))
                   (PyStr.of_chars (default [] g)))).

(** [re.search]: the leftmost start position that admits a match. *)
Fixpoint search_from (fl : flags) (r : regex) (pos : nat) (s : list ascii)
  : option rmatch_result :=
  match match_here fl r pos s with
  | Some m => Some m
  | None =>
      match s with
      | [] => None
      | _ :: s' => search_from fl r (S pos) s'
      end
  end.

Definition search (fl : flags) (r : regex) (text : string) : option rmatch_result :=
  search_from fl r 0 (PyStr.chars text).

(** [len(re.findall(r, text))]: successive non-overlapping leftmost
    matches; an empty match moves the scan one character on. *)
Fixpoint count_matches (fuel : nat) (fl : flags) (r : regex) (s : list ascii) : nat :=
  match fuel with
  | O => O
  | S fuel' =>
      match search_from fl r 0 s with
      | None => O
      | Some m =>
          let next := if (m_end m =? m_start m)%nat then S (m_end m) else m_end m in
          if (length s <? next)%nat then 1%nat
          else S (count_matches fuel' fl r (skipn next s))
      end
  end.

Definition findall_len (fl : flags) (r : regex) (text : string) : nat :=
  let s := PyStr.chars text in count_matches (S (length s)) fl r s.

Definition no_flags : flags := Flags false false.
Definition IGNORECASE : flags := Flags true false.
Definition IGNORECASE_DOTALL : flags := Flags true true.

End Re.

(* ===================================================================== *)
(** ** Tools and the import machinery they are loaded with *)
(* ===================================================================== *)

(** A tool instance: a [BaseTool] with its [name], its [execute] and,
    when the class defines one, its [validate_input]; both take the
    action input as keyword arguments. *)
Record tool : Type := Tool {
  tool_name : string;
  tool_execute : pydict pyval -> outcome pyval;
  tool_validate_input : option (pydict pyval -> outcome bool)
}.

(** An attribute of an imported module: a concrete subclass of
    [BaseTool], given by what calling it yields, or anything else. *)
Inductive module_attr : Type :=
| ToolClass (instantiate : outcome tool)
| OtherAttr.

(** An imported module: its attributes by name, in [dir()] order. *)
Definition pymodule : Type := pydict module_attr.

(** [importlib.import_module]: the modules the interpreter can import,
    by dotted path. *)
Definition importer : Type := string -> outcome pymodule.

(* ===================================================================== *)
(** ** tool_agent.py *)
(* ===================================================================== *)

Module ToolAgent.
Import Re.

(** [self.tools] *)
Abbreviation tools := (gmap string tool).

Definition loaded (name : string) (ts : tools) : bool :=
  bool_decide (is_Some (ts !! name)).

Definition quote_chars : list ascii := ["'"%char; "034"%char].

(** [calculate\s+(.+)$] *)
Definition calc_pattern : regex :=
  cat [lit "calculate"; ws1; Group (Plus Dot); Eol].

Definition search_patterns : list regex :=
  [ (* search(?:\s+for)?\s+(.+) *)
    cat [lit "search"; Opt (cat [ws1; lit "for"]); ws1; Group (Plus Dot)];
    (* find(?:\s+information(?:\s+about)?)?\s+(.+) *)
    cat [lit "find";
         Opt (cat [ws1; lit "information"; Opt (cat [ws1; lit "about"])]);
         ws1; Group (Plus Dot)];
    (* look\s+up\s+(.+) *)
    cat [lit "look"; ws1; lit "up"; ws1; Group (Plus Dot)] ].

(** The quoted-argument tail shared by the text patterns: a quote, [(.+)],
    a quote. *)
Definition quoted : list regex :=
  [OneOf quote_chars; Group (Plus Dot); OneOf quote_chars].

Definition text_patterns : list (regex * string) :=
  [ (cat ([lit "count"; ws1; lit "characters"; ws1; lit "in"; ws1] ++ quoted), "count");
    (cat ([lit "count"; ws1; lit "words"; ws1; lit "in"; ws1] ++ quoted), "wordcount");
    (cat ([lit "reverse"; ws1] ++ quoted), "reverse");
    (cat ([lit "uppercase"; ws1] ++ quoted), "uppercase");
    (cat ([lit "lowercase"; ws1] ++ quoted), "lowercase");
    (cat ([lit "capitalize"; ws1] ++ quoted), "capitalize") ].

(** The fenced-code tail: three backquotes, [(?:python)?\s*(.+?)], three
    backquotes. *)
Definition fenced : list regex :=
  [lit "```"; Opt (lit "python"); ws0; Group (PlusLazy Dot); lit "```"].

Definition code_patterns : list regex :=
  [ cat ([lit "run"; ws1; lit "code"; ws1] ++ fenced);
    cat ([lit "execute"; ws1] ++ fenced);
    cat ([lit "evaluate"; ws1] ++ fenced) ].

(** [(?:an?\s+)?] and [(?:a\s+)?] *)
Definition opt_an : regex := Opt (cat [lit "a"; Opt (lit "n"); ws1]).
Definition opt_a : regex := Opt (cat [lit "a"; ws1]).
(** [(?:for\s+)?] *)
Definition opt_for : regex := Opt (cat [lit "for"; ws1]).

Definition api_patterns : list regex :=
  [ cat [lit "create"; ws1; opt_an; lit "api"; ws1; lit "endpoint"; ws1;
         opt_for; Group (Plus Dot)];
    cat [lit "generate"; ws1; opt_an; lit "api"; ws1; opt_for; Group (Plus Dot)];
    cat [lit "implement"; ws1; opt_an; lit "api"; ws1; opt_for; Group (Plus Dot)] ].

Definition react_patterns : list regex :=
  [ cat [lit "create"; ws1; opt_a; lit "react"; ws1; lit "component"; ws1;
         opt_for; Group (Plus Dot)];
    cat [lit "generate"; ws1; opt_a; lit "react"; ws1;
         Opt (cat [lit "component"; ws1]); opt_for; Group (Plus Dot)];
    cat [lit "implement"; ws1; opt_a; lit "react"; ws1;
         Opt (cat [lit "component"; ws1]); opt_for; Group (Plus Dot)] ].

(** A [for] loop over patterns that returns from the first pattern whose
    body returns. *)
Fixpoint first_some {A B : Type} (f : A -> option B) (l : list A) : option B :=
  match l with
  | [] => None
  | a :: l' =>
      match f a with
      | Some b => Some b
      | None => first_some f l'
      end
  end.

(** ["".join(word.capitalize() for word in s.split())] *)
Definition pascal_case (s : string) : string :=
  PyStr.join (map PyStr.capitalize (PyStr.split_ws s)).

Definition action : Type := string * pydict pyval.

(** The rule blocks of [_decide_action], in source order, on the
    lower-cased task. *)
Definition calculator_rule (ts : tools) (task : string) : option action :=
  match search IGNORECASE calc_pattern task with
  | Some m =>
      if loaded "calculator" ts
      then Some ("calculator", [("expression", PStr (PyStr.strip (group1 m)))])
      else None
  | None => None
  end.

Definition search_rule (ts : tools) (task : string) : option action :=
  first_some
    (fun pattern =>
       match search IGNORECASE pattern task with
       | Some m =>
           if loaded "search" ts
           then Some ("search", [("query", PStr (group1 m))])
           else None
       | None => None
       end) search_patterns.

Definition text_rule (ts : tools) (task : string) : option action :=
  first_some
    (fun '(pattern, operation) =>
       match search IGNORECASE pattern task with
       | Some m =>
           if loaded "text" ts
           then Some ("text", [("text", PStr (group1 m));
                               ("operation", PStr operation)])
           else None
       | None => None
       end) text_patterns.

Definition code_rule (ts : tools) (task : string) : option action :=
  first_some
    (fun pattern =>
       match search IGNORECASE_DOTALL pattern task with
       | Some m =>
           if loaded "code" ts
           then Some ("code", [("code", PStr (PyStr.strip (group1 m)))])
           else None
       | None => None
       end) code_patterns.

Definition api_rule (ts : tools) (task : string) : option action :=
  first_some
    (fun pattern =>
       match search IGNORECASE pattern task with
       | Some m =>
           if loaded "api_endpoint" ts
           then Some ("api_endpoint",
                      [("endpoint_name", PStr (PyStr.strip (group1 m)));
                       ("http_method", PStr "GET");
                       ("framework", PStr "express")])
           else None
       | None => None
       end) api_patterns.

Definition react_rule (ts : tools) (task : string) : option action :=
  first_some
    (fun pattern =>
       match search IGNORECASE pattern task with
       | Some m =>
           if loaded "react_component" ts
           then Some ("react_component",
                      [("component_name",
                        PStr (pascal_case (PyStr.strip (group1 m))));
                       ("component_type", PStr "functional");
                       ("use_typescript", PBool true)])
           else None
       | None => None
       end) react_patterns.

Definition rules : list (tools -> string -> option action) :=
  [calculator_rule; search_rule; text_rule; code_rule; api_rule; react_rule].

Definition dummy_action (task : string) : action :=
  ("dummy_action", [("query", PStr ("Placeholder action for " +:+ task))]).

(** The routing proper: what [_decide_action] computes from
    [task = context['task'].lower()]. *)
Definition route_lowered (ts : tools) (task : string) : action :=
  default (dummy_action task) (first_some (fun rule => rule ts task) rules).

(** [ToolAgent._decide_action], as a function of the task text. *)
Definition route (ts : tools) (task_text : string) : action :=
  route_lowered ts (PyStr.lower task_text).

(** [ToolAgent._decide_action] *)
Definition _decide_action (ts : tools) (ctx : ReactAgent.context) : action :=
  route ts (ReactAgent.task ctx).

(** [getattr(module, name)] *)
Definition getattr (m : pymodule) (name : string) : outcome module_attr :=
  match PyDict.get name m with
  | Some a => Ret a
  | None => Raise (Exn false ("module has no attribute " +:+ name))
  end.

(** Calling a module attribute. *)
Definition call_attr (a : module_attr) : outcome tool :=
  match a with
  | ToolClass instantiate => instantiate
  | OtherAttr => Raise (Exn false "object is not callable")
  end.

(** The class name [load_tool] looks up: the capitalised pieces of the
    tool name followed by [Tool]. *)
Definition class_name (tool_name : string) : string :=
  PyStr.join (map PyStr.capitalize (PyStr.split_on "_"%char tool_name)) +:+ "Tool".

(** [ToolAgent.load_tool] *)
Definition load_tool (imp : importer) (ts : tools) (tool_name : string)
  : tools * bool :=
  match (module ← imp ("devassist.tools." +:+ tool_name);
         tool_class ← getattr module (class_name tool_name);
         call_attr tool_class) with
  | Ret tool_instance => (<[tool_name := tool_instance]> ts, true)
  | Raise _ => (ts, false)
  end.

(** What [_execute_action] and [execute_tool] return for a tool result:
    a dictionary that has a [status] key is passed on, anything else is
    wrapped in a success response. *)
Definition wrap_result (result : pyval) : pyval :=
  if is_dict_with "status" result then result else success_result result.

(** The interpreter's bound on nested calls; crossing it raises
    [RecursionError]. *)
Definition recursion_limit : nat := 1000.
Definition RecursionError : exn := Exn false "maximum recursion depth exceeded".

(** [ToolAgent._execute_action], with [depth] nested calls left. *)
Fixpoint _execute_action_at (depth : nat) (imp : importer) (ts : tools)
    (action_name : string) (action_input : pydict pyval) : tools * outcome pyval :=
  match ts !! action_name with
  | Some tool =>
      (ts,
       try_except
         (result ← tool_execute tool action_input; mret (wrap_result result))
         (fun e =>
            mret (error_result ("Error executing tool " +:+ action_name +:+ ": "
                                  +:+ exn_str e))))
  | None =>
      let '(ts', ok) := load_tool imp ts action_name in
      if ok then
        match depth with
        | S depth' => _execute_action_at depth' imp ts' action_name action_input
        | O => (ts', Raise RecursionError)
        end
      else (ts', Ret (error_result ("Unknown action or tool: " +:+ action_name)))
  end.

Definition _execute_action (imp : importer) (ts : tools)
    (action_name : string) (action_input : pydict pyval) : tools * outcome pyval :=
  _execute_action_at recursion_limit imp ts action_name action_input.

(** A [ToolAgent] in an interpreter whose importable modules are [imp]. *)
#[global] Instance tool_agent (imp : importer) : ReactAgent.Agent tools := {
  ReactAgent._decide_action := _decide_action;
  ReactAgent._execute_action := _execute_action imp
}.

End ToolAgent.

(* ===================================================================== *)
(** ** tool_collection.py *)
(* ===================================================================== *)

Module ToolCollection.

(** [self.tools] and [self.tool_classes]; a registered class is given by
    what instantiating it yields. *)
Record collection : Type := Collection {
  tools : gmap string tool;
  tool_classes : gmap string (outcome tool)
}.

(** [ToolCollection.register_tool] *)
Definition register_tool (c : collection) (t : tool) : collection :=
  Collection (<[tool_name t := t]> (tools c)) (tool_classes c).

(** The scan of [dir(module)]: the first attribute whose name ends with
    [Tool] and that is a proper subclass of [BaseTool] is instantiated. *)
Fixpoint instantiate_first_tool (m : pymodule) : outcome (option tool) :=
  match m with
  | [] => Ret None
  | (attr_name, attr) :: m' =>
      if PyStr.endswith "Tool" attr_name then
        match attr with
        | ToolClass instantiate => t ← instantiate; mret (Some t)
        | OtherAttr => instantiate_first_tool m'
        end
      else instantiate_first_tool m'
  end.

Section GetTool.
Variable imp : importer.

(** The loop over [directories]: an [ImportError] moves on to the next
    directory, any other exception leaves the loop. *)
Fixpoint scan_directories (name : string) (directories : list string)
  : outcome (option tool) :=
  match directories with
  | [] => Ret None
  | directory :: rest =>
      let attempt :=
        module ← imp ("devassist.tools." +:+ directory +:+ "." +:+ name +:+ "_tools");
        instantiate_first_tool module in
      match attempt with
      | Ret (Some t) => Ret (Some t)
      | Ret None => scan_directories name rest
      | Raise e => if is_import_error e then scan_directories name rest else Raise e
      end
  end.

(** The dynamic-loading part of [get_tool], inside its outer [try]. *)
Definition discover (name : string) : outcome (option tool) :=
  found ← scan_directories name ["dev"; "utility"];
  match found with
  | Some t => mret (Some t)
  | None =>
      module ← imp ("devassist.tools." +:+ name);
      instantiate_first_tool module
  end.

(** [ToolCollection.get_tool] *)
Definition get_tool (c : collection) (name : string)
  : collection * outcome (option tool) :=
  match tools c !! name with
  | Some t => (c, Ret (Some t))
  | None =>
      match tool_classes c !! name with
      | Some instantiate =>
          match instantiate with
          | Ret t => (register_tool c t, Ret (Some t))
          | Raise _ => (c, Ret None)
          end
      | None =>
          match try_except (discover name) (fun _ => Ret None) with
          | Ret (Some t) => (register_tool c t, Ret (Some t))
          | Ret None => (c, Ret None)
          | Raise e => (c, Raise e)
          end
      end
  end.

(** [ToolCollection.execute_tool] *)
Definition execute_tool (c : collection) (name : string) (kwargs : pydict pyval)
  : collection * outcome pyval :=
  let '(c', found) := get_tool c name in
  (c',
   tool ← found;
   match tool with
   | None => mret (error_result ("Tool not found: " +:+ name))
   | Some t =>
       try_except
         (valid ← match tool_validate_input t with
                  | Some validate_input => validate_input kwargs
                  | None => mret true
                  end;
          if negb valid
          then mret (error_result ("Invalid input for tool " +:+ name))
          else result ← tool_execute t kwargs;
               mret (ToolAgent.wrap_result result))
         (fun e =>
            mret (error_result ("Error executing tool " +:+ name +:+ ": "
                                  +:+ exn_str e)))
   end).
End GetTool.

End ToolCollection.

(* ===================================================================== *)
(** ** The tool boundaries, with exceptions outside [Exception] *)
(* ===================================================================== *)

(** [tool_agent.py] and [tool_collection.py] once more, for tools, tool
    classes and modules that may also raise what [except Exception] does
    not catch. *)
Module BaseExceptions.

(** What a [raise] carries: an instance of [Exception], or an instance
    of a class outside it ([SystemExit], [KeyboardInterrupt],
    [GeneratorExit] or another direct subclass of [BaseException]),
    given by the name of its class. *)
Inductive raised : Type :=
| IsException (e : exn)
| NotException (cls : string).

Inductive outcome_b (A : Type) : Type :=
| RetB (a : A)
| RaiseB (r : raised).
Arguments RetB {A} a.
Arguments RaiseB {A} r.

#[global] Instance outcome_b_ret : MRet outcome_b := fun A a => RetB a.
#[global] Instance outcome_b_bind : MBind outcome_b := fun A B k m =>
  match m with
  | RetB a => k a
  | RaiseB r => RaiseB r
  end.

(** [try: body  except Exception as e: handler(e)]: the handler is not
    entered for an exception outside [Exception]. *)
Definition try_except_b {A} (body : outcome_b A) (handler : exn -> outcome_b A)
  : outcome_b A :=
  match body with
  | RetB a => RetB a
  | RaiseB (IsException e) => handler e
  | RaiseB (NotException cls) => RaiseB (NotException cls)
  end.

Record tool_b : Type := ToolB {
  b_name : string;
  b_execute : pydict pyval -> outcome_b pyval;
  b_validate_input : option (pydict pyval -> outcome_b bool)
}.

Inductive module_attr_b : Type :=
| ToolClassB (instantiate : outcome_b tool_b)
| OtherAttrB.

Definition pymodule_b : Type := pydict module_attr_b.

Definition importer_b : Type := string -> outcome_b pymodule_b.

Abbreviation tools_b := (gmap string tool_b).

(** [getattr(module, name)] *)
Definition getattr_b (m : pymodule_b) (name : string) : outcome_b module_attr_b :=
  match PyDict.get name m with
  | Some a => RetB a
  | None => RaiseB (IsException (Exn false ("module has no attribute " +:+ name)))
  end.

(** Calling a module attribute. *)
Definition call_attr_b (a : module_attr_b) : outcome_b tool_b :=
  match a with
  | ToolClassB instantiate => instantiate
  | OtherAttrB => RaiseB (IsException (Exn false "object is not callable"))
  end.

(** [ToolAgent.load_tool]: its [except] clause names [ImportError],
    [AttributeError] and [Exception]. *)
Definition load_tool_b (imp : importer_b) (ts : tools_b) (tool_name : string)
  : tools_b * outcome_b bool :=
  match (module ← imp ("devassist.tools." +:+ tool_name);
         tool_class ← getattr_b module (ToolAgent.class_name tool_name);
         call_attr_b tool_class) with
  | RetB tool_instance => (<[tool_name := tool_instance]> ts, RetB true)
  | RaiseB (IsException _) => (ts, RetB false)
  | RaiseB (NotException cls) => (ts, RaiseB (NotException cls))
  end.

(** [ToolAgent._execute_action], with [depth] nested calls left. *)
Fixpoint _execute_action_at_b (depth : nat) (imp : importer_b) (ts : tools_b)
    (action_name : string) (action_input : pydict pyval)
  : tools_b * outcome_b pyval :=
  match ts !! action_name with
  | Some tool =>
      (ts,
       try_except_b
         (result ← b_execute tool action_input; mret (ToolAgent.wrap_result result))
         (fun e =>
            mret (error_result ("Error executing tool " +:+ action_name +:+ ": "
                                  +:+ exn_str e))))
  | None =>
      let '(ts', loaded) := load_tool_b imp ts action_name in
      match loaded with
      | RetB true =>
          match depth with
          | S depth' => _execute_action_at_b depth' imp ts' action_name action_input
          | O => (ts', RaiseB (IsException ToolAgent.RecursionError))
          end
      | RetB false =>
          (ts', RetB (error_result ("Unknown action or tool: " +:+ action_name)))
      | RaiseB r => (ts', RaiseB r)
      end
  end.

Definition _execute_action_b (imp : importer_b) (ts : tools_b)
    (action_name : string) (action_input : pydict pyval)
  : tools_b * outcome_b pyval :=
  _execute_action_at_b ToolAgent.recursion_limit imp ts action_name action_input.

(** [self.tools] and [self.tool_classes] of a [ToolCollection]. *)
Record collection_b : Type := CollectionB {
  tools_of : gmap string tool_b;
  tool_classes_of : gmap string (outcome_b tool_b)
}.

(** [ToolCollection.register_tool] *)
Definition register_tool_b (c : collection_b) (t : tool_b) : collection_b :=
  CollectionB (<[b_name t := t]> (tools_of c)) (tool_classes_of c).

(** The scan of [dir(module)]. *)
Fixpoint instantiate_first_tool_b (m : pymodule_b) : outcome_b (option tool_b) :=
  match m with
  | [] => RetB None
  | (attr_name, attr) :: m' =>
      if PyStr.endswith "Tool" attr_name then
        match attr with
        | ToolClassB instantiate => t ← instantiate; mret (Some t)
        | OtherAttrB => instantiate_first_tool_b m'
        end
      else instantiate_first_tool_b m'
  end.

Section GetTool.
Variable imp : importer_b.

(** The loop over [directories], with its [except ImportError]. *)
Fixpoint scan_directories_b (name : string) (directories : list string)
  : outcome_b (option tool_b) :=
  match directories with
  | [] => RetB None
  | directory :: rest =>
      let attempt :=
        module ← imp ("devassist.tools." +:+ directory +:+ "." +:+ name +:+ "_tools");
        instantiate_first_tool_b module in
      match attempt with
      | RetB (Some t) => RetB (Some t)
      | RetB None => scan_directories_b name rest
      | RaiseB (IsException e) =>
          if is_import_error e then scan_directories_b name rest
          else RaiseB (IsException e)
      | RaiseB (NotException cls) => RaiseB (NotException cls)
      end
  end.

(** The dynamic-loading part of [get_tool], inside its outer [try]. *)
Definition discover_b (name : string) : outcome_b (option tool_b) :=
  found ← scan_directories_b name ["dev"; "utility"];
  match found with
  | Some t => mret (Some t)
  | None =>
      module ← imp ("devassist.tools." +:+ name);
      instantiate_first_tool_b module
  end.

(** [ToolCollection.get_tool] *)
Definition get_tool_b (c : collection_b) (name : string)
  : collection_b * outcome_b (option tool_b) :=
  match tools_of c !! name with
  | Some t => (c, RetB (Some t))
  | None =>
      match tool_classes_of c !! name with
      | Some instantiate =>
          match instantiate with
          | RetB t => (register_tool_b c t, RetB (Some t))
          | RaiseB (IsException _) => (c, RetB None)
          | RaiseB (NotException cls) => (c, RaiseB (NotException cls))
          end
      | None =>
          match try_except_b (discover_b name) (fun _ => RetB None) with
          | RetB (Some t) => (register_tool_b c t, RetB (Some t))
          | RetB None => (c, RetB None)
          | RaiseB r => (c, RaiseB r)
          end
      end
  end.

(** [ToolCollection.execute_tool] *)
Definition execute_tool_b (c : collection_b) (name : string) (kwargs : pydict pyval)
  : collection_b * outcome_b pyval :=
  let '(c', found) := get_tool_b c name in
  (c',
   tool ← found;
   match tool with
   | None => mret (error_result ("Tool not found: " +:+ name))
   | Some t =>
       try_except_b
         (valid ← match b_validate_input t with
                  | Some validate_input => validate_input kwargs
                  | None => mret true
                  end;
          if negb valid
          then mret (error_result ("Invalid input for tool " +:+ name))
          else result ← b_execute t kwargs;
               mret (ToolAgent.wrap_result result))
         (fun e =>
            mret (error_result ("Error executing tool " +:+ name +:+ ": "
                                  +:+ exn_str e)))
   end).
End GetTool.

(** A tool, class, module or importer that raises instances of
    [Exception] only, as one that may raise anything. *)
Definition any_outcome {A B} (f : A -> B) (o : outcome A) : outcome_b B :=
  match o with
  | Ret a => RetB (f a)
  | Raise e => RaiseB (IsException e)
  end.

Definition any_tool (t : tool) : tool_b :=
  ToolB (tool_name t)
        (fun input => any_outcome id (tool_execute t input))
        (option_map (fun check input => any_outcome id (check input))
                    (tool_validate_input t)).

Definition any_attr (a : module_attr) : module_attr_b :=
  match a with
  | ToolClass instantiate => ToolClassB (any_outcome any_tool instantiate)
  | OtherAttr => OtherAttrB
  end.

Definition any_module (m : pymodule) : pymodule_b :=
  map (fun '(attr_name, a) => (attr_name, any_attr a)) m.

Definition any_importer (imp : importer) : importer_b :=
  fun path => any_outcome any_module (imp path).

Definition any_collection (c : ToolCollection.collection) : collection_b :=
  CollectionB (any_tool <$> ToolCollection.tools c)
              (any_outcome any_tool <$> ToolCollection.tool_classes c).

End BaseExceptions.

(* ===================================================================== *)
(** ** hybrid_agent.py *)
(* ===================================================================== *)

Module HybridAgent.
Import Re.

(** [float(n)] for a count [n]. *)
Definition float_of_nat (n : nat) : float :=
  PrimFloat.of_uint63 (Uint63.of_Z (Z.of_nat n)).

(** The [operations] table of [_assess_complexity]. *)
Definition operations : list (regex * float) :=
  [ (Group (alts ["calculate"; "compute"; "evaluate"]), 1.0%float);
    (Group (alts ["search"; "find"; "look up"]), 1.0%float);
    (cat [Group (alts ["count"; "process"; "analyze"; "transform"]); ws1; lit "text"],
     1.0%float);
    (Alt (cat [lit "run"; ws1; lit "code"]) (lit "execute"), 1.5%float);
    (alts ["compare"; "contrast"; "evaluate"], 2.0%float);
    (alts ["optimize"; "improve"; "enhance"], 2.5%float);
    (alts ["and"; "then"; "after"; "before"], 1.0%float);
    (alts ["if"; "when"; "unless"; "otherwise"], 1.5%float);
    (alts ["all"; "every"; "each"], 1.0%float);
    (alts ["most"; "best"; "optimal"], 1.5%float);
    (cat [lit "create"; ws1;
          Group (alts ["api"; "endpoint"; "component"; "class"; "model"])], 2.0%float);
    (cat [lit "generate"; ws1;
          Group (alts ["api"; "endpoint"; "component"; "class"; "model"])], 2.0%float);
    (alts ["design"; "architect"], 3.0%float);
    (alts ["debug"; "troubleshoot"; "fix"], 2.5%float);
    (Alt (cat [lit "full"; ws1; lit "stack"]) (alts ["end-to-end"; "complete"]),
     3.0%float);
    (alts ["database"; "storage"; "persistence"], 2.0%float);
    (alts ["authentication"; "security"; "encryption"], 2.5%float);
    (alts ["deploy"; "release"; "publish"], 2.0%float);
    (alts ["test"; "validate"; "verify"], 1.5%float);
    (Alt (cat [lit "front"; Opt (lit "-"); lit "end"])
         (Alt (cat [lit "back"; Opt (lit "-"); lit "end"]) (alts ["ui"; "ux"])),
     1.5%float) ].

(** The [tool_keywords] table. *)
Definition tool_keywords : pydict (list string) :=
  [ ("calculator", ["calculate"; "compute"; "evaluate"; "math"]);
    ("search", ["search"; "find"; "look up"; "query"]);
    ("text", ["text"; "string"; "characters"; "words"]);
    ("code", ["code"; "execute"; "run"; "python"]);
    ("react_component", ["react"; "component"; "ui"; "frontend"]);
    ("api_endpoint", ["api"; "endpoint"; "backend"; "rest"]);
    ("database_model", ["database"; "model"; "schema"; "orm"]) ].

(** The first loop: [complexity += score * len(matches)] per operation. *)
Definition operations_score (task : string) : float :=
  fold_left
    (fun complexity '(pattern, score) =>
       (complexity + score * float_of_nat (findall_len no_flags pattern (PyStr.lower task)))%float)
    operations 0%float.

Definition word_count (task : string) : nat := length (PyStr.split_ws task).

Definition special_chars (task : string) : nat :=
  length (List.filter (fun c => negb (PyStr.isalnum c) && negb (PyStr.isspace c))
                      (PyStr.chars task)).

Definition tools_needed (task : string) : nat :=
  length (List.filter
            (fun '(_, keywords) =>
               existsb (fun kw => PyStr.contains kw (PyStr.lower task)) keywords)
            tool_keywords).

(** The score before the cap. *)
Definition raw_complexity (task : string) : float :=
  (operations_score task
   + float_of_nat (word_count task) * 0.1
   + float_of_nat (special_chars task) * 0.05
   + float_of_nat (tools_needed task) * 1.5)%float.

(** The builtin [min] on two floats: the second argument is returned only
    when it is strictly smaller. *)
Definition py_min (a b : float) : float := if (b <? a)%float then b else a.

(** [HybridAgent._assess_complexity] *)
Definition _assess_complexity (task : string) : float :=
  py_min 10.0%float (raw_complexity task).

(** A [ToolAgent] object: its iteration cap and its tool table. *)
Record tool_agent_obj : Type := ToolAgentObj {
  a_max_iterations : Z;
  a_tools : ToolAgent.tools
}.

(** A [HybridAgent] object. *)
Record hybrid : Type := Hybrid {
  self_agent : tool_agent_obj;
  mode : string;
  complexity_threshold : float;
  specialized_agents : pydict tool_agent_obj
}.

(** What [HybridAgent.execute] returns: the dictionary of the
    single-agent loop, the dictionary tagged [mode = direct] or the
    dictionary tagged [mode = multi]. *)
Inductive hybrid_result : Type :=
| SingleResult (r : ReactAgent.result)
| DirectResult (task answer : string) (direct_result : pyval)
| MultiResult (task answer : string) (agent_results : pydict ReactAgent.result).

(** The [config] dictionary of [add_specialized_agent], as far as it is
    read: its [max_iterations] and [tools] entries, [None] for a key
    that is absent. *)
Record agent_config : Type := AgentConfig {
  config_max_iterations : option Z;
  config_tools : option (list string)
}.

Definition nl : string := String "010"%char EmptyString.

Section Dispatch.
Variable imp : importer.
Variable py_str : pyval -> string.

(** [ToolAgent.__init__]: load the listed tools into an empty table. *)
Definition new_tool_agent (max_iterations : Z) (tool_names : list string)
  : tool_agent_obj :=
  ToolAgentObj max_iterations
    (fold_left (fun ts name => fst (ToolAgent.load_tool imp ts name)) tool_names ∅).

(** [HybridAgent.__init__]; [None] is a keyword argument left out. *)
Definition init (max_iterations : Z) (tool_names : list string)
    (kw_mode : option string) (kw_threshold : option float) : hybrid :=
  Hybrid (new_tool_agent max_iterations tool_names)
         (default "auto" kw_mode) (default 7.0%float kw_threshold) [].

(** [agent.execute(task)] for a [ToolAgent] object. *)
Definition agent_execute (a : tool_agent_obj) (task : string)
  : outcome (tool_agent_obj * ReactAgent.result) :=
  '(ts, r) ← ReactAgent.execute (H := ToolAgent.tool_agent imp) py_str
               (a_max_iterations a) (a_tools a) task;
  mret (ToolAgentObj (a_max_iterations a) ts, r).

(** [super().execute(task)]: the single-agent mode. *)
Definition execute_single (h : hybrid) (task : string)
  : outcome (hybrid * hybrid_result) :=
  '(a, r) ← agent_execute (self_agent h) task;
  mret (Hybrid a (mode h) (complexity_threshold h) (specialized_agents h),
        SingleResult r).

Definition required_roles : list string :=
  ["researcher"; "planner"; "executor"; "critic"].

(** [HybridAgent._ensure_specialized_agents] *)
Definition _ensure_specialized_agents (h : hybrid) : hybrid :=
  match specialized_agents h with
  | [] =>
      let names := map fst (map_to_list (a_tools (self_agent h))) in
      Hybrid (self_agent h) (mode h) (complexity_threshold h)
        (fold_left
           (fun agents role =>
              if PyDict.mem role agents then agents
              else PyDict.set role
                     (new_tool_agent (a_max_iterations (self_agent h)) names) agents)
           required_roles (specialized_agents h))
  | _ => h
  end.

(** [self.specialized_agents[role].execute(task)]; a missing role is a
    [KeyError]. *)
Definition role_execute (h : hybrid) (role task : string)
  : outcome (hybrid * ReactAgent.result) :=
  match PyDict.get role (specialized_agents h) with
  | None => Raise (Exn false role)
  | Some a =>
      '(a', r) ← agent_execute a task;
      mret (Hybrid (self_agent h) (mode h) (complexity_threshold h)
                   (PyDict.set role a' (specialized_agents h)), r)
  end.

(** The calculator shortcut of [_execute_multi_agent]: [Some] is its
    [return], [None] is falling through to the role pipeline. *)
Definition direct_path (h : hybrid) (task : string)
  : hybrid * outcome (option hybrid_result) :=
  if PyStr.startswith "calculate" (PyStr.lower task) then
    let '(action_name, action_input) :=
      ToolAgent._decide_action (a_tools (self_agent h))
        (ReactAgent.Context task [] [] []) in
    if String.eqb action_name "calculator" && PyDict.mem "expression" action_input
    then
      let '(ts, o) :=
        ToolAgent._execute_action imp (a_tools (self_agent h))
          action_name action_input in
      let h' := Hybrid (ToolAgentObj (a_max_iterations (self_agent h)) ts)
                       (mode h) (complexity_threshold h) (specialized_agents h) in
      (h',
       result ← o;
       match result with
       | PDict d =>
           match PyDict.get "status" d, PyDict.get "result" d with
           | Some (PStr "success"), Some v =>
               mret (Some (DirectResult task
                             ("The result of "
                                +:+ py_str (default PNone (PyDict.get "expression" action_input))
                                +:+ " is " +:+ py_str v)
                             result))
           | _, _ => mret None
           end
       | _ => Raise (Exn false "object has no attribute get")
       end)
    else (h, Ret None)
  else (h, Ret None).

(** The researcher, planner, executor, critic pipeline. *)
Definition role_pipeline (h : hybrid) (task : string)
  : outcome (hybrid * hybrid_result) :=
  '(h1, researcher_result) ←
     role_execute h "researcher" ("Analyze and gather information for: " +:+ task);
  '(h2, planner_result) ←
     role_execute h1 "planner"
       ("Plan execution strategy for: " +:+ task +:+ nl +:+ "Based on research: "
          +:+ ReactAgent.answer researcher_result);
  '(h3, executor_result) ←
     role_execute h2 "executor"
       ("Execute plan for: " +:+ task +:+ nl +:+ "Following strategy: "
          +:+ ReactAgent.answer planner_result);
  '(h4, critic_result) ←
     role_execute h3 "critic"
       ("Evaluate results for: " +:+ task +:+ nl +:+ "Analyzing output: "
          +:+ ReactAgent.answer executor_result);
  mret (h4,
        MultiResult task (ReactAgent.answer executor_result)
          [("researcher", researcher_result); ("planner", planner_result);
           ("executor", executor_result); ("critic", critic_result)]).

(** [HybridAgent._execute_multi_agent] *)
Definition _execute_multi_agent (h : hybrid) (task : string)
  : outcome (hybrid * hybrid_result) :=
  let h0 := _ensure_specialized_agents h in
  let '(h1, o) := direct_path h0 task in
  shortcut ← o;
  match shortcut with
  | Some r => mret (h1, r)
  | None => role_pipeline h1 task
  end.

(** [HybridAgent.execute]; [kw_mode] is the [mode] keyword argument of
    the call, [None] when it is left out. *)
Definition execute (h : hybrid) (task : string) (kw_mode : option string)
  : outcome (hybrid * hybrid_result) :=
  let mode := default (mode h) kw_mode in
  if String.eqb mode "auto" then
    let complexity := _assess_complexity task in
    if (complexity <? complexity_threshold h)%float
    then execute_single h task
    else _execute_multi_agent h task
  else if String.eqb mode "multi" then _execute_multi_agent h task
  else execute_single h task.
(** [HybridAgent.add_specialized_agent]: the agent is built like a
    default one, from the configured cap and tool names or, where the
    configuration has none, from those of the primary agent, and is
    stored under the role. *)
Definition add_specialized_agent (h : hybrid) (role : string) (config : agent_config)
  : hybrid :=
  let agent :=
    new_tool_agent
      (default (a_max_iterations (self_agent h)) (config_max_iterations config))
      (default (map fst (map_to_list (a_tools (self_agent h)))) (config_tools config)) in
  Hybrid (self_agent h) (mode h) (complexity_threshold h)
         (PyDict.set role agent (specialized_agents h)).
End Dispatch.

(** [HybridAgent.get_specialized_agent] *)
Definition get_specialized_agent (h : hybrid) (role : string) : option tool_agent_obj :=
  PyDict.get role (specialized_agents h).

End HybridAgent.

(* ===================================================================== *)
(** ** short_term.py *)
(* ===================================================================== *)

Module ShortTermMemory.

(** An entry of [self.lru_queue]: [(time, identifier)]. *)
Definition entry : Type := Z * string.

(** Python's ordering of such tuples: by time, then by identifier. *)
Definition entry_leb (a b : entry) : bool :=
  (a.1 <? b.1) || ((a.1 =? b.1) && String.leb a.2 b.2).

Definition entry_eqb (a b : entry) : bool :=
  (a.1 =? b.1) && String.eqb a.2 b.2.

(** [heapq] keeps the queue as an array-shaped binary heap.  Only two
    things about it are observable through [ShortTermMemory]: which
    entries it holds, and that [heappop] removes a least one.  The queue
    is therefore the list of its entries. *)
Definition heappush (q : list entry) (e : entry) : list entry := e :: q.

Fixpoint least (e : entry) (q : list entry) : entry :=
  match q with
  | [] => e
  | e' :: q' => least (if entry_leb e e' then e else e') q'
  end.

Fixpoint remove_first (e : entry) (q : list entry) : list entry :=
  match q with
  | [] => []
  | e' :: q' => if entry_eqb e e' then q' else e' :: remove_first e q'
  end.

Definition heappop (q : list entry) : option (entry * list entry) :=
  match q with
  | [] => None
  | e :: q' => let m := least e q' in Some (m, remove_first m q)
  end.

(** The object: configuration and the four tables.  A stored item is a
    [Dict[str, Any]]; the three dictionaries are only ever accessed by
    key. *)
Record stm : Type := STM {
  capacity : Z;
  ttl : Z;
  items : gmap string (pydict pyval);
  access_times : gmap string Z;
  creation_times : gmap string Z;
  lru_queue : list entry
}.

(** [ShortTermMemory.__init__] *)
Definition init (capacity ttl : Z) : stm := STM capacity ttl ∅ ∅ ∅ [].

Definition live (s : stm) (identifier : string) : bool :=
  bool_decide (is_Some (items s !! identifier)).

Definition with_queue (q : list entry) (s : stm) : stm :=
  STM (capacity s) (ttl s) (items s) (access_times s) (creation_times s) q.

(** [ShortTermMemory.delete].  The queue is rebuilt from the entries whose
    identifier is still stored. *)
Definition delete (identifier : string) (s : stm) : stm * bool :=
  if live s identifier then
    let items' := base.delete identifier (items s) in
    (STM (capacity s) (ttl s) items'
         (base.delete identifier (access_times s))
         (base.delete identifier (creation_times s))
         (List.filter (fun e : entry => bool_decide (is_Some (items' !! e.2)))
                      (lru_queue s)),
     true)
  else (s, false).

(** [ShortTermMemory.clear] *)
Definition clear (s : stm) : stm := STM (capacity s) (ttl s) ∅ ∅ ∅ [].

(** [current_size] as reported by [get_stats]. *)
Definition current_size (s : stm) : nat := size (items s).

(** The identifiers [_prune_expired] collects at clock reading [now].
    The order of the collection does not matter: [delete] is applied to
    each of them. *)
Definition expired_identifiers (now : Z) (s : stm) : list string :=
  map fst (List.filter (fun p : string * Z => ttl s <? now - p.2)
                       (map_to_list (creation_times s))).

(** [ShortTermMemory._prune_expired] *)
Definition _prune_expired (now : Z) (s : stm) : stm :=
  fold_left (fun s identifier => fst (delete identifier s))
            (expired_identifiers now s) s.

Lemma heappop_shorter q e q' :
  heappop q = Some (e, q') -> (length q' < length q)%nat.
Proof.
  destruct q as [|e0 q0]; [discriminate|].
  unfold heappop. intros [= <- <-].
  assert (Hin : forall e1 l, In (least e1 l) (e1 :: l)).
  { intros e1 l. revert e1. induction l as [|a l IH]; intros e1; simpl.
    - now left.
    - destruct (IH (if entry_leb e1 a then e1 else a)) as [H|H].
      + destruct (entry_leb e1 a); [left|right; left]; congruence.
      + right; right; exact H. }
  assert (Hrm : forall (e1 : entry) l,
             In e1 l -> S (length (remove_first e1 l)) = length l).
  { intros e1 l. induction l as [|a l IH]; simpl; [tauto|].
    intros Hl. destruct (entry_eqb e1 a) eqn:E; [reflexivity|].
    destruct Hl as [->|Hl].
    - unfold entry_eqb in E. rewrite Z.eqb_refl, String.eqb_refl in E. discriminate.
    - simpl. now rewrite IH. }
  specialize (Hrm _ _ (Hin e0 q0)). simpl in Hrm |- *. lia.
Qed.

(** A value together with the equation that names it. *)
Definition inspect {A : Type} (x : A) : {y : A | x = y} := exist _ x eq_refl.

(** [ShortTermMemory._evict_lru]: pop entries until one names a stored
    item, and delete that item. *)
Equations? _evict_lru (s : stm) : stm by wf (length (lru_queue s)) lt :=
  _evict_lru s with inspect (heappop (lru_queue s)) => {
    | exist _ None _ => s
    | exist _ (Some (e, q')) Hpop =>
        if live s e.2 then fst (delete e.2 (with_queue q' s))
        else _evict_lru (with_queue q' s) }.
Proof. simpl. eapply heappop_shorter; eassumption. Qed.

Definition ZeroDivisionError : exn := Exn false "division by zero".

(** The state [add] reaches after pruning and inserting, before the
    capacity check. *)
Definition insert_item (t_prune t_now : Z) (identifier : string) (item : pydict pyval)
    (s : stm) : stm :=
  let s1 := _prune_expired t_prune s in
  STM (capacity s1) (ttl s1)
      (<[identifier := item]> (items s1))
      (<[identifier := t_now]> (access_times s1))
      (<[identifier := t_now]> (creation_times s1))
      (heappush (lru_queue s1) (t_now, identifier)).

(** [ShortTermMemory.add].  [t_prune] and [t_now] are the two clock
    readings, [identifier] is the fresh [uuid4].  The utilisation
    computed for the log divides by the capacity. *)
Definition add (t_prune t_now : Z) (identifier : string) (item : pydict pyval) (s : stm)
  : stm * outcome string :=
  let s2 := insert_item t_prune t_now identifier item s in
  let s3 := if capacity s2 <? Z.of_nat (size (items s2)) then _evict_lru s2 else s2 in
  (s3, if capacity s3 =? 0 then Raise ZeroDivisionError else Ret identifier).

(** [ShortTermMemory.get] *)
Definition get (t_prune t_now : Z) (identifier : string) (s : stm)
  : stm * option (pydict pyval) :=
  let s1 := _prune_expired t_prune s in
  match items s1 !! identifier with
  | None => (s1, None)
  | Some item =>
      (STM (capacity s1) (ttl s1) (items s1)
           (<[identifier := t_now]> (access_times s1))
           (creation_times s1) (lru_queue s1),
       Some item)
  end.

(** [ShortTermMemory.update] *)
Definition update (t_prune t_now : Z) (identifier : string) (item : pydict pyval) (s : stm)
  : stm * bool :=
  let s1 := _prune_expired t_prune s in
  if live s1 identifier then
    (STM (capacity s1) (ttl s1)
         (<[identifier := item]> (items s1))
         (<[identifier := t_now]> (access_times s1))
         (creation_times s1) (lru_queue s1),
     true)
  else (s1, false).

(** A call on the store, with the clock readings it takes.  ([search] is
    not among them: no property below concerns it.) *)
Inductive call : Type :=
| CAdd (t_prune t_now : Z) (identifier : string) (item : pydict pyval)
| CGet (t_prune t_now : Z) (identifier : string)
| CUpdate (t_prune t_now : Z) (identifier : string) (item : pydict pyval)
| CDelete (identifier : string)
| CClear.

Definition run_call (s : stm) (c : call) : stm :=
  match c with
  | CAdd tp tn i it => fst (add tp tn i it s)
  | CGet tp tn i => fst (get tp tn i s)
  | CUpdate tp tn i it => fst (update tp tn i it s)
  | CDelete i => fst (delete i s)
  | CClear => clear s
  end.

Definition run_calls (s : stm) (cs : list call) : stm := fold_left run_call cs s.

End ShortTermMemory.

(* ===================================================================== *)
(** ** long_term.py *)
(* ===================================================================== *)

Module LongTermMemory.

(** An item: a [Dict[str, Any]]; a stored item carries a [_meta] entry. *)
Definition item : Type := pydict pyval.

(** The object.  [disk] stands for the directory [storage_path]: the
    document of every file [<id>.json], in [os.listdir] order.  The file
    system is taken to be reliable (every read, write and removal
    succeeds) and every stored document to be serialisable.  The
    [project] and [category] labels are text, as the index tables say. *)
Record ltm : Type := LTM {
  index_in_memory : bool;
  max_items_per_category : Z;
  disk : pydict item;
  index : pydict item;
  category_index : pydict (list string);
  project_index : pydict (list string)
}.

Definition TypeError (msg : string) : exn := Exn false msg.
Definition AttributeError (msg : string) : exn := Exn false msg.

(** Python's [==] on JSON-like values: [True == 1], and dictionaries are
    equal when they have the same keys with equal values, in any order. *)
Fixpoint py_eq (a b : pyval) {struct a} : bool :=
  match a, b with
  | PNone, PNone => true
  | PBool x, PBool y => Bool.eqb x y
  | PBool x, PInt z => z =? (if x then 1 else 0)
  | PInt z, PBool x => z =? (if x then 1 else 0)
  | PInt x, PInt y => x =? y
  | PStr x, PStr y => String.eqb x y
  | PList l1, PList l2 =>
      (fix go (l1 l2 : list pyval) {struct l1} : bool :=
         match l1, l2 with
         | [], [] => true
         | x :: l1', y :: l2' => py_eq x y && go l1' l2'
         | _, _ => false
         end) l1 l2
  | PDict d1, PDict d2 =>
      (length d1 =? length d2)%nat &&
      (fix go (d : list (string * pyval)) {struct d} : bool :=
         match d with
         | [] => true
         | (k, v) :: d' =>
             match PyDict.get k d2 with
             | Some v2 => py_eq v v2
             | None => false
             end && go d'
         end) d1
  | _, _ => false
  end.

(** The truth value of an object. *)
Definition py_truthy (v : pyval) : bool :=
  match v with
  | PNone => false
  | PBool b => b
  | PInt z => negb (z =? 0)
  | PStr s => negb (String.eqb s "")
  | PList l => match l with [] => false | _ => true end
  | PDict d => match d with [] => false | _ => true end
  end.

(** A value read as a number (timestamps are numbers). *)
Definition as_number (v : pyval) : outcome Z :=
  match v with
  | PInt z => Ret z
  | PBool b => Ret (if b then 1 else 0)
  | _ => Raise (TypeError "comparison not supported between these types")
  end.

(** [a < b]: numbers by value, texts in lexicographic order; the model
    does not follow the ordering of lists, and any other pair raises. *)
Definition py_lt (a b : pyval) : outcome bool :=
  match a, b with
  | PStr x, PStr y => Ret (String.ltb x y)
  | _, _ => x ← as_number a; y ← as_number b; mret (x <? y)
  end.

(** [d.get(k, default)] on a value that should be a dictionary. *)
Definition dict_get_or (k : string) (dflt : pyval) (v : pyval) : outcome pyval :=
  match v with
  | PDict d => Ret (default dflt (PyDict.get k d))
  | _ => Raise (AttributeError "object has no attribute get")
  end.

(** [item.get("_meta", {}).get(k, default)] *)
Definition meta_get (k : string) (dflt : pyval) (it : item) : outcome pyval :=
  dict_get_or k dflt (default (PDict []) (PyDict.get "_meta" it)).

(** A label read from a value. *)
Definition label_of (v : pyval) : outcome string :=
  match v with
  | PStr s => Ret s
  | _ => Raise (TypeError "label is not text")
  end.

(** [LongTermMemory._save_item] *)
Definition _save_item (identifier : string) (it : item) (s : ltm) : ltm :=
  LTM (index_in_memory s) (max_items_per_category s)
      (PyDict.set identifier it (disk s))
      (index s) (category_index s) (project_index s).

(** [LongTermMemory._delete_item_file] *)
Definition _delete_item_file (identifier : string) (s : ltm) : ltm * bool :=
  if PyDict.mem identifier (disk s)
  then (LTM (index_in_memory s) (max_items_per_category s)
            (PyDict.del identifier (disk s))
            (index s) (category_index s) (project_index s), true)
  else (s, false).

(** [LongTermMemory.get] *)
Definition get (identifier : string) (s : ltm) : option item :=
  if index_in_memory s && PyDict.mem identifier (index s)
  then PyDict.get identifier (index s)
  else PyDict.get identifier (disk s).

(** [l.remove(x)]: the first occurrence goes. *)
Fixpoint list_remove (x : string) (l : list string) : list string :=
  match l with
  | [] => []
  | y :: l' => if String.eqb x y then l' else y :: list_remove x l'
  end.

Definition list_mem (x : string) (l : list string) : bool :=
  existsb (String.eqb x) l.

(** [if key in table and identifier in table[key]: table[key].remove(identifier)],
    followed, when [cleanup] is set, by
    [if not table[key]: del table[key]]. *)
Definition bucket_remove (cleanup : bool) (key identifier : string)
    (table : pydict (list string)) : pydict (list string) :=
  match PyDict.get key table with
  | Some bucket =>
      if list_mem identifier bucket then
        let bucket' := list_remove identifier bucket in
        match bucket' with
        | [] => if cleanup then PyDict.del key table else PyDict.set key [] table
        | _ => PyDict.set key bucket' table
        end
      else table
  | None => table
  end.

(** [if key not in table: table[key] = []] then
    [table[key].append(identifier)]. *)
Definition bucket_append (key identifier : string)
    (table : pydict (list string)) : pydict (list string) :=
  PyDict.set key (default [] (PyDict.get key table) ++ [identifier])%list table.

(** [LongTermMemory._remove_from_indexes]: it cleans up the project and
    category lists it empties. *)
Definition _remove_from_indexes (identifier : string) (s : ltm) : outcome ltm :=
  match PyDict.get identifier (index s) with
  | Some it =>
      project ← (v ← meta_get "project" (PStr "default") it; label_of v);
      category ← (v ← meta_get "category" (PStr "general") it; label_of v);
      mret (LTM (index_in_memory s) (max_items_per_category s) (disk s)
                (PyDict.del identifier (index s))
                (bucket_remove true category identifier (category_index s))
                (bucket_remove true project identifier (project_index s)))
  | None => Ret s
  end.

(** The body of the loop of [_load_index] for one file.  The document
    enters the main index first; an exception raised after that is
    caught and logged, and leaves what was done so far. *)
Definition index_file (identifier : string) (it : item) (s : ltm) : ltm :=
  let s1 := LTM (index_in_memory s) (max_items_per_category s) (disk s)
                (PyDict.set identifier it (index s))
                (category_index s) (project_index s) in
  match (project ← meta_get "project" (PStr "default") it;
         category ← meta_get "category" (PStr "general") it;
         mret (project, category)) with
  | Raise _ => s1
  | Ret (project, category) =>
      match label_of project with
      | Raise _ => s1
      | Ret project =>
          let s2 := LTM (index_in_memory s1) (max_items_per_category s1) (disk s1)
                        (index s1) (category_index s1)
                        (bucket_append project identifier (project_index s1)) in
          match label_of category with
          | Raise _ => s2
          | Ret category =>
              LTM (index_in_memory s2) (max_items_per_category s2) (disk s2)
                  (index s2)
                  (bucket_append category identifier (category_index s2))
                  (project_index s2)
          end
      end
  end.

(** The loop of [_load_index] over the files of the directory. *)
Fixpoint index_files (files : pydict item) (s : ltm) : ltm :=
  match files with
  | [] => s
  | (identifier, it) :: rest => index_files rest (index_file identifier it s)
  end.

(** [LongTermMemory._load_index]: the three tables are rebuilt from the
    files of the directory. *)
Definition _load_index (s : ltm) : ltm :=
  index_files (disk s)
    (LTM (index_in_memory s) (max_items_per_category s) (disk s) [] [] []).

(** [LongTermMemory.__init__] on a directory that holds [files]. *)
Definition init (index_in_memory : bool) (max_items_per_category : Z)
    (files : pydict item) : ltm :=
  let s := LTM index_in_memory max_items_per_category files [] [] [] in
  if index_in_memory then _load_index s else s.
(** [LongTermMemory.delete] *)
Definition delete (identifier : string) (s : ltm) : outcome (ltm * bool) :=
  s1 ← (if index_in_memory s then _remove_from_indexes identifier s else Ret s);
  mret (_delete_item_file identifier s1).

(** [LongTermMemory.clear]: every file of the directory is removed; the
    three tables are reset when the index is kept in memory. *)
Definition clear (s : ltm) : ltm :=
  if index_in_memory s
  then LTM (index_in_memory s) (max_items_per_category s) [] [] [] []
  else LTM (index_in_memory s) (max_items_per_category s) []
           (index s) (category_index s) (project_index s).

(** [LongTermMemory.add], with the clock reading and the fresh
    identifier. *)
Definition add (timestamp : Z) (identifier : string) (it : item) (s : ltm)
  : outcome (ltm * string) :=
  project ← label_of (default (PStr "default") (PyDict.get "project" it));
  category ← label_of (default (PStr "general") (PyDict.get "category" it));
  let item_with_metadata :=
    PyDict.set "_meta"
      (PDict [("id", PStr identifier); ("created_at", PInt timestamp);
              ("updated_at", PInt timestamp); ("project", PStr project);
              ("category", PStr category)]) it in
  let s1 := _save_item identifier item_with_metadata s in
  if index_in_memory s1 then
    let s2 := LTM (index_in_memory s1) (max_items_per_category s1) (disk s1)
                  (PyDict.set identifier item_with_metadata (index s1))
                  (bucket_append category identifier (category_index s1))
                  (project_index s1) in
    let bucket := default [] (PyDict.get category (category_index s2)) in
    s3 ← (if max_items_per_category s2 <? Z.of_nat (length bucket) then
            match bucket with
            | oldest_id :: bucket' =>
                let s2' := LTM (index_in_memory s2) (max_items_per_category s2)
                               (disk s2) (index s2)
                               (PyDict.set category bucket' (category_index s2))
                               (project_index s2) in
                s2'' ← _remove_from_indexes oldest_id s2';
                mret (fst (_delete_item_file oldest_id s2''))
            | [] => Ret s2
            end
          else Ret s2);
    mret (LTM (index_in_memory s3) (max_items_per_category s3) (disk s3)
              (index s3) (category_index s3)
              (bucket_append project identifier (project_index s3)),
          identifier)
  else mret (s1, identifier).

(** [LongTermMemory.update].  [t1] and [t2] are the clock readings: the
    branch that finds a [_meta] entry takes one, the other branch takes
    [t1] for [created_at] and [t2] for [updated_at].  The document is
    written to disk before the labels of its [_meta] are brought up to
    date; the index receives the final document. *)
Definition update (t1 t2 : Z) (identifier : string) (it : item) (s : ltm)
  : outcome (ltm * bool) :=
  match get identifier s with
  | None => Ret (s, false)
  | Some existing_item =>
      meta ←
        match PyDict.get "_meta" existing_item with
        | Some (PDict m) => Ret (PyDict.set "updated_at" (PInt t1) m)
        | Some _ => Raise (TypeError "object does not support item assignment")
        | None =>
            Ret [("id", PStr identifier); ("created_at", PInt t1);
                 ("updated_at", PInt t2);
                 ("project", default (PStr "default") (PyDict.get "project" it));
                 ("category", default (PStr "general") (PyDict.get "category" it))]
        end;
      let item_with_metadata := PyDict.set "_meta" (PDict meta) it in
      let s1 := _save_item identifier item_with_metadata s in
      if index_in_memory s1 then
        old_project ← (v ← meta_get "project" (PStr "default") existing_item; label_of v);
        old_category ← (v ← meta_get "category" (PStr "general") existing_item; label_of v);
        new_project ← label_of (default (PStr old_project) (PyDict.get "project" it));
        new_category ← label_of (default (PStr old_category) (PyDict.get "category" it));
        let '(meta1, project_index1) :=
          if negb (String.eqb new_project old_project) then
            (PyDict.set "project" (PStr new_project) meta,
             bucket_append new_project identifier
               (bucket_remove false old_project identifier (project_index s1)))
          else (meta, project_index s1) in
        let '(meta2, category_index1) :=
          if negb (String.eqb new_category old_category) then
            (PyDict.set "category" (PStr new_category) meta1,
             bucket_append new_category identifier
               (bucket_remove false old_category identifier (category_index s1)))
          else (meta1, category_index s1) in
        mret (LTM (index_in_memory s1) (max_items_per_category s1) (disk s1)
                  (PyDict.set identifier (PyDict.set "_meta" (PDict meta2) it) (index s1))
                  category_index1 project_index1,
              true)
      else mret (s1, true)
  end.

(** An element of the list [search] returns. *)
Record hit : Type := Hit {
  hit_id : string;
  hit_item : item;
  hit_created_at : pyval
}.

(** [table.get(key, [])] with a filter value as the key: a text key is
    looked up, another hashable value is no key of the table, a list or
    a dictionary cannot be hashed. *)
Definition bucket_of (key : pyval) (table : pydict (list string))
  : outcome (list string) :=
  match key with
  | PStr k => Ret (default [] (PyDict.get k table))
  | PList _ | PDict _ => Raise (TypeError "unhashable type")
  | _ => Ret []
  end.

(** The descent along the parts of a dotted key. *)
Fixpoint nested_lookup (parts : list string) (curr : pyval) : option pyval :=
  match parts with
  | [] => Some curr
  | part :: parts' =>
      match curr with
      | PDict d =>
          match PyDict.get part d with
          | Some v => nested_lookup parts' v
          | None => None
          end
      | _ => None
      end
  end.

(** Insertion of [x] into a list sorted by decreasing key, before the
    first element whose key is not greater: the stable sort with
    [reverse=True]. *)
Fixpoint insert_newest (x : Z * hit) (l : list (Z * hit)) : list (Z * hit) :=
  match l with
  | [] => [x]
  | y :: l' => if x.1 <? y.1 then y :: insert_newest x l' else x :: l
  end.

Fixpoint keyed (results : list hit) : outcome (list (Z * hit)) :=
  match results with
  | [] => Ret []
  | h :: rest =>
      k ← as_number (hit_created_at h);
      ks ← keyed rest;
      mret ((k, h) :: ks)
  end.

(** [results.sort(key=lambda x: x["created_at"], reverse=True)]; a list
    of fewer than two elements is not compared at all. *)
Definition sort_newest_first (results : list hit) : outcome (list hit) :=
  match results with
  | [] | [_] => Ret results
  | _ => ks ← keyed results; mret (map snd (fold_right insert_newest [] ks))
  end.

Section Search.
(** [json.dumps] *)
Variable json_dumps : pyval -> string.

(** One round of the loop of [_matches_query]: [Ret false] is its
    [return False]. *)
Definition matches_entry (it : item) (key : string) (value : pyval)
  : outcome bool :=
  if PyStr.contains "." key then
    match nested_lookup (PyStr.split_on "."%char key) (PDict it) with
    | Some curr => Ret (py_eq curr value)
    | None => Ret false
    end
  else
    match String.eqb key "_text", value with
    | true, PStr text =>
        Ret (PyStr.contains (PyStr.lower text) (PyStr.lower (json_dumps (PDict it))))
    | _, _ =>
        if String.eqb key "_date_after" && PyDict.mem "_meta" it then
          created_at ← meta_get "created_at" (PInt 0) it;
          before ← py_lt created_at value;
          mret (negb before)
        else if String.eqb key "_date_before" && PyDict.mem "_meta" it then
          created_at ← meta_get "created_at" (PInt 0) it;
          after ← py_lt value created_at;
          mret (negb after)
        else
          Ret (match PyDict.get key it with
               | Some v => py_eq v value
               | None => false
               end)
    end.

(** [LongTermMemory._matches_query]: it reads the query and the item and
    changes neither. *)
Fixpoint _matches_query (it : item) (query : pydict pyval) : outcome bool :=
  match query with
  | [] => Ret true
  | (key, value) :: query' =>
      ok ← matches_entry it key value;
      if (ok : bool) then _matches_query it query' else Ret false
  end.

(** The [for] loop of the indexed branch; [results] is the list built so
    far. *)
Fixpoint scan_index (s : ltm) (query : pydict pyval) (limit : Z)
    (ids : list string) (results : list hit) : outcome (list hit) :=
  match ids with
  | [] => Ret results
  | identifier :: rest =>
      match PyDict.get identifier (index s) with
      | Some it =>
          ok ← (if py_truthy (PDict it) then _matches_query it query else Ret false);
          if (ok : bool) then
            created_at ← meta_get "created_at" (PInt 0) it;
            let results' := (results ++ [Hit identifier it created_at])%list in
            if limit <=? Z.of_nat (length results') then Ret results'
            else scan_index s query limit rest results'
          else scan_index s query limit rest results
      | None => scan_index s query limit rest results
      end
  end.

(** The [for] loop of the directory branch, over the files of [disk]. *)
Fixpoint scan_disk (query : pydict pyval) (limit : Z)
    (project_filter category_filter : pyval)
    (files : pydict item) (results : list hit) : outcome (list hit) :=
  match files with
  | [] => Ret results
  | (identifier, it) :: rest =>
      other_project ←
        (if py_truthy project_filter
         then project ← meta_get "project" PNone it;
              mret (negb (py_eq project project_filter))
         else mret false);
      if (other_project : bool)
      then scan_disk query limit project_filter category_filter rest results
      else
        other_category ←
          (if py_truthy category_filter
           then category ← meta_get "category" PNone it;
                mret (negb (py_eq category category_filter))
           else mret false);
        if (other_category : bool)
        then scan_disk query limit project_filter category_filter rest results
        else
          ok ← (if py_truthy (PDict it) then _matches_query it query else Ret false);
          if (ok : bool) then
            created_at ← meta_get "created_at" (PInt 0) it;
            let results' := (results ++ [Hit identifier it created_at])%list in
            if limit <=? Z.of_nat (length results') then Ret results'
            else scan_disk query limit project_filter category_filter rest results'
          else scan_disk query limit project_filter category_filter rest results
  end.

(** [LongTermMemory.search].  The first component of the result is the
    caller's [query] dictionary as the call leaves it: the two [pop]s
    come first and act on the argument itself. *)
Definition search (s : ltm) (query : pydict pyval) (limit : Z)
  : pydict pyval * outcome (list hit) :=
  let project_filter := default PNone (PyDict.get "project" query) in
  let query1 := PyDict.del "project" query in
  let category_filter := default PNone (PyDict.get "category" query1) in
  let query2 := PyDict.del "category" query1 in
  (query2,
   results ←
     (if index_in_memory s then
        item_ids_to_search ←
          (if py_truthy project_filter then bucket_of project_filter (project_index s)
           else if py_truthy category_filter
                then bucket_of category_filter (category_index s)
                else Ret (PyDict.keys (index s)));
        scan_index s query2 limit item_ids_to_search []
      else scan_disk query2 limit project_filter category_filter (disk s) []);
   sort_newest_first results).

(** [LongTermMemory.get_project_items]: the query dictionary is built
    for the call. *)
Definition get_project_items (s : ltm) (project : string) (limit : Z)
  : outcome (list hit) :=
  snd (search s [("project", PStr project)] limit).
End Search.

End LongTermMemory.

(* ===================================================================== *)
(** * Properties *)
(* ===================================================================== *)

(** A repeated closing step: split a conjunction of arithmetic facts. *)
Ltac arith := repeat split; lia.

(* ===================================================================== *)
(** ** The agent loop *)
(* ===================================================================== *)

Module ReactAgentProps.
Import ReactAgent.

Lemma should_terminate_now N cur ctx :
  _should_terminate N cur ctx = true -> N - 1 <= cur.
Proof. unfold _should_terminate. rewrite Z.geb_leb. apply Z.leb_le. Qed.

Lemma should_continue N cur ctx :
  _should_terminate N cur ctx = false -> cur < N - 1.
Proof. unfold _should_terminate. rewrite Z.geb_leb. apply Z.leb_gt. Qed.

(** No observation makes the scan return: the inner test is between two
    different literals. *)
Lemma final_answer_step_none py_str o : final_answer_step py_str o = None.
Proof.
  unfold final_answer_step. destruct (is_dict_with "result" o); [|reflexivity].
  destruct o as [| | | | |d]; try reflexivity.
  destruct (PyDict.get "result" d) as [[| | | | |rd]|]; reflexivity.
Qed.

(** Whatever the observations are, the final answer is the generic
    message. *)
Lemma final_answer_generic py_str ctx :
  _generate_final_answer py_str ctx = generic_answer.
Proof.
  unfold _generate_final_answer.
  assert (Hscan : final_answer_scan py_str (observations ctx) = None).
  { induction (observations ctx) as [|o obs IH]; simpl; [reflexivity|].
    now rewrite final_answer_step_none. }
  now rewrite Hscan.
Qed.

Section AnyAgent.
Context {St : Type} `{Agent St}.
Variable N : Z.

Lemma iteration_observations st cur ctx st' ctx' :
  iteration st cur ctx = (st', Ret ctx') ->
  length (observations ctx') = S (length (observations ctx))
  /\ task ctx' = task ctx.
Proof.
  unfold iteration. destruct (_decide_action _ _) as [n i].
  destruct (_execute_action st n i) as [st1 [o|e]]; simpl; intros [= <- <-]; simpl.
  rewrite length_app. simpl. split; [lia|reflexivity].
Qed.

(** For every agent, the loop adds at most [max_iterations - cur]
    observations, and leaves the counter below the cap unless it never
    ran. *)
Lemma react_loop_bounded st cur ctx st' cur' ctx' :
  react_loop N st cur ctx = Ret (st', cur', ctx') ->
  (length (observations ctx') <= length (observations ctx) + Z.to_nat (N - cur))%nat
  /\ cur <= cur' /\ (cur' = cur \/ cur' < N).
Proof.
  revert st' cur' ctx'.
  apply (react_loop_elim N
    (fun st cur ctx r => forall st' cur' ctx', r = Ret (st', cur', ctx') ->
      (length (observations ctx') <= length (observations ctx) + Z.to_nat (N - cur))%nat
      /\ cur <= cur' /\ (cur' = cur \/ cur' < N))); clear st cur ctx.
  - intros st cur n ctx _ st' cur' ctx' [= <- <- <-]. arith.
  - intros; discriminate.
  - intros st cur l ctx st1 ctx1 _ Hit _ st' cur' ctx' [= <- <- <-].
    apply iteration_observations in Hit as [Hl _]. arith.
  - intros st cur l ctx st1 ctx1 IH Hterm Hit _ st' cur' ctx' Hr.
    apply should_continue in Hterm.
    apply iteration_observations in Hit as [Hl _]. apply IH in Hr. arith.
Qed.

(** For every agent and every cap, a run that returns has performed at
    most [max_iterations] iterations. *)
Lemma execute_iterations_bounded py_str st task st' r :
  execute py_str N st task = Ret (st', r) ->
  (length (observations (r_context r)) <= Z.to_nat N)%nat.
Proof.
  unfold execute.
  destruct (react_loop N st 0 (Context task [] [] [])) as [[[st1 cur1] ctx1]|e] eqn:E;
    [|discriminate].
  simpl. intros [= <- <-]. simpl.
  apply react_loop_bounded in E. simpl in E. replace (N - 0) with N in E by lia. lia.
Qed.
End AnyAgent.

(** The loop of the base class from a counter below the cap: it runs to
    the cap and stops with the counter at [max_iterations - 1]. *)
Lemma placeholder_loop N cur ctx :
  cur < N ->
  exists ctx', react_loop (H := react_agent) N tt cur ctx = Ret (tt, N - 1, ctx')
     /\ length (observations ctx') = (length (observations ctx) + Z.to_nat (N - cur))%nat
     /\ task ctx' = task ctx.
Proof.
  apply (react_loop_elim (H := react_agent) N
    (fun st cur ctx r => cur < N -> exists ctx', r = Ret (tt, N - 1, ctx')
     /\ length (observations ctx') = (length (observations ctx) + Z.to_nat (N - cur))%nat
     /\ task ctx' = task ctx)); clear cur ctx.
  - intros; lia.
  - intros st cur l ctx st1 e Hit _ _. discriminate Hit.
  - intros st cur l ctx st1 ctx1 Hterm Hit _ _.
    apply should_terminate_now in Hterm. destruct st1.
    apply iteration_observations in Hit as [Hl Ht].
    exists ctx1. replace (N - 1) with cur by lia.
    split; [reflexivity|]. split; [lia|assumption].
  - intros st cur l ctx st1 ctx1 IH Hterm Hit _ _.
    apply should_continue in Hterm. destruct st1.
    apply iteration_observations in Hit as [Hl Ht].
    destruct IH as (ctx' & -> & Hl' & Ht'); [lia|].
    exists ctx'. split; [reflexivity|]. split; [lia|congruence].
Qed.

(** With a cap of at least one, [ReactAgent.execute] returns, performs
    exactly [max_iterations] iterations and reports that number. *)
Lemma execute_positive_cap py_str N task :
  1 <= N ->
  exists ctx',
    execute (H := react_agent) py_str N tt task
    = Ret (tt, Result task generic_answer N ctx')
    /\ length (observations ctx') = Z.to_nat N.
Proof.
  intros HN. unfold execute.
  destruct (placeholder_loop N 0 (Context task [] [] [])) as (ctx' & -> & Hl & _); [lia|].
  exists ctx'. simpl. rewrite final_answer_generic.
  replace (N - 1 + 1) with N by lia. split; [reflexivity|].
  simpl in Hl. rewrite Hl. f_equal. lia.
Qed.

(** C1 (failing input): with [max_iterations = 0] the loop body never
    runs, so the returned context holds no thought, action or
    observation, yet [ReactAgent.execute] reports [iterations = 1],
    which is above the cap.  [execute_positive_cap] and
    [execute_iterations_bounded] give what does hold. *)
Theorem execute_zero_cap_reports_one py_str task :
  execute (H := react_agent) py_str 0 tt task
  = Ret (tt, Result task generic_answer 1 (Context task [] [] [])).
Proof.
  unfold execute. simp react_loop. simpl.
  rewrite final_answer_generic. reflexivity.
Qed.

(** A calculator that answers every expression with a success
    dictionary, and an interpreter that can import nothing. *)
Definition calculator_stub : tool :=
  Tool "calculator"
       (fun _ => Ret (PDict [("status", PStr "success"); ("result", PStr "4")]))
       None.
Definition no_modules : importer := fun _ => Raise (Exn true "No module named").

(** C5 (failing input): a [ToolAgent] holding a calculator runs one
    iteration on the task [calculate 2+2]; the only observation is the
    tool's dictionary with [status = success] and a [result] payload,
    and the answer is the generic completion message, not the payload.
    [final_answer_generic] shows this for every context. *)
Theorem success_payload_not_returned py_str :
  execute (H := ToolAgent.tool_agent no_modules) py_str 1
          {[ "calculator" := calculator_stub ]} "calculate 2+2"
  = Ret ({[ "calculator" := calculator_stub ]},
         Result "calculate 2+2" generic_answer 1
           (Context "calculate 2+2"
              ["Thinking about how to calculate 2+2 (iteration 0)"]
              [("calculator", [("expression", PStr "2+2")])]
              [PDict [("status", PStr "success"); ("result", PStr "4")]])).
Proof.
  unfold execute.
  assert (Hloop :
    react_loop (H := ToolAgent.tool_agent no_modules) 1
      {[ "calculator" := calculator_stub ]} 0 (Context "calculate 2+2" [] [] [])
    = Ret ({[ "calculator" := calculator_stub ]}, 0,
           Context "calculate 2+2"
             ["Thinking about how to calculate 2+2 (iteration 0)"]
             [("calculator", [("expression", PStr "2+2")])]
             [PDict [("status", PStr "success"); ("result", PStr "4")]])).
  { vm_compute. reflexivity. }
  rewrite Hloop. simpl. rewrite final_answer_generic. reflexivity.
Qed.

End ReactAgentProps.

(* ===================================================================== *)
(** ** The task router *)
(* ===================================================================== *)

Module RouterProps.
Import ToolAgent Re.

Lemma loaded_true (ts : gmap string tool) name :
  is_Some (ts !! name) -> loaded name ts = true.
Proof. intros Hs. unfold loaded. now apply bool_decide_eq_true_2. Qed.

(** Every rule block is a function of the lower-cased text and of which
    tools are loaded; a block whose tool is not loaded never fires. *)
Lemma first_some_none {A B} (f : A -> option B) (l : list A) :
  (forall a, f a = None) -> first_some f l = None.
Proof. intros Hf. induction l as [|a l IH]; simpl; [reflexivity|]. now rewrite Hf. Qed.

Lemma no_tools_no_rule (rule : tools -> string -> option action) task :
  In rule rules -> rule ∅ task = None.
Proof.
  assert (Hl : forall name, loaded name (∅ : tools) = false) by reflexivity.
  unfold rules. simpl. intros [<-|[<-|[<-|[<-|[<-|[<-|[]]]]]]].
  - unfold calculator_rule. rewrite Hl. now destruct (search _ _ _).
  - apply first_some_none. intros p. rewrite Hl. now destruct (search _ _ _).
  - apply first_some_none. intros [p o]. rewrite Hl. now destruct (search _ _ _).
  - apply first_some_none. intros p. rewrite Hl. now destruct (search _ _ _).
  - apply first_some_none. intros p. rewrite Hl. now destruct (search _ _ _).
  - apply first_some_none. intros p. rewrite Hl. now destruct (search _ _ _).
Qed.

(** With no tool loaded every task is routed to the fallback. *)
Lemma route_without_tools text :
  route ∅ text = dummy_action (PyStr.lower text).
Proof.
  unfold route, route_lowered.
  assert (Hnone : first_some (fun rule => rule ∅ (PyStr.lower text)) rules = None).
  { assert (Hall : forall l, (forall r, In r l -> In r rules) ->
              first_some (fun rule => rule ∅ (PyStr.lower text)) l = None).
    { induction l as [|r l IH]; simpl; [reflexivity|]. intros Hin.
      rewrite (no_tools_no_rule r) by (apply Hin; now left).
      apply IH. intros r' Hr'. apply Hin. now right. }
    apply Hall. auto. }
  now rewrite Hnone.
Qed.

(** A table holding a calculator and a search tool. *)
Definition echo_tool (name : string) : tool :=
  Tool name (fun kwargs => Ret (PDict kwargs)) None.
Definition two_tools : tools :=
  <[ "search" := echo_tool "search" ]> {[ "calculator" := echo_tool "calculator" ]}.

(** C6 (as amended): with the calculator and the search tool loaded,
    [calculate 2+2] is routed to the calculator with expression [2+2]
    and [search for foo] to the search tool with query [foo]; a text on
    which no rule block fires is routed to the fallback action, which
    carries the lower-cased task text; and the route is a function of
    the lower-cased text (and of the tool table). *)
Theorem route_deterministic (ts : tools) :
  is_Some (ts !! "calculator") ->
  is_Some (ts !! "search") ->
  route ts "calculate 2+2" = ("calculator", [("expression", PStr "2+2")])
  /\ route ts "search for foo" = ("search", [("query", PStr "foo")])
  /\ (forall text,
        Forall (fun rule => rule ts (PyStr.lower text) = None) rules ->
        route ts text
        = ("dummy_action",
           [("query", PStr ("Placeholder action for " +:+ PyStr.lower text))]))
  /\ (forall text1 text2,
        PyStr.lower text1 = PyStr.lower text2 -> route ts text1 = route ts text2).
Proof.
  intros Hcalc Hsearch. repeat split.
  - unfold route, route_lowered, rules.
    change (PyStr.lower "calculate 2+2") with "calculate 2+2".
    cbn [first_some]. unfold calculator_rule.
    replace (search IGNORECASE calc_pattern "calculate 2+2")
      with (Some (Match 0 13 "2+2")) by (vm_compute; reflexivity).
    rewrite (loaded_true ts "calculator" Hcalc). reflexivity.
  - unfold route, route_lowered, rules.
    change (PyStr.lower "search for foo") with "search for foo".
    cbn [first_some]. unfold calculator_rule.
    replace (search IGNORECASE calc_pattern "search for foo")
      with (@None rmatch_result) by (vm_compute; reflexivity).
    unfold search_rule, search_patterns. cbn [first_some].
    match goal with |- context [search IGNORECASE ?p "search for foo"] =>
      replace (search IGNORECASE p "search for foo")
        with (Some (Match 0 14 "foo")) by (vm_compute; reflexivity) end.
    rewrite (loaded_true ts "search" Hsearch). reflexivity.
  - intros text Hnone. unfold route, route_lowered.
    assert (Hf : forall l : list (tools -> string -> option action),
               Forall (fun rule => rule ts (PyStr.lower text) = None) l ->
               first_some (fun rule => rule ts (PyStr.lower text)) l = None).
    { induction l as [|r l IH]; simpl; [reflexivity|].
      intros Hl. inversion Hl as [|? ? Hr Hl']; subst. rewrite Hr. now apply IH. }
    rewrite (Hf _ Hnone). reflexivity.
  - intros text1 text2 Heq. unfold route. now rewrite Heq.
Qed.

Lemma route_deterministic_witness :
  route two_tools "calculate 2+2" = ("calculator", [("expression", PStr "2+2")])
  /\ route two_tools "search for foo" = ("search", [("query", PStr "foo")])
  /\ (forall text,
        Forall (fun rule => rule two_tools (PyStr.lower text) = None) rules ->
        route two_tools text
        = ("dummy_action",
           [("query", PStr ("Placeholder action for " +:+ PyStr.lower text))]))
  /\ (forall text1 text2,
        PyStr.lower text1 = PyStr.lower text2 ->
        route two_tools text1 = route two_tools text2).
Proof.
  apply (route_deterministic two_tools); vm_compute; eauto.
Defined.

(** C6 (counterexample to the claim as stated): the fallback action for
    the task [Hello World] carries [hello world], not the original
    text. *)
Lemma fallback_carries_lowered_text :
  route two_tools "Hello World"
  = ("dummy_action", [("query", PStr "Placeholder action for hello world")]).
Proof. vm_compute. reflexivity. Qed.

(** The route does not tell a text from its lower-cased form. *)
Lemma route_case_insensitive ts text : route ts (PyStr.lower text) = route ts text.
Proof. unfold route. now rewrite PyStr.lower_idem. Qed.

End RouterProps.

(* ===================================================================== *)
(** ** The tool boundary *)
(* ===================================================================== *)

Module ToolBoundaryProps.

Definition tool_error (name : string) (e : exn) : pyval :=
  error_result ("Error executing tool " +:+ name +:+ ": " +:+ exn_str e).

(** Running a loaded tool inside the [try] block returns, whatever the
    tool does. *)
Lemma guarded_run_returns (t : tool) name input :
  returns
    (try_except
       (result ← tool_execute t input; mret (ToolAgent.wrap_result result))
       (fun e => mret (tool_error name e))).
Proof. destruct (tool_execute t input); simpl; eexists; reflexivity. Qed.

Lemma load_tool_cases imp ts name :
  (exists t, ToolAgent.load_tool imp ts name = (<[name := t]> ts, true))
  \/ ToolAgent.load_tool imp ts name = (ts, false).
Proof.
  unfold ToolAgent.load_tool.
  destruct (_ ≫= _) as [t|e]; [left; eauto|right; reflexivity].
Qed.

(** One nested call is all [_execute_action] ever needs. *)
Lemma execute_action_at_returns depth imp ts name input :
  returns (ToolAgent._execute_action_at (S depth) imp ts name input).2.
Proof.
  simpl. destruct (ts !! name) as [t|] eqn:E; simpl.
  - apply guarded_run_returns.
  - destruct (load_tool_cases imp ts name) as [[t ->]| ->]; simpl.
    + destruct depth; simpl; rewrite lookup_insert_eq; simpl;
        apply guarded_run_returns.
    + eexists; reflexivity.
Qed.

Lemma get_tool_returns imp c name :
  returns (ToolCollection.get_tool imp c name).2.
Proof.
  unfold ToolCollection.get_tool.
  destruct (ToolCollection.tools c !! name); [eexists; reflexivity|].
  destruct (ToolCollection.tool_classes c !! name) as [[t|e]|];
    try (eexists; reflexivity).
  destruct (ToolCollection.discover imp name) as [[t|]|e]; simpl;
    eexists; reflexivity.
Qed.

(** A tool that always raises, in a table and in a collection; and a
    name nothing can resolve. *)
Definition failing_tool : tool :=
  Tool "boom" (fun _ => Raise (Exn false "kaboom")) None.

Example raising_tool_observed :
  (ToolAgent._execute_action ReactAgentProps.no_modules
     {[ "boom" := failing_tool ]} "boom" []).2
  = Ret (PDict [("status", PStr "error");
                ("error", PStr "Error executing tool boom: kaboom")])
  /\ (ToolCollection.execute_tool ReactAgentProps.no_modules
        (ToolCollection.Collection {[ "boom" := failing_tool ]} ∅) "boom" []).2
     = Ret (PDict [("status", PStr "error");
                   ("error", PStr "Error executing tool boom: kaboom")]).
Proof. split; vm_compute; reflexivity. Qed.

Example unknown_tool_observed :
  (ToolAgent._execute_action ReactAgentProps.no_modules ∅ "nope" []).2
  = Ret (PDict [("status", PStr "error");
                ("error", PStr "Unknown action or tool: nope")])
  /\ (ToolCollection.execute_tool ReactAgentProps.no_modules
        (ToolCollection.Collection ∅ ∅) "nope" []).2
     = Ret (PDict [("status", PStr "error");
                   ("error", PStr "Tool not found: nope")]).
Proof. split; vm_compute; reflexivity. Qed.

End ToolBoundaryProps.

(* ===================================================================== *)
(** ** The tool boundary and what [except Exception] lets through *)
(* ===================================================================== *)

Module EscapeProps.
Import BaseExceptions ToolBoundaryProps.

(** The tool an agent runs for a name: the loaded one or, when there is
    none, the one [load_tool] has just registered. *)
Definition agent_runs (imp : importer_b) (ts : tools_b) (name : string) (t : tool_b)
  : Prop :=
  ts !! name = Some t
  \/ (ts !! name = None /\ load_tool_b imp ts name = (<[name := t]> ts, RetB true)).

(** The tool has no [validate_input], or it accepts the input. *)
Definition accepts (t : tool_b) (input : pydict pyval) : Prop :=
  b_validate_input t = None
  \/ exists check, b_validate_input t = Some check /\ check input = RetB true.

(** The [try] block around a tool's [execute], case by case. *)
Lemma guarded_run_cases (t : tool_b) name input :
  let run :=
    try_except_b
      (result ← b_execute t input; mret (ToolAgent.wrap_result result))
      (fun e => mret (tool_error name e)) in
  match b_execute t input with
  | RetB v => run = RetB (ToolAgent.wrap_result v)
  | RaiseB (IsException e) => run = RetB (tool_error name e)
  | RaiseB (NotException cls) => run = RaiseB (NotException cls)
  end.
Proof. cbv zeta. destruct (b_execute t input) as [v|[e|cls]]; reflexivity. Qed.

Lemma load_tool_b_cases imp ts name :
  (exists t, load_tool_b imp ts name = (<[name := t]> ts, RetB true))
  \/ load_tool_b imp ts name = (ts, RetB false)
  \/ exists cls, load_tool_b imp ts name = (ts, RaiseB (NotException cls)).
Proof.
  unfold load_tool_b. destruct (_ ≫= _) as [t|[e|cls]]; eauto.
Qed.

(** [_execute_action] on a name whose tool is [t]. *)
Lemma agent_runs_guarded depth imp ts name input t :
  agent_runs imp ts name t ->
  (_execute_action_at_b (S depth) imp ts name input).2
  = try_except_b
      (result ← b_execute t input; mret (ToolAgent.wrap_result result))
      (fun e => mret (tool_error name e)).
Proof.
  intros [Hin|[Hnot Hload]]; simpl.
  - now rewrite Hin.
  - rewrite Hnot, Hload. destruct depth; simpl; now rewrite lookup_insert_eq.
Qed.

(** No instance of [Exception] leaves [_execute_action]. *)
Lemma execute_action_at_b_guarded depth imp ts name input e :
  (_execute_action_at_b (S depth) imp ts name input).2 <> RaiseB (IsException e).
Proof.
  destruct (ts !! name) as [t|] eqn:E.
  - rewrite (agent_runs_guarded depth imp ts name input t) by (now left).
    pose proof (guarded_run_cases t name input) as H. cbv zeta in H.
    destruct (b_execute t input) as [v|[e'|cls]]; rewrite H; discriminate.
  - destruct (load_tool_b_cases imp ts name) as [[t Hl]|[Hl|[cls Hl]]].
    + rewrite (agent_runs_guarded depth imp ts name input t) by (now right).
      pose proof (guarded_run_cases t name input) as H. cbv zeta in H.
      destruct (b_execute t input) as [v|[e'|cls]]; rewrite H; discriminate.
    + simpl. rewrite E, Hl. discriminate.
    + simpl. rewrite E, Hl. discriminate.
Qed.

(** No instance of [Exception] leaves [get_tool]. *)
Lemma get_tool_b_guarded imp c name e :
  (get_tool_b imp c name).2 <> RaiseB (IsException e).
Proof.
  unfold get_tool_b.
  destruct (tools_of c !! name); [discriminate|].
  destruct (tool_classes_of c !! name) as [[t|[e'|cls]]|]; try discriminate.
  destruct (discover_b imp name) as [[t|]|[e'|cls]]; simpl; discriminate.
Qed.

(** [execute_tool] once [get_tool] has answered. *)
Lemma execute_tool_b_found imp c name input found :
  (get_tool_b imp c name).2 = RetB found ->
  (execute_tool_b imp c name input).2
  = match found with
    | None => RetB (error_result ("Tool not found: " +:+ name))
    | Some t =>
        try_except_b
          (valid ← match b_validate_input t with
                   | Some validate_input => validate_input input
                   | None => mret true
                   end;
           if negb valid
           then mret (error_result ("Invalid input for tool " +:+ name))
           else result ← b_execute t input;
                mret (ToolAgent.wrap_result result))
          (fun e => mret (tool_error name e))
    end.
Proof.
  unfold execute_tool_b. destruct (get_tool_b imp c name) as [c' o]. simpl.
  intros ->. reflexivity.
Qed.

Lemma execute_tool_b_accepted imp c name input t :
  (get_tool_b imp c name).2 = RetB (Some t) -> accepts t input ->
  (execute_tool_b imp c name input).2
  = try_except_b
      (result ← b_execute t input; mret (ToolAgent.wrap_result result))
      (fun e => mret (tool_error name e)).
Proof.
  intros Hget Hacc. rewrite (execute_tool_b_found imp c name input _ Hget).
  destruct Hacc as [->|(check & -> & Hc)]; [reflexivity|].
  simpl. rewrite Hc. reflexivity.
Qed.

Lemma execute_tool_b_guarded imp c name input e :
  (execute_tool_b imp c name input).2 <> RaiseB (IsException e).
Proof.
  destruct ((get_tool_b imp c name).2) as [found|[e'|cls]] eqn:Hget.
  - rewrite (execute_tool_b_found imp c name input found Hget).
    destruct found as [t|]; [|discriminate].
    destruct (b_validate_input t) as [check|]; simpl.
    + destruct (check input) as [[]|[e'|cls]]; simpl; try discriminate.
      destruct (b_execute t input) as [v|[e'|cls]]; discriminate.
    + destruct (b_execute t input) as [v|[e'|cls]]; discriminate.
  - now apply get_tool_b_guarded in Hget.
  - unfold execute_tool_b. destruct (get_tool_b imp c name) as [c' o].
    simpl in *. subst o. discriminate.
Qed.

(** *** Tools that raise instances of [Exception] only *)

Lemma get_any_module name m :
  PyDict.get name (any_module m) = any_attr <$> PyDict.get name m.
Proof.
  induction m as [|[k a] m IH]; simpl; [reflexivity|].
  destruct (String.eqb name k); [reflexivity|exact IH].
Qed.

Lemma load_any imp ts name :
  load_tool_b (any_importer imp) (any_tool <$> ts) name
  = (any_tool <$> (ToolAgent.load_tool imp ts name).1,
     RetB (ToolAgent.load_tool imp ts name).2).
Proof.
  unfold load_tool_b, ToolAgent.load_tool, any_importer.
  destruct (imp _) as [m|e]; simpl; [|reflexivity].
  unfold getattr_b, ToolAgent.getattr. rewrite get_any_module.
  destruct (PyDict.get _ m) as [[[t|e]|]|]; simpl; try reflexivity.
  now rewrite fmap_insert.
Qed.

Lemma execute_action_at_any depth imp name input : forall ts,
  _execute_action_at_b depth (any_importer imp) (any_tool <$> ts) name input
  = (any_tool <$> (ToolAgent._execute_action_at depth imp ts name input).1,
     any_outcome id (ToolAgent._execute_action_at depth imp ts name input).2).
Proof.
  induction depth as [|depth IH]; intros ts; simpl; rewrite lookup_fmap;
    destruct (ts !! name) as [t|] eqn:E; simpl.
  - destruct (tool_execute t input); reflexivity.
  - rewrite load_any. destruct (ToolAgent.load_tool imp ts name) as [ts' []]; reflexivity.
  - destruct (tool_execute t input); reflexivity.
  - rewrite load_any. destruct (ToolAgent.load_tool imp ts name) as [ts' []]; simpl;
      [apply IH|reflexivity].
Qed.

Lemma instantiate_first_any m :
  instantiate_first_tool_b (any_module m)
  = any_outcome (fmap any_tool) (ToolCollection.instantiate_first_tool m).
Proof.
  induction m as [|[k a] m IH]; simpl; [reflexivity|].
  destruct (PyStr.endswith "Tool" k); [|exact IH].
  destruct a as [[t|e]|]; simpl; [reflexivity|reflexivity|exact IH].
Qed.

Lemma scan_directories_any imp name directories :
  scan_directories_b (any_importer imp) name directories
  = any_outcome (fmap any_tool) (ToolCollection.scan_directories imp name directories).
Proof.
  induction directories as [|d rest IH]; simpl; [reflexivity|].
  unfold any_importer at 1. destruct (imp _) as [m|e]; simpl.
  - rewrite instantiate_first_any.
    destruct (ToolCollection.instantiate_first_tool m) as [[t|]|e]; simpl;
      [reflexivity|exact IH|].
    destruct (is_import_error e); [exact IH|reflexivity].
  - destruct (is_import_error e); [exact IH|reflexivity].
Qed.

Lemma discover_any imp name :
  discover_b (any_importer imp) name
  = any_outcome (fmap any_tool) (ToolCollection.discover imp name).
Proof.
  unfold discover_b, ToolCollection.discover. rewrite scan_directories_any.
  destruct (ToolCollection.scan_directories imp name _) as [[t|]|e]; simpl;
    try reflexivity.
  unfold any_importer. destruct (imp _) as [m|e]; simpl; [|reflexivity].
  apply instantiate_first_any.
Qed.

Lemma register_any c t :
  register_tool_b (any_collection c) (any_tool t)
  = any_collection (ToolCollection.register_tool c t).
Proof.
  unfold register_tool_b, any_collection, ToolCollection.register_tool. simpl.
  now rewrite fmap_insert.
Qed.

Lemma get_tool_any imp c name :
  get_tool_b (any_importer imp) (any_collection c) name
  = (any_collection (ToolCollection.get_tool imp c name).1,
     any_outcome (fmap any_tool) (ToolCollection.get_tool imp c name).2).
Proof.
  unfold get_tool_b, ToolCollection.get_tool. simpl. rewrite !lookup_fmap.
  destruct (ToolCollection.tools c !! name) as [t|]; simpl; [reflexivity|].
  destruct (ToolCollection.tool_classes c !! name) as [[t|e]|]; simpl;
    [now rewrite register_any|reflexivity|].
  rewrite discover_any.
  destruct (ToolCollection.discover imp name) as [[t|]|e]; simpl;
    [now rewrite register_any|reflexivity|reflexivity].
Qed.

Lemma execute_tool_any imp c name input :
  execute_tool_b (any_importer imp) (any_collection c) name input
  = (any_collection (ToolCollection.execute_tool imp c name input).1,
     any_outcome id (ToolCollection.execute_tool imp c name input).2).
Proof.
  unfold execute_tool_b, ToolCollection.execute_tool. rewrite get_tool_any.
  destruct (ToolCollection.get_tool imp c name) as [c' [[t|]|e]]; simpl;
    try reflexivity.
  f_equal. destruct (tool_validate_input t) as [check|]; simpl.
  - destruct (check input) as [[]|e]; simpl; try reflexivity.
    destruct (tool_execute t input); reflexivity.
  - destruct (tool_execute t input); reflexivity.
Qed.

Lemma execute_tool_returns imp c name input :
  returns (ToolCollection.execute_tool imp c name input).2.
Proof.
  unfold ToolCollection.execute_tool.
  pose proof (ToolBoundaryProps.get_tool_returns imp c name) as [found Hfound].
  destruct (ToolCollection.get_tool imp c name) as [c' o]. simpl in *. subst o.
  simpl. destruct found as [t|]; [|eexists; reflexivity].
  destruct (tool_validate_input t) as [v|]; simpl.
  - destruct (v input) as [[]|e]; simpl; try (eexists; reflexivity).
    destruct (tool_execute t input); simpl; eexists; reflexivity.
  - destruct (tool_execute t input); simpl; eexists; reflexivity.
Qed.

(** C8: a tool invocation through [ToolAgent._execute_action] or through
    [ToolCollection.execute_tool] never lets an instance of [Exception]
    reach the caller, and returns when the tools, their classes and
    their modules raise nothing but instances of [Exception].  When the
    [execute] of the tool that is run (already loaded, loaded on demand,
    or found by the collection and accepting the input) raises an
    instance of [Exception], the value returned is the error dictionary
    built from it, and so it is when [validate_input] raises one; when
    the name is unknown and cannot be loaded, the value returned is the
    error dictionary for an unknown tool.  An exception outside
    [Exception] raised by [execute] or by [validate_input] is not
    caught: the call raises it. *)
Theorem tool_failures_become_error_results
    (imp : importer_b) (ts : tools_b) (c : collection_b)
    (name : string) (input : pydict pyval) :
  let observed := (_execute_action_b imp ts name input).2 in
  let collected := (execute_tool_b imp c name input).2 in
  (forall e, observed <> RaiseB (IsException e))
  /\ (forall e, collected <> RaiseB (IsException e))
  /\ (forall imp0 ts0, imp = any_importer imp0 -> ts = any_tool <$> ts0 ->
        exists v, observed = RetB v)
  /\ (forall imp0 c0, imp = any_importer imp0 -> c = any_collection c0 ->
        exists v, collected = RetB v)
  /\ (forall t e, agent_runs imp ts name t ->
        b_execute t input = RaiseB (IsException e) ->
        observed = RetB (tool_error name e))
  /\ (ts !! name = None -> load_tool_b imp ts name = (ts, RetB false) ->
        observed = RetB (error_result ("Unknown action or tool: " +:+ name)))
  /\ (forall t e, (get_tool_b imp c name).2 = RetB (Some t) -> accepts t input ->
        b_execute t input = RaiseB (IsException e) ->
        collected = RetB (tool_error name e))
  /\ (forall t check e, (get_tool_b imp c name).2 = RetB (Some t) ->
        b_validate_input t = Some check -> check input = RaiseB (IsException e) ->
        collected = RetB (tool_error name e))
  /\ ((get_tool_b imp c name).2 = RetB None ->
        collected = RetB (error_result ("Tool not found: " +:+ name)))
  /\ (forall t cls, agent_runs imp ts name t ->
        b_execute t input = RaiseB (NotException cls) ->
        observed = RaiseB (NotException cls))
  /\ (forall t cls, (get_tool_b imp c name).2 = RetB (Some t) -> accepts t input ->
        b_execute t input = RaiseB (NotException cls) ->
        collected = RaiseB (NotException cls))
  /\ (forall t check cls, (get_tool_b imp c name).2 = RetB (Some t) ->
        b_validate_input t = Some check -> check input = RaiseB (NotException cls) ->
        collected = RaiseB (NotException cls)).
Proof.
  cbv zeta. unfold _execute_action_b.
  change ToolAgent.recursion_limit with (S (Nat.pred ToolAgent.recursion_limit)).
  generalize (Nat.pred ToolAgent.recursion_limit). intros depth.
  split; [|split; [|split; [|split; [|split; [|split; [|split; [|split; [|split;
    [|split; [|split]]]]]]]]]].
  - intros e. apply execute_action_at_b_guarded.
  - intros e. apply execute_tool_b_guarded.
  - intros imp0 ts0 -> ->. rewrite execute_action_at_any. cbn [snd].
    destruct (ToolBoundaryProps.execute_action_at_returns depth imp0 ts0 name input)
      as [v Hv].
    rewrite Hv. simpl. eauto.
  - intros imp0 c0 -> ->. rewrite execute_tool_any. cbn [snd].
    destruct (execute_tool_returns imp0 c0 name input) as [v Hv].
    rewrite Hv. simpl. eauto.
  - intros t e Hruns Hraise. rewrite (agent_runs_guarded depth imp ts name input t Hruns).
    now rewrite Hraise.
  - intros Hnot Hload. simpl. now rewrite Hnot, Hload.
  - intros t e Hget Hacc Hraise.
    rewrite (execute_tool_b_accepted imp c name input t Hget Hacc). now rewrite Hraise.
  - intros t check e Hget Hval Hraise.
    rewrite (execute_tool_b_found imp c name input _ Hget). simpl.
    rewrite Hval. simpl. now rewrite Hraise.
  - intros Hget. now rewrite (execute_tool_b_found imp c name input _ Hget).
  - intros t cls Hruns Hraise.
    rewrite (agent_runs_guarded depth imp ts name input t Hruns). now rewrite Hraise.
  - intros t cls Hget Hacc Hraise.
    rewrite (execute_tool_b_accepted imp c name input t Hget Hacc). now rewrite Hraise.
  - intros t check cls Hget Hval Hraise.
    rewrite (execute_tool_b_found imp c name input _ Hget). simpl.
    rewrite Hval. simpl. now rewrite Hraise.
Qed.

(** A tool whose [execute] calls [sys.exit()], in an agent's table and
    in a collection: [SystemExit] reaches the caller of
    [_execute_action] and of [execute_tool]. *)
Definition exiting_tool : tool_b :=
  ToolB "quit" (fun _ => RaiseB (NotException "SystemExit")) None.

Definition no_modules_b : importer_b :=
  fun _ => RaiseB (IsException (Exn true "No module named")).

(** The claim as first stated fails: the exception raised during the
    execution of [exiting_tool] is not converted into an error
    dictionary, it propagates from both boundaries. *)
Lemma system_exit_reaches_the_caller :
  (_execute_action_b no_modules_b {[ "quit" := exiting_tool ]} "quit" []).2
  = RaiseB (NotException "SystemExit")
  /\ (execute_tool_b no_modules_b (CollectionB {[ "quit" := exiting_tool ]} ∅) "quit" []).2
     = RaiseB (NotException "SystemExit").
Proof. split; vm_compute; reflexivity. Qed.

End EscapeProps.

(* ===================================================================== *)
(** ** The complexity gate *)
(* ===================================================================== *)

Module HybridProps.
Import HybridAgent.





(** A hybrid agent with the default configuration and a calculator. *)
Definition default_hybrid : hybrid :=
  Hybrid (ToolAgentObj 1 {[ "calculator" := ReactAgentProps.calculator_stub ]})
         "auto" 7.0%float [].

Definition long_task : string :=
  "Design a full stack application with a database and authentication, then deploy it and test everything".

(** The one-word task [calculate] scores 2.6 and [long_task] scores 10:
    the first run returns the single-agent dictionary, the second the
    dictionary of the four roles. *)
Example single_run_shape :
  exists h r,
    execute ReactAgentProps.no_modules (fun _ => "") default_hybrid "calculate" None
    = Ret (h, SingleResult r).
Proof. vm_compute. eauto. Qed.

Example multi_run_shape :
  exists h answer results,
    execute ReactAgentProps.no_modules (fun _ => "") default_hybrid long_task None
    = Ret (h, MultiResult long_task answer results)
    /\ map fst results = ["researcher"; "planner"; "executor"; "critic"].
Proof. vm_compute. eauto 10. Qed.

End HybridProps.

(* ===================================================================== *)
(** ** The short-term store *)
(* ===================================================================== *)

Module ShortTermProps.
Import ShortTermMemory.

(** The three tables hold the same identifiers. *)
Definition same_keys (s : stm) : Prop :=
  dom (access_times s) = dom (items s) /\ dom (creation_times s) = dom (items s).

(** Every stored item has an entry in the queue. *)
Definition covered (s : stm) : Prop :=
  forall identifier, is_Some (items s !! identifier) ->
    exists t, In (t, identifier) (lru_queue s).

(** The store holds at most [capacity] items. *)
Definition bounded (s : stm) : Prop := Z.of_nat (size (items s)) <= capacity s.

Lemma live_spec s i : live s i = true <-> is_Some (items s !! i).
Proof. unfold live. apply bool_decide_eq_true. Qed.

Lemma delete_items i s : items (delete i s).1 = base.delete i (items s).
Proof.
  unfold delete. destruct (live s i) eqn:E; simpl; [reflexivity|].
  symmetry. apply delete_id. destruct (items s !! i) eqn:E'; [|reflexivity].
  assert (live s i = true) by (apply live_spec; eauto). congruence.
Qed.

Lemma delete_config i s :
  capacity (delete i s).1 = capacity s /\ ttl (delete i s).1 = ttl s.
Proof. unfold delete. destruct (live s i); simpl; auto. Qed.

Lemma delete_same_keys i s : same_keys s -> same_keys (delete i s).1.
Proof.
  intros [Ha Hc]. unfold delete. destruct (live s i); simpl; [|split; assumption].
  split; simpl; rewrite !dom_delete_L; congruence.
Qed.

Lemma delete_times i s :
  same_keys s ->
  creation_times (delete i s).1 = base.delete i (creation_times s)
  /\ access_times (delete i s).1 = base.delete i (access_times s).
Proof.
  intros [Ha Hc]. unfold delete. destruct (live s i) eqn:E; simpl; [auto|].
  assert (Hn : i ∉ dom (items s)).
  { rewrite elem_of_dom. intros Hs. apply live_spec in Hs. congruence. }
  split; symmetry; apply delete_id; apply not_elem_of_dom; congruence.
Qed.

Lemma delete_queue_subset i s e :
  In e (lru_queue (delete i s).1) -> In e (lru_queue s).
Proof.
  unfold delete. destruct (live s i); simpl; [|auto].
  rewrite filter_In. tauto.
Qed.

Lemma delete_covered i s : covered s -> covered (delete i s).1.
Proof.
  intros Hc j Hj. rewrite delete_items in Hj.
  unfold delete. destruct (live s i) eqn:E; simpl.
  - assert (Hj' : is_Some (items s !! j)).
    { destruct (decide (i = j)) as [->|Hne].
      - rewrite lookup_delete_eq in Hj. destruct Hj; discriminate.
      - now rewrite lookup_delete_ne in Hj. }
    destruct (Hc j Hj') as [t Ht]. exists t. apply filter_In. split; [assumption|].
    simpl. now apply bool_decide_eq_true.
  - apply Hc. rewrite delete_id in Hj; [assumption|].
    destruct (items s !! i) eqn:E'; [|reflexivity].
    assert (live s i = true) by (apply live_spec; eauto). congruence.
Qed.

Lemma delete_size i s : (size (items (delete i s).1) <= size (items s))%nat.
Proof.
  rewrite delete_items. destruct (items s !! i) eqn:E.
  - rewrite map_size_delete_Some; eauto. lia. 
  - rewrite delete_id; auto.
Qed.

(** The loop of [_prune_expired] over a list of identifiers. *)
Definition delete_all (l : list string) (s : stm) : stm :=
  fold_left (fun s i => (delete i s).1) l s.

Ltac cons_crush :=
  match goal with
  | H : ?x ∉ ?x :: _ |- _ => apply H, list_elem_of_here
  | H : ?x ∉ _ :: ?l, H' : ?x ∈ ?l |- _ => apply H, list_elem_of_further, H'
  | H : _ ∈ _ :: _ |- _ => apply elem_of_cons in H as [?|?]; contradiction
  end.

Lemma delete_all_spec l : forall s, same_keys s ->
  same_keys (delete_all l s)
  /\ capacity (delete_all l s) = capacity s /\ ttl (delete_all l s) = ttl s
  /\ (forall i, items (delete_all l s) !! i = if decide (i ∈ l) then None else items s !! i)
  /\ (forall i, creation_times (delete_all l s) !! i
                = if decide (i ∈ l) then None else creation_times s !! i)
  /\ (covered s -> covered (delete_all l s))
  /\ (size (items (delete_all l s)) <= size (items s))%nat
  /\ (forall e, In e (lru_queue (delete_all l s)) -> In e (lru_queue s)).
Proof.
  induction l as [|a l IH]; intros s Hk.
  - simpl. split; [assumption|]. repeat split; auto; try lia.
  - simpl. pose proof (delete_same_keys a s Hk) as Hk1.
    destruct (IH _ Hk1) as (Hk' & Hcap & Httl & Hit & Hct & Hcov & Hsz & Hq).
    destruct (delete_config a s) as [Hc1 Ht1].
    destruct (delete_times a s Hk) as [Hct1 _].
    split; [assumption|]. split; [congruence|]. split; [congruence|].
    split; [|split; [|split; [|split]]].
    + intros i. rewrite Hit, delete_items.
      destruct (decide (i = a)) as [->|Hne];
        [rewrite lookup_delete_eq|rewrite lookup_delete_ne by congruence];
        repeat case_decide; try reflexivity; exfalso; cons_crush.
    + intros i. rewrite Hct, Hct1.
      destruct (decide (i = a)) as [->|Hne];
        [rewrite lookup_delete_eq|rewrite lookup_delete_ne by congruence];
        repeat case_decide; try reflexivity; exfalso; cons_crush.
    + intros Hc. apply Hcov. now apply delete_covered.
    + pose proof (delete_size a s). lia.
    + intros e He. apply (delete_queue_subset a s). now apply Hq.
Qed.

Lemma elem_of_expired now s i :
  i ∈ expired_identifiers now s
  <-> exists ct, creation_times s !! i = Some ct /\ ttl s < now - ct.
Proof.
  unfold expired_identifiers. rewrite list_elem_of_In, in_map_iff. split.
  - intros [[j ct] [<- Hin]]. apply filter_In in Hin as [Hin Hexp]. simpl in *.
    exists ct. split.
    + apply elem_of_map_to_list. now apply list_elem_of_In.
    + now apply Z.ltb_lt.
  - intros [ct [Hct Hexp]]. exists (i, ct). split; [reflexivity|].
    apply filter_In. split.
    + apply list_elem_of_In. now apply elem_of_map_to_list.
    + simpl. now apply Z.ltb_lt.
Qed.

Lemma entry_eqb_eq (a b : entry) : entry_eqb a b = true <-> a = b.
Proof.
  destruct a as [ta ia], b as [tb ib]. unfold entry_eqb. simpl.
  rewrite andb_true_iff, Z.eqb_eq, String.eqb_eq. split; [intros [-> ->]|intros [= -> ->]]; auto.
Qed.

Lemma least_in e q : In (least e q) (e :: q).
Proof.
  revert e. induction q as [|a q IH]; intros e; simpl; [now left|].
  destruct (IH (if entry_leb e a then e else a)) as [H|H].
  - destruct (entry_leb e a); [left|right; left]; congruence.
  - right; right; exact H.
Qed.

Lemma remove_first_subset e x q : In x (remove_first e q) -> In x q.
Proof.
  induction q as [|a q IH]; simpl; [auto|].
  destruct (entry_eqb e a); [now right|]. intros [->|H]; [now left|right; auto].
Qed.

Lemma in_remove_first e x q : In x q -> x <> e -> In x (remove_first e q).
Proof.
  intros Hin Hne. induction q as [|a q IH]; simpl in *; [contradiction|].
  destruct (entry_eqb e a) eqn:E.
  - apply entry_eqb_eq in E. subst a. destruct Hin as [->|Hin]; [contradiction|assumption].
  - destruct Hin as [->|Hin]; [now left|right; auto].
Qed.

Lemma heappop_some q e q' :
  heappop q = Some (e, q') -> In e q /\ q' = remove_first e q.
Proof.
  destruct q as [|e0 q0]; [discriminate|]. unfold heappop.
  intros [= <- <-]. split; [apply least_in|reflexivity].
Qed.

Lemma heappop_none q : heappop q = None -> q = [].
Proof. destruct q; [reflexivity|discriminate]. Qed.

(** What a run of [_evict_lru] amounts to: either no entry of the queue
    names a stored item and the tables are untouched, or one entry [e]
    that names a stored item was reached, the entries popped before it
    were stale, and the result is the deletion of that item. *)
Definition evict_outcome (s r : stm) : Prop :=
  (items r = items s /\ access_times r = access_times s
   /\ creation_times r = creation_times s
   /\ (forall e, In e (lru_queue s) -> items s !! e.2 = None))
  \/ (exists e q',
        In e (lru_queue s) /\ is_Some (items s !! e.2)
        /\ (forall x, In x q' -> In x (lru_queue s))
        /\ (forall x, In x (lru_queue s) -> is_Some (items s !! x.2) ->
                      x.2 <> e.2 -> In x q')
        /\ r = (delete e.2 (with_queue q' s)).1).

Lemma evict_spec s :
  evict_outcome s (_evict_lru s)
  /\ capacity (_evict_lru s) = capacity s /\ ttl (_evict_lru s) = ttl s.
Proof.
  apply (_evict_lru_elim
    (fun s r => evict_outcome s r /\ capacity r = capacity s /\ ttl r = ttl s)).
  - clear s. intros s e q' Hpop IH _.
    apply heappop_some in Hpop as [Hin ->].
    destruct (live s e.2) eqn:El.
    + split.
      * right. exists e, (remove_first e (lru_queue s)).
        split; [assumption|]. split; [now apply live_spec|].
        split; [intros x; apply remove_first_subset|].
        split; [|reflexivity].
        intros x Hx _ Hne. apply in_remove_first; [assumption|congruence].
      * apply (delete_config e.2 (with_queue _ s)).
    + assert (Hdead : items s !! e.2 = None).
      { destruct (items s !! e.2) eqn:E; [|reflexivity].
        assert (live s e.2 = true) by (apply live_spec; eauto). congruence. }
      destruct IH as [[Hnone|Hone] Hcfg]; split; try exact Hcfg.
      * left. destruct Hnone as (Hi & Ha & Hc & Hq). repeat split; try assumption.
        intros x Hx. destruct (decide (x = e)) as [->|Hne]; [assumption|].
        apply Hq. simpl. now apply in_remove_first.
      * right. destruct Hone as (e1 & q1 & Hin1 & Hl1 & Hsub & Hkeep & Hr).
        simpl in *. exists e1, q1.
        split; [eapply remove_first_subset; eassumption|].
        split; [assumption|].
        split; [intros x Hx; eapply remove_first_subset; eauto|].
        split; [|exact Hr].
        intros x Hx Hlx Hne. apply Hkeep; try assumption.
        apply in_remove_first; [assumption|].
        intros ->. rewrite Hdead in Hlx. destruct Hlx; discriminate.
  - clear s. intros s Hpop _. split; [|auto].
    left. repeat split; try reflexivity.
    apply heappop_none in Hpop. intros e He. rewrite Hpop in He. contradiction.
Qed.

Lemma size_delete_live (m : gmap string (pydict pyval)) i :
  is_Some (m !! i) -> S (size (base.delete i m)) = size m.
Proof.
  intros Hi. rewrite (map_size_delete_Some _ _ Hi).
  assert (size m <> 0%nat); [|lia].
  intros Hz. apply map_size_empty_inv in Hz. rewrite Hz, lookup_empty in Hi.
  destruct Hi; discriminate.
Qed.

Lemma evict_subset s : items (_evict_lru s) ⊆ items s.
Proof.
  destruct (evict_spec s) as [[(-> & _)|(e & q' & _ & _ & _ & _ & ->)] _].
  - reflexivity.
  - rewrite delete_items. apply delete_subseteq.
Qed.

Lemma evict_at_most_one s :
  (size (items s) <= S (size (items (_evict_lru s))))%nat.
Proof.
  destruct (evict_spec s) as [[(-> & _)|(e & q' & _ & Hv & _ & _ & ->)] _].
  - lia.
  - rewrite delete_items. change (items (with_queue q' s)) with (items s).
    pose proof (size_delete_live _ _ Hv). lia.
Qed.

Lemma evict_same_keys s : same_keys s -> same_keys (_evict_lru s).
Proof.
  intros Hk.
  destruct (evict_spec s) as [[(Hi & Ha & Hc & _)|(e & q' & _ & _ & _ & _ & ->)] _].
  - destruct Hk. split; congruence.
  - now apply delete_same_keys.
Qed.

Lemma evict_covered s : covered s -> covered (_evict_lru s).
Proof.
  intros Hc.
  destruct (evict_spec s) as [[(Hi & _ & _ & Hq)|(e & q' & _ & _ & _ & Hkeep & ->)] _].
  - intros i Hi'. rewrite Hi in Hi'. destruct (Hc i Hi') as [t Ht].
    apply Hq in Ht. simpl in Ht. rewrite Ht in Hi'. destruct Hi'; discriminate.
  - intros i Hi. rewrite delete_items in Hi. simpl in Hi.
    assert (Hne : i <> e.2).
    { intros ->. rewrite lookup_delete_eq in Hi. destruct Hi; discriminate. }
    rewrite lookup_delete_ne in Hi by congruence.
    destruct (Hc i Hi) as [t Ht]. exists t.
    assert (Hl : live (with_queue q' s) e.2 = true \/ live (with_queue q' s) e.2 = false)
      by (destruct (live _ _); auto).
    unfold delete. destruct Hl as [-> | ->]; simpl.
    + apply filter_In. split; [apply Hkeep; simpl; auto|].
      simpl. apply bool_decide_eq_true. now rewrite lookup_delete_ne by congruence.
    + apply Hkeep; simpl; auto.
Qed.

(** On a store whose stored items all have an entry in the queue, a
    non-empty store loses exactly one item. *)
Lemma evict_exactly_one s i :
  covered s -> is_Some (items s !! i) ->
  S (size (items (_evict_lru s))) = size (items s).
Proof.
  intros Hc Hi.
  destruct (evict_spec s) as [[(_ & _ & _ & Hq)|(e & q' & _ & Hv & _ & _ & ->)] _].
  - destruct (Hc i Hi) as [t Ht]. apply Hq in Ht. simpl in Ht.
    rewrite Ht in Hi. destruct Hi; discriminate.
  - rewrite delete_items. change (items (with_queue q' s)) with (items s).
    apply (size_delete_live _ _ Hv).
Qed.

Lemma dom_insert_live {V} (m : gmap string V) i v :
  i ∈ dom m -> dom (<[i := v]> m) = dom m.
Proof.
  intros Hi. rewrite dom_insert_L. apply subseteq_union_1_L.
  now apply singleton_subseteq_l.
Qed.

(** Stale entries are passed over: as soon as some entry of the queue
    names a stored item, one stored item is evicted. *)
Lemma evict_past_stale_entries s e :
  In e (lru_queue s) -> is_Some (items s !! e.2) ->
  S (size (items (_evict_lru s))) = size (items s).
Proof.
  intros He Hlive.
  destruct (evict_spec s) as [[(_ & _ & _ & Hq)|(e1 & q' & _ & Hv & _ & _ & ->)] _].
  - rewrite (Hq e He) in Hlive. destruct Hlive; discriminate.
  - rewrite delete_items. change (items (with_queue q' s)) with (items s).
    apply (size_delete_live _ _ Hv).
Qed.

(** The invariant of the store. *)
Definition inv (s : stm) : Prop := same_keys s /\ covered s /\ bounded s.

Lemma prune_is_delete_all now s :
  _prune_expired now s = delete_all (expired_identifiers now s) s.
Proof. reflexivity. Qed.

Lemma prune_inv now s : inv s -> inv (_prune_expired now s).
Proof.
  intros (Hk & Hc & Hb). rewrite prune_is_delete_all.
  destruct (delete_all_spec (expired_identifiers now s) s Hk)
    as (Hk' & Hcap & _ & _ & _ & Hcov & Hsz & _).
  split; [assumption|]. split; [auto|]. unfold bounded in *. rewrite Hcap. lia.
Qed.

Lemma insert_item_inv tp tn i it s :
  inv s ->
  let s2 := insert_item tp tn i it s in
  same_keys s2 /\ covered s2 /\ Z.of_nat (size (items s2)) <= capacity s2 + 1
  /\ is_Some (items s2 !! i).
Proof.
  intros Hinv. apply (prune_inv tp) in Hinv as ([Ha Hc] & Hcov & Hb).
  unfold insert_item. simpl. repeat split; simpl.
  - rewrite !dom_insert_L. congruence.
  - rewrite !dom_insert_L. congruence.
  - intros j Hj. simpl in Hj |- *. destruct (decide (i = j)) as [->|Hne].
    + exists tn. now left.
    + rewrite lookup_insert_ne in Hj by assumption.
      destruct (Hcov j Hj) as [t Ht]. exists t. now right.
  - unfold bounded in Hb.
    pose proof (map_size_insert i it (items (_prune_expired tp s))) as Hs.
    destruct (items (_prune_expired tp s) !! i); simpl in Hs; unfold id in Hs; lia.
  - rewrite lookup_insert_eq. eauto.
Qed.

Lemma add_inv tp tn i it s : inv s -> inv (add tp tn i it s).1.
Proof.
  intros Hinv. destruct (insert_item_inv tp tn i it s Hinv) as (Hk & Hc & Hb & Hi).
  unfold add. simpl.
  destruct (capacity _ <? _) eqn:E.
  - apply Z.ltb_lt in E. split; [now apply evict_same_keys|].
    split; [now apply evict_covered|].
    unfold bounded. destruct (evict_spec (insert_item tp tn i it s)) as (_ & -> & _).
    pose proof (evict_exactly_one _ i Hc Hi). lia.
  - apply Z.ltb_ge in E. repeat split; try assumption; apply Hk.
Qed.

Lemma get_inv tp tn i s : inv s -> inv (get tp tn i s).1.
Proof.
  intros Hinv. apply (prune_inv tp) in Hinv as ([Ha Hc] & Hcov & Hb).
  unfold get. destruct (items _ !! i) eqn:E; simpl; [|repeat split; assumption].
  repeat split; simpl; try assumption.
  rewrite dom_insert_live; [assumption|]. rewrite Ha. now apply elem_of_dom_2 in E.
Qed.

Lemma update_inv tp tn i it s : inv s -> inv (update tp tn i it s).1.
Proof.
  intros Hinv. apply (prune_inv tp) in Hinv as ([Ha Hc] & Hcov & Hb).
  unfold update. destruct (live _ i) eqn:E; simpl; [|repeat split; assumption].
  apply live_spec in E. pose proof E as E'. apply elem_of_dom in E'.
  repeat split; simpl.
  - rewrite !dom_insert_L, Ha. reflexivity.
  - rewrite dom_insert_live; assumption.
  - intros j Hj. simpl in Hj |- *. apply Hcov.
    destruct (decide (i = j)) as [->|Hne]; [assumption|].
    now rewrite lookup_insert_ne in Hj.
  - unfold bounded in *. simpl.
    rewrite (map_size_insert_Some _ _ _ E). assumption.
Qed.

Lemma delete_inv i s : inv s -> inv (delete i s).1.
Proof.
  intros (Hk & Hc & Hb). split; [now apply delete_same_keys|].
  split; [now apply delete_covered|].
  unfold bounded. destruct (delete_config i s) as [-> _].
  pose proof (delete_size i s). unfold bounded in Hb. lia.
Qed.

Lemma prune_config now s :
  same_keys s ->
  capacity (_prune_expired now s) = capacity s /\ ttl (_prune_expired now s) = ttl s.
Proof.
  intros Hk. rewrite prune_is_delete_all.
  destruct (delete_all_spec (expired_identifiers now s) s Hk) as (_ & -> & -> & _).
  auto.
Qed.

Lemma run_call_config c s :
  same_keys s ->
  capacity (run_call s c) = capacity s /\ ttl (run_call s c) = ttl s.
Proof.
  intros Hk. destruct c as [tp tn i it|tp tn i|tp tn i it|i|]; simpl.
  - unfold add. simpl.
    destruct (_ <? _);
      [destruct (evict_spec (insert_item tp tn i it s)) as (_ & -> & ->)|];
      simpl; now apply prune_config.
  - unfold get. destruct (_ !! i); simpl; now apply prune_config.
  - unfold update. destruct (live _ i); simpl; now apply prune_config.
  - apply delete_config.
  - auto.
Qed.

Lemma clear_inv s : 0 <= capacity s -> inv (clear s).
Proof.
  intros Hcap. repeat split; simpl; try reflexivity.
  - intros i Hi. simpl in Hi. rewrite lookup_empty in Hi. destruct Hi; discriminate.
  - unfold bounded. simpl. rewrite map_size_empty. assumption.
Qed.

Lemma run_call_inv c s : 0 <= capacity s -> inv s -> inv (run_call s c).
Proof.
  intros Hcap Hinv. destruct c; simpl.
  - now apply add_inv.
  - now apply get_inv.
  - now apply update_inv.
  - now apply delete_inv.
  - now apply clear_inv.
Qed.

Lemma run_calls_inv cs : forall s, 0 <= capacity s -> inv s -> inv (run_calls s cs).
Proof.
  induction cs as [|c cs IH]; intros s Hcap Hinv; [assumption|].
  simpl. apply IH.
  - destruct (run_call_config c s) as [-> _]; [apply Hinv|assumption].
  - now apply run_call_inv.
Qed.

Lemma run_calls_config cs : forall s, 0 <= capacity s -> inv s ->
  capacity (run_calls s cs) = capacity s /\ ttl (run_calls s cs) = ttl s.
Proof.
  induction cs as [|c cs IH]; intros s Hcap Hinv; [auto|].
  simpl. destruct (run_call_config c s) as [Hc Ht]; [apply Hinv|].
  destruct (IH (run_call s c)) as [-> ->]; [lia|now apply run_call_inv|auto].
Qed.

Lemma init_inv cap t : 0 <= cap -> inv (init cap t).
Proof.
  intros Hcap. repeat split; simpl; try reflexivity.
  - intros i Hi. simpl in Hi. rewrite lookup_empty in Hi. destruct Hi; discriminate.
  - unfold bounded. simpl. rewrite map_size_empty. assumption.
Qed.

(** C2: on a store of capacity [cap >= 0], after every sequence of calls
    (adds, and reads, updates, deletions and clears as well) the number
    of stored items is at most [cap]; an [add] whose insertion brings
    the store above its capacity removes exactly one stored item and
    brings none back; and on any store, whatever stale entries its
    queue holds, [_evict_lru] adds no item and removes at most one, and
    it does remove one as soon as some entry of the queue names a
    stored item. *)
Theorem capacity_never_exceeded (cap t : Z) (calls : list call) :
  0 <= cap ->
  let s := run_calls (init cap t) calls in
  Z.of_nat (size (items s)) <= cap
  /\ (forall tp tn i it,
        let s2 := insert_item tp tn i it s in
        cap < Z.of_nat (size (items s2)) ->
        S (size (items (add tp tn i it s).1)) = size (items s2)
        /\ items (add tp tn i it s).1 ⊆ items s2)
  /\ (forall s' : stm,
        items (_evict_lru s') ⊆ items s'
        /\ (size (items s') <= S (size (items (_evict_lru s'))))%nat
        /\ ((exists e, In e (lru_queue s') /\ is_Some (items s' !! e.2)) ->
            S (size (items (_evict_lru s'))) = size (items s'))).
Proof.
  intros Hcap s.
  pose proof (run_calls_inv calls (init cap t) Hcap (init_inv cap t Hcap)) as Hinv.
  destruct (run_calls_config calls (init cap t) Hcap (init_inv cap t Hcap)) as [Hc _].
  fold s in Hinv, Hc. simpl in Hc.
  split; [|split].
  - destruct Hinv as (_ & _ & Hb). unfold bounded in Hb. lia.
  - intros tp tn i it s2 Hover.
    destruct (insert_item_inv tp tn i it s Hinv) as (Hk2 & Hc2 & _ & Hi2).
    fold s2 in Hk2, Hc2, Hi2.
    assert (Hcap2 : capacity s2 = cap).
    { unfold s2, insert_item. simpl.
      destruct (prune_config tp s) as [-> _]; [apply Hinv|assumption]. }
    assert (Hadd : (add tp tn i it s).1 = _evict_lru s2).
    { change ((add tp tn i it s).1)
        with (if capacity s2 <? Z.of_nat (size (items s2)) then _evict_lru s2 else s2).
      rewrite Hcap2.
      now replace (cap <? Z.of_nat (size (items s2))) with true
        by (symmetry; now apply Z.ltb_lt). }
    rewrite Hadd.
    split; [now apply (evict_exactly_one s2 i)|apply evict_subset].
  - intros s'. split; [apply evict_subset|]. split; [apply evict_at_most_one|].
    intros (e & He & Hlive). now apply (evict_past_stale_entries s' e).
Qed.

Lemma prune_same_keys now s : same_keys s -> same_keys (_prune_expired now s).
Proof.
  intros Hk. rewrite prune_is_delete_all.
  now destruct (delete_all_spec (expired_identifiers now s) s Hk) as (Hk' & _).
Qed.

(** What [_prune_expired] leaves: an entry stays exactly when its age at
    the clock reading does not exceed [ttl]. *)
Lemma prune_lookup now s i :
  same_keys s ->
  items (_prune_expired now s) !! i
  = match creation_times s !! i with
    | Some ct => if ttl s <? now - ct then None else items s !! i
    | None => items s !! i
    end
  /\ creation_times (_prune_expired now s) !! i
     = match creation_times s !! i with
       | Some ct => if ttl s <? now - ct then None else Some ct
       | None => None
       end.
Proof.
  intros Hk. rewrite prune_is_delete_all.
  destruct (delete_all_spec (expired_identifiers now s) s Hk)
    as (_ & _ & _ & Hit & Hct & _).
  rewrite Hit, Hct.
  destruct (creation_times s !! i) as [ct|] eqn:E.
  - destruct (ttl s <? now - ct) eqn:Ex.
    + rewrite !decide_True; [auto| |];
        apply elem_of_expired; exists ct; split; auto; now apply Z.ltb_lt.
    + rewrite !decide_False; [auto| |];
        rewrite elem_of_expired; intros (ct' & Hct' & Hlt);
        assert (ct' = ct) by congruence; subst; apply Z.ltb_ge in Ex; lia.
  - rewrite !decide_False; [auto| |];
      rewrite elem_of_expired; intros (ct' & Hct' & _); congruence.
Qed.

Lemma prune_idempotent now s :
  same_keys s -> _prune_expired now (_prune_expired now s) = _prune_expired now s.
Proof.
  intros Hk.
  assert (Hnil : expired_identifiers now (_prune_expired now s) = []).
  { apply elem_of_nil_inv. intros i. rewrite elem_of_expired.
    intros (ct & Hct & Hlt).
    destruct (prune_config now s Hk) as [_ Httl]. rewrite Httl in Hlt.
    destruct (prune_lookup now s i Hk) as [_ Hc]. rewrite Hct in Hc.
    destruct (creation_times s !! i) as [ct0|]; [|discriminate].
    destruct (ttl s <? now - ct0) eqn:Ex; [discriminate|].
    injection Hc as ->. apply Z.ltb_ge in Ex. lia. }
  unfold _prune_expired at 1. now rewrite Hnil.
Qed.

Lemma get_unfold tp tn i s :
  (get tp tn i s).2 = items (_prune_expired tp s) !! i
  /\ items (get tp tn i s).1 = items (_prune_expired tp s)
  /\ creation_times (get tp tn i s).1 = creation_times (_prune_expired tp s)
  /\ ttl (get tp tn i s).1 = ttl (_prune_expired tp s).
Proof. unfold get. destruct (_ !! i); simpl; auto. Qed.

Lemma get_same_keys tp tn i s : same_keys s -> same_keys (get tp tn i s).1.
Proof.
  intros Hk. apply (prune_same_keys tp) in Hk as [Ha Hc].
  unfold get. destruct (_ !! i) eqn:E; simpl; [|split; assumption].
  split; simpl; [|assumption].
  rewrite dom_insert_live; [assumption|]. rewrite Ha. now apply elem_of_dom_2 in E.
Qed.

(** A run of [get] calls, each with its two clock readings and the
    identifier it asks for. *)
Definition read_calls (rs : list (Z * Z * string)) : list call :=
  map (fun r => CGet r.1.1 r.1.2 r.2) rs.

Lemma reads_keep i it t0 rs : forall s,
  same_keys s -> items s !! i = Some it -> creation_times s !! i = Some t0 ->
  Forall (fun r : Z * Z * string => r.1.1 <= t0 + ttl s) rs ->
  same_keys (run_calls s (read_calls rs))
  /\ items (run_calls s (read_calls rs)) !! i = Some it
  /\ creation_times (run_calls s (read_calls rs)) !! i = Some t0
  /\ ttl (run_calls s (read_calls rs)) = ttl s.
Proof.
  induction rs as [|[[tp tn] j] rs IH]; intros s Hk Hi Hc Hrs; [simpl; auto|].
  inversion Hrs as [|? ? Hr Hrs']; subst. simpl in Hr.
  simpl. destruct (get_unfold tp tn j s) as (_ & Hgi & Hgc & Hgt).
  destruct (prune_lookup tp s i Hk) as [Hpi Hpc].
  destruct (prune_config tp s Hk) as [_ Hpt].
  rewrite Hc in Hpi, Hpc.
  replace (ttl s <? tp - t0) with false in Hpi, Hpc by (symmetry; apply Z.ltb_ge; lia).
  destruct (IH (get tp tn j s).1) as (Hk' & Hi' & Hc' & Ht').
  - now apply get_same_keys.
  - rewrite Hgi, Hpi. assumption.
  - rewrite Hgc. assumption.
  - rewrite Hgt, Hpt. assumption.
  - rewrite Hgt, Hpt in Ht'. auto.
Qed.

Lemma reads_never_extend i t0 rs : forall s,
  same_keys s ->
  (forall ct, creation_times s !! i = Some ct -> ct = t0) ->
  same_keys (run_calls s (read_calls rs))
  /\ (forall ct, creation_times (run_calls s (read_calls rs)) !! i = Some ct -> ct = t0)
  /\ ttl (run_calls s (read_calls rs)) = ttl s.
Proof.
  induction rs as [|[[tp tn] j] rs IH]; intros s Hk Hc; [simpl; auto|].
  simpl. destruct (get_unfold tp tn j s) as (_ & Hgi & Hgc & Hgt).
  destruct (prune_lookup tp s i Hk) as [_ Hpc].
  destruct (prune_config tp s Hk) as [_ Hpt].
  destruct (IH (get tp tn j s).1) as (Hk' & Hc' & Ht').
  - now apply get_same_keys.
  - intros ct. rewrite Hgc, Hpc.
    destruct (creation_times s !! i) as [ct0|]; [|discriminate].
    destruct (ttl s <? tp - ct0); [discriminate|]. intros [= <-]. now apply Hc.
  - rewrite Hgt, Hpt in Ht'. auto.
Qed.

Lemma same_keys_lookup s i :
  same_keys s -> creation_times s !! i = None -> items s !! i = None.
Proof.
  intros [_ Hc] Hn. apply not_elem_of_dom. rewrite <- Hc. now apply not_elem_of_dom.
Qed.

(** A read at clock reading [t] of an item created at [t0]. *)
Lemma get_by_age tp tn i it t0 s :
  same_keys s -> items s !! i = Some it -> creation_times s !! i = Some t0 ->
  (get tp tn i s).2 = if ttl s <? tp - t0 then None else Some it.
Proof.
  intros Hk Hi Hc. destruct (get_unfold tp tn i s) as (-> & _).
  destruct (prune_lookup tp s i Hk) as [-> _]. rewrite Hc, Hi. reflexivity.
Qed.

Lemma insert_item_same_keys tp tn i it s :
  same_keys s -> same_keys (insert_item tp tn i it s).
Proof.
  intros Hk. apply (prune_same_keys tp) in Hk as [Ha Hc].
  unfold insert_item. split; simpl; rewrite !dom_insert_L; congruence.
Qed.

(** An item that survives its own insertion is stored with the clock
    reading of the insertion as its creation time. *)
Lemma add_stores tp tn i it s :
  same_keys s ->
  is_Some (items (add tp tn i it s).1 !! i) ->
  same_keys (add tp tn i it s).1
  /\ items (add tp tn i it s).1 !! i = Some it
  /\ creation_times (add tp tn i it s).1 !! i = Some tn
  /\ ttl (add tp tn i it s).1 = ttl s.
Proof.
  intros Hk.
  pose proof (insert_item_same_keys tp tn i it s Hk) as Hk2.
  assert (Hi2 : items (insert_item tp tn i it s) !! i = Some it)
    by (simpl; apply lookup_insert_eq).
  assert (Hc2 : creation_times (insert_item tp tn i it s) !! i = Some tn)
    by (simpl; apply lookup_insert_eq).
  assert (Ht2 : ttl (insert_item tp tn i it s) = ttl s)
    by (simpl; apply (prune_config tp s Hk)).
  change ((add tp tn i it s).1)
    with (if capacity (insert_item tp tn i it s)
             <? Z.of_nat (size (items (insert_item tp tn i it s)))
          then _evict_lru (insert_item tp tn i it s)
          else insert_item tp tn i it s).
  destruct (_ <? _); [|auto].
  intros Hlive.
  destruct (evict_spec (insert_item tp tn i it s))
    as [[(Hi & Ha & Hc & _)|(e & q' & _ & _ & _ & _ & Hr)] (_ & Ht)].
  - split; [now apply evict_same_keys|]. rewrite Hi, Hc, Ht. auto.
  - split; [now apply evict_same_keys|]. rewrite Ht.
    rewrite Hr in Hlive |- *. rewrite delete_items in Hlive |- *.
    destruct (delete_times e.2 (with_queue q' (insert_item tp tn i it s)) Hk2) as [-> _].
    assert (Hne : e.2 <> i).
    { intros <-. rewrite lookup_delete_eq in Hlive. destruct Hlive; discriminate. }
    rewrite !lookup_delete_ne by assumption. auto.
Qed.

(** [add], [get] and [update] start by pruning: run on a store or on the
    store already pruned at the same clock reading, they do the same. *)
Lemma pruning_operations tp tn i it s :
  same_keys s ->
  get tp tn i s = get tp tn i (_prune_expired tp s)
  /\ add tp tn i it s = add tp tn i it (_prune_expired tp s)
  /\ update tp tn i it s = update tp tn i it (_prune_expired tp s).
Proof.
  intros Hk. pose proof (prune_idempotent tp s Hk) as Hid.
  unfold get, add, insert_item, update. rewrite !Hid. auto.
Qed.

(** C3 (as amended): an item added at clock reading [t0] and not
    evicted by its own insertion is returned by [get] at every reading
    [t <= t0 + ttl] (the readings of the reads in between being within
    that bound as well) and is absent at every [t > t0 + ttl], however
    often and however late it was read in between: the age is measured
    from creation.  The pruning pass opens [add], [get] and [update]:
    each does on a store what it does on the store already pruned at
    its first clock reading. *)
Theorem ttl_measured_from_creation
    (s : stm) (tp t0 : Z) (i : string) (it : pydict pyval)
    (rs : list (Z * Z * string)) (t tn : Z) :
  same_keys s ->
  let s1 := (add tp t0 i it s).1 in
  is_Some (items s1 !! i) ->
  let s2 := run_calls s1 (read_calls rs) in
  (Forall (fun r : Z * Z * string => r.1.1 <= t0 + ttl s) rs ->
   t <= t0 + ttl s -> (get t tn i s2).2 = Some it)
  /\ (t0 + ttl s < t -> (get t tn i s2).2 = None)
  /\ (forall (s' : stm) tp' tn' j it', same_keys s' ->
        get tp' tn' j s' = get tp' tn' j (_prune_expired tp' s')
        /\ add tp' tn' j it' s' = add tp' tn' j it' (_prune_expired tp' s')
        /\ update tp' tn' j it' s' = update tp' tn' j it' (_prune_expired tp' s')).
Proof.
  intros Hk s1 Hlive s2.
  destruct (add_stores tp t0 i it s Hk Hlive) as (Hk1 & Hi1 & Hc1 & Ht1).
  fold s1 in Hk1, Hi1, Hc1, Ht1.
  split; [|split].
  - intros Hrs Ht.
    destruct (reads_keep i it t0 rs s1 Hk1 Hi1 Hc1) as (Hk2 & Hi2 & Hc2 & Ht2).
    { now rewrite Ht1. }
    fold s2 in Hk2, Hi2, Hc2, Ht2.
    rewrite (get_by_age t tn i it t0 s2 Hk2 Hi2 Hc2), Ht2, Ht1.
    now replace (ttl s <? t - t0) with false by (symmetry; apply Z.ltb_ge; lia).
  - intros Ht.
    destruct (reads_never_extend i t0 rs s1 Hk1) as (Hk2 & Hc2 & Ht2).
    { intros ct. rewrite Hc1. congruence. }
    fold s2 in Hk2, Hc2, Ht2.
    destruct (get_unfold t tn i s2) as (-> & _).
    destruct (prune_lookup t s2 i Hk2) as [-> _].
    destruct (creation_times s2 !! i) as [ct|] eqn:E.
    + rewrite (Hc2 ct eq_refl), Ht2, Ht1.
      now replace (ttl s <? t - t0) with true by (symmetry; apply Z.ltb_lt; lia).
    + now apply same_keys_lookup.
  - intros s' tp' tn' j it' Hk'. now apply pruning_operations.
Qed.

(** C3 (counterexample to the claim as stated): [delete] does not start
    by pruning.  On a store with [ttl = 5] holding an item created at
    reading 0, a deletion issued at reading 100 still finds the item and
    returns [True], where it returns [False] on the pruned store; and
    [get_stats] still counts the item. *)
Lemma delete_skips_expiry :
  let s := (add 0 0 "a" [("name", PStr "a")] (init 10 5)).1 in
  (ttl s <? 100 - 0) = true
  /\ (delete "a" s).2 = true
  /\ (delete "a" (_prune_expired 100 s)).2 = false
  /\ current_size s = 1%nat
  /\ current_size (_prune_expired 100 s) = 0%nat.
Proof. vm_compute. auto. Qed.


(** An item that only has a name. *)
Definition named (n : string) : pydict pyval := [("name", PStr n)].

Definition three_adds : list call :=
  [CAdd 1 1 "A" (named "A"); CAdd 2 2 "B" (named "B"); CAdd 3 3 "C" (named "C")].

Lemma capacity_never_exceeded_witness :
  Z.of_nat (size (items (run_calls (init 2 3600) three_adds))) <= 2.
Proof.
  pose proof (capacity_never_exceeded 2 3600 three_adds) as H.
  destruct H as [H _]; [lia|]. exact H.
Defined.

Lemma ttl_measured_from_creation_witness :
  (get 5 5 "a" (run_calls (add 0 0 "a" (named "a") (init 10 5)).1
                          (read_calls [(3, 3, "a")]))).2 = Some (named "a")
  /\ (get 6 6 "a" (run_calls (add 0 0 "a" (named "a") (init 10 5)).1
                             (read_calls [(5, 5, "a")]))).2 = None.
Proof.
  assert (Hk : same_keys (init 10 5)) by (split; reflexivity).
  assert (Hlive : is_Some (items (add 0 0 "a" (named "a") (init 10 5)).1 !! "a"))
    by (vm_compute; eauto).
  split.
  - pose proof (ttl_measured_from_creation (init 10 5) 0 0 "a" (named "a")
                  [(3, 3, "a")] 5 5 Hk Hlive) as (H & _).
    apply H; [repeat constructor; simpl; lia|simpl; lia].
  - pose proof (ttl_measured_from_creation (init 10 5) 0 0 "a" (named "a")
                  [(5, 5, "a")] 6 6 Hk Hlive) as (_ & H & _).
    apply H. simpl. lia.
Defined.

(** The calls of the scenario: A, B and C are inserted, A is read, D is
    inserted. *)
Definition lru_scenario : list call :=
  [CAdd 1 1 "A" (named "A"); CAdd 2 2 "B" (named "B"); CAdd 3 3 "C" (named "C");
   CGet 4 4 "A"; CAdd 5 5 "D" (named "D")].

(** C4 (failing input): with capacity 3, after inserting A, B, C, reading
    A and inserting D, the store holds B, C and D: the item evicted is
    A.  The read did refresh [access_times], but eviction follows the
    queue, which still holds A under its insertion time. *)
Theorem read_item_is_evicted_first :
  let before := run_calls (init 3 3600) (firstn 4 lru_scenario) in
  let after := run_calls (init 3 3600) lru_scenario in
  access_times before !! "A" = Some 4
  /\ lru_queue before = [(3, "C"); (2, "B"); (1, "A")]
  /\ items after !! "A" = None
  /\ items after !! "B" = Some (named "B")
  /\ items after !! "C" = Some (named "C")
  /\ items after !! "D" = Some (named "D").
Proof. vm_compute. repeat split. Qed.

(** In general a read leaves the queue as the pruning pass left it. *)
Lemma get_leaves_queue tp tn i s :
  lru_queue (get tp tn i s).1 = lru_queue (_prune_expired tp s).
Proof. unfold get. now destruct (_ !! i). Qed.

End ShortTermProps.

(* ===================================================================== *)
(** ** The long-term store *)
(* ===================================================================== *)

Module LongTermProps.
Import LongTermMemory.

Lemma mem_set {V} k k' (v : V) d :
  PyDict.mem k d = true -> PyDict.mem k (PyDict.set k' v d) = true.
Proof.
  unfold PyDict.mem. destruct (String.eqb_spec k k') as [->|Hne].
  - now rewrite PyDict.get_set_eq.
  - now rewrite PyDict.get_set_ne.
Qed.

(** Without the clean-up, taking an identifier out of a bucket never
    takes the bucket out of the table. *)
Lemma bucket_remove_keeps_keys k key identifier table :
  PyDict.mem k table = true ->
  PyDict.mem k (bucket_remove false key identifier table) = true.
Proof.
  intros Hk. unfold bucket_remove.
  destruct (PyDict.get key table) as [bucket|]; [|assumption].
  destruct (list_mem identifier bucket); [|assumption].
  destruct (list_remove identifier bucket); now apply mem_set.
Qed.

Lemma bucket_append_keeps_keys k key identifier table :
  PyDict.mem k table = true ->
  PyDict.mem k (bucket_append key identifier table) = true.
Proof. intros Hk. unfold bucket_append. now apply mem_set. Qed.

(** [update] never removes a bucket from either index table, emptied or
    not. *)
Lemma bind_ret_inv {A B} (m : outcome A) (k : A -> outcome B) b :
  m ≫= k = Ret b -> exists a, m = Ret a /\ k a = Ret b.
Proof. destruct m as [a|e]; [eauto|discriminate]. Qed.

Lemma update_keeps_every_bucket t1 t2 identifier it s s' b k :
  update t1 t2 identifier it s = Ret (s', b) ->
  (PyDict.mem k (project_index s) = true -> PyDict.mem k (project_index s') = true)
  /\ (PyDict.mem k (category_index s) = true -> PyDict.mem k (category_index s') = true).
Proof.
  unfold update. destruct (get identifier s) as [existing|]; [|intros [= <- <-]; auto].
  intros H. apply bind_ret_inv in H as (meta & _ & H). revert H.
  change (index_in_memory (_save_item identifier (PyDict.set "_meta" (PDict meta) it) s))
    with (index_in_memory s).
  destruct (index_in_memory s); [|intros [= <- <-]; auto].
  intros H.
  apply bind_ret_inv in H as (old_project & _ & H).
  apply bind_ret_inv in H as (old_category & _ & H).
  apply bind_ret_inv in H as (new_project & _ & H).
  apply bind_ret_inv in H as (new_category & _ & H).
  revert H.
  destruct (negb (String.eqb new_project old_project));
    destruct (negb (String.eqb new_category old_category));
    intros [= <- <-]; simpl; split; intros Hk; try assumption;
    now apply bucket_append_keeps_keys, bucket_remove_keeps_keys.
Qed.

(** A store with one item, filed under project [p1]. *)
Definition empty_store : ltm := LTM true 1000 [] [] [] [].
Definition one_item_store : ltm :=
  match add 10 "a" [("name", PStr "n"); ("project", PStr "p1")] empty_store with
  | Ret (s, _) => s
  | Raise _ => empty_store
  end.

(** C9 (failing input): the only item of project [p1] is updated to
    project [p2].  The call keeps [created_at], sets [updated_at] to the
    clock reading and appends the identifier to the bucket of [p2], but
    the bucket of [p1], now empty, stays in the project index; the
    sibling [_remove_from_indexes] drops a bucket it empties.
    [update_keeps_every_bucket] shows that no call of [update] removes
    a bucket. *)
Theorem update_leaves_empty_bucket :
  project_index one_item_store = [("p1", ["a"])]
  /\ (exists s',
        update 20 21 "a" [("name", PStr "m"); ("project", PStr "p2")] one_item_store
        = Ret (s', true)
        /\ project_index s' = [("p1", []); ("p2", ["a"])]
        /\ (it ← default (Ret []) (Ret <$> PyDict.get "a" (index s'));
            meta_get "created_at" PNone it) = Ret (PInt 10)
        /\ (it ← default (Ret []) (Ret <$> PyDict.get "a" (index s'));
            meta_get "updated_at" PNone it) = Ret (PInt 20)
        /\ (it ← default (Ret []) (Ret <$> PyDict.get "a" (index s'));
            meta_get "project" PNone it) = Ret (PStr "p2"))
  /\ (exists s'',
        _remove_from_indexes "a" one_item_store = Ret s''
        /\ project_index s'' = []).
Proof.
  split; [reflexivity|]. split; eexists; vm_compute; repeat split.
Qed.

Lemma filter_filter {A} (f g : A -> bool) l :
  List.filter g (List.filter f l) = List.filter (fun x => f x && g x) l.
Proof.
  induction l as [|a l IH]; simpl; [reflexivity|].
  destruct (f a); simpl; [|assumption]. destruct (g a); simpl; now rewrite IH.
Qed.

(** C10: whatever the store, the query and the limit, and whether the
    search returns or raises, the caller's query dictionary comes back
    from [search] without its [project] and [category] entries, and
    with every other entry as it was, in the same order. *)
Theorem search_pops_project_and_category
    (json_dumps : pyval -> string) (s : ltm) (query : pydict pyval) (limit : Z) :
  let query' := (search json_dumps s query limit).1 in
  PyDict.get "project" query' = None
  /\ PyDict.get "category" query' = None
  /\ (forall k, k <> "project" -> k <> "category" ->
        PyDict.get k query' = PyDict.get k query)
  /\ PyDict.keys query'
     = List.filter (fun k => negb (String.eqb "project" k) && negb (String.eqb "category" k))
                   (PyDict.keys query).
Proof.
  cbv zeta. unfold search. simpl. repeat split.
  - rewrite PyDict.get_del_ne by discriminate. apply PyDict.get_del_eq.
  - apply PyDict.get_del_eq.
  - intros k Hp Hc. now rewrite !PyDict.get_del_ne.
  - rewrite !PyDict.keys_del. apply filter_filter.
Qed.

(** A query with both filter keys and one field. *)
Example search_leaves_other_keys :
  (search (fun _ => "") one_item_store
     [("project", PStr "p1"); ("name", PStr "n"); ("category", PStr "general")] 10).1
  = [("name", PStr "n")].
Proof. reflexivity. Qed.

End LongTermProps.

(* ===================================================================== *)
(** ** More on the agent loop *)
(* ===================================================================== *)

Module LoopProps.
Import ReactAgent ReactAgentProps.

Section AnyAgent.
Context {St : Type} `{Agent St}.
Variable N : Z.

(** What one round adds to the context. *)
Lemma iteration_shape st cur ctx st' ctx' :
  iteration st cur ctx = (st', Ret ctx') ->
  task ctx' = task ctx
  /\ thoughts ctx' = (thoughts ctx ++ [_generate_thought cur ctx])%list
  /\ length (actions ctx') = S (length (actions ctx))
  /\ length (observations ctx') = S (length (observations ctx)).
Proof.
  unfold iteration. destruct (_decide_action _ _) as [n i].
  destruct (_execute_action st n i) as [st1 [o|e]]; simpl; intros [= <- <-]; simpl.
  rewrite !length_app. simpl. repeat split; lia.
Qed.

(** The thoughts of [n] rounds, from round [cur] on. *)
Definition thoughts_of (task : string) (cur : Z) (n : nat) : list string :=
  map (fun k => _generate_thought (cur + Z.of_nat k) (Context task [] [] [])) (seq 0 n).

Lemma thoughts_of_S task cur n :
  thoughts_of task cur (S n)
  = _generate_thought cur (Context task [] [] []) :: thoughts_of task (cur + 1) n.
Proof.
  unfold thoughts_of. simpl. rewrite Z.add_0_r. f_equal.
  rewrite <- seq_shift, map_map. apply map_ext. intros k.
  f_equal. lia.
Qed.

(** Started below the cap, a loop that returns has run up to the cap. *)
Lemma loop_runs_to_the_cap st cur ctx st' cur' ctx' :
  cur < N ->
  react_loop N st cur ctx = Ret (st', cur', ctx') ->
  cur' = N - 1
  /\ task ctx' = task ctx
  /\ thoughts ctx' = (thoughts ctx ++ thoughts_of (task ctx) cur (Z.to_nat (N - cur)))%list
  /\ length (actions ctx') = (length (actions ctx) + Z.to_nat (N - cur))%nat
  /\ length (observations ctx') = (length (observations ctx) + Z.to_nat (N - cur))%nat.
Proof.
  revert st' cur' ctx'.
  apply (react_loop_elim N
    (fun st cur ctx r => forall st' cur' ctx', cur < N -> r = Ret (st', cur', ctx') ->
      cur' = N - 1
      /\ task ctx' = task ctx
      /\ thoughts ctx' = (thoughts ctx ++ thoughts_of (task ctx) cur (Z.to_nat (N - cur)))%list
      /\ length (actions ctx') = (length (actions ctx) + Z.to_nat (N - cur))%nat
      /\ length (observations ctx') = (length (observations ctx) + Z.to_nat (N - cur))%nat));
    clear st cur ctx.
  - intros; lia.
  - intros; discriminate.
  - intros st cur l ctx st1 ctx1 Hterm Hit _ st' cur' ctx' _ [= <- <- <-].
    apply should_terminate_now in Hterm.
    apply iteration_shape in Hit as (Ht & Hth & Ha & Ho).
    assert (Hn : Z.to_nat (N - cur) = 1%nat) by lia.
    rewrite Hn, Hth. unfold thoughts_of. simpl. rewrite Z.add_0_r.
    repeat split; try lia; try assumption.
  - intros st cur l ctx st1 ctx1 IH Hterm Hit _ st' cur' ctx' _ Hr.
    apply should_continue in Hterm.
    apply iteration_shape in Hit as (Ht & Hth & Ha & Ho).
    apply IH in Hr as (Hc & Ht' & Hth' & Ha' & Ho'); [|lia].
    assert (Hn : Z.to_nat (N - cur) = S (Z.to_nat (N - (cur + 1)))) by lia.
    rewrite Hn, thoughts_of_S. rewrite Hth', Hth, Ht, <- app_assoc. simpl.
    repeat split; try lia; try congruence.
Qed.

(** X1: for every agent (every pair of [_decide_action] and
    [_execute_action]) and every cap of at least one, a run of
    [ReactAgent.execute] that returns has gone through the loop body
    exactly [max_iterations] times: [_should_terminate] never stops it
    earlier.  The result reports [iterations = max_iterations], the
    context holds one thought, one action and one observation per round,
    the thoughts are those of rounds [0 .. max_iterations - 1] in order,
    and the answer is the generic completion message. *)
Theorem run_fills_the_cap py_str st text st' r :
  1 <= N ->
  execute py_str N st text = Ret (st', r) ->
  iterations r = N
  /\ r_task r = text
  /\ answer r = generic_answer
  /\ task (r_context r) = text
  /\ thoughts (r_context r) = thoughts_of text 0 (Z.to_nat N)
  /\ length (actions (r_context r)) = Z.to_nat N
  /\ length (observations (r_context r)) = Z.to_nat N.
Proof.
  intros HN. unfold execute.
  destruct (react_loop N st 0 (Context text [] [] [])) as [[[st1 cur1] ctx1]|e] eqn:E;
    [|discriminate].
  simpl. intros [= <- <-]. simpl.
  apply loop_runs_to_the_cap in E as (-> & Ht & Hth & Ha & Ho); [|lia].
  simpl in *. rewrite Z.sub_0_r in *. rewrite final_answer_generic.
  repeat split; try assumption; lia.
Qed.
End AnyAgent.

Lemma run_fills_the_cap_witness :
  exists r,
    execute (H := react_agent) (fun _ => "x") 2 tt "t" = Ret (tt, r)
    /\ iterations r = 2
    /\ thoughts (r_context r)
       = ["Thinking about how to t (iteration 0)"; "Thinking about how to t (iteration 1)"]
    /\ length (observations (r_context r)) = 2%nat.
Proof.
  destruct (execute (H := react_agent) (fun _ => "x") 2 tt "t") as [[[] r]|e] eqn:E;
    [|vm_compute in E; discriminate].
  exists r. split; [reflexivity|].
  pose proof (run_fills_the_cap (H := react_agent) 2 (fun _ => "x") tt "t" tt r) as H.
  destruct H as (Hi & _ & _ & _ & Hth & _ & Ho); [lia|exact E|].
  split; [exact Hi|]. split; [exact Hth|exact Ho].
Defined.

End LoopProps.

(* ===================================================================== *)
(** ** More on tool runs *)
(* ===================================================================== *)

Module ToolRunProps.
Import ReactAgent ToolAgent ReactAgentProps.

(** An observation in the shape both tool boundaries promise: a
    dictionary with a [status] entry. *)
Definition has_status (v : pyval) : Prop := is_dict_with "status" v = true.

Lemma wrap_result_status v : has_status (wrap_result v).
Proof.
  unfold has_status, wrap_result.
  destruct (is_dict_with "status" v) eqn:E; [assumption|reflexivity].
Qed.

Lemma error_result_status msg : has_status (error_result msg).
Proof. reflexivity. Qed.

(** Running a loaded tool inside the [try] block gives such a
    dictionary, whatever the tool does. *)
Lemma guarded_run_status (t : tool) name input :
  exists o,
    try_except
      (result ← tool_execute t input; mret (wrap_result result))
      (fun e => mret (error_result ("Error executing tool " +:+ name +:+ ": "
                                      +:+ exn_str e)))
    = Ret o /\ has_status o.
Proof.
  destruct (tool_execute t input) as [v|e]; simpl; eexists; (split; [reflexivity|]).
  - apply wrap_result_status.
  - apply error_result_status.
Qed.

(** One call of [_execute_action]: it returns a dictionary with a
    [status]; it leaves the table alone when the tool is loaded, and
    otherwise changes it at most at the requested name. *)
Lemma execute_action_effect imp ts name input :
  exists ts' o,
    _execute_action imp ts name input = (ts', Ret o)
    /\ has_status o
    /\ (is_Some (ts !! name) -> ts' = ts)
    /\ (forall n, n <> name -> ts' !! n = ts !! n)
    /\ ts ⊆ ts'.
Proof.
  unfold _execute_action.
  change recursion_limit with (S (Nat.pred recursion_limit)).
  generalize (Nat.pred recursion_limit). intros depth.
  cbn [_execute_action_at].
  destruct (ts !! name) as [t|] eqn:E.
  - destruct (guarded_run_status t name input) as (o & -> & Ho).
    exists ts, o. split; [reflexivity|]. split; [assumption|]. auto.
  - destruct (ToolBoundaryProps.load_tool_cases imp ts name) as [[t ->]| ->].
    + assert (Hrun : _execute_action_at depth imp (<[name := t]> ts) name input
                     = (<[name := t]> ts,
                        try_except
                          (result ← tool_execute t input; mret (wrap_result result))
                          (fun e => mret (error_result
                             ("Error executing tool " +:+ name +:+ ": " +:+ exn_str e))))).
      { destruct depth; cbn [_execute_action_at]; now rewrite lookup_insert_eq. }
      rewrite Hrun.
      destruct (guarded_run_status t name input) as (o & -> & Ho).
      exists (<[name := t]> ts), o. split; [reflexivity|]. split; [assumption|].
      split; [|split].
      * intros [x Hx]; discriminate.
      * intros n Hn. now rewrite lookup_insert_ne.
      * now apply insert_subseteq.
    + exists ts, (error_result ("Unknown action or tool: " +:+ name)).
      split; [reflexivity|]. split; [apply error_result_status|]. auto.
Qed.

Lemma first_some_some {A B} (f : A -> option B) l b :
  first_some f l = Some b -> exists a, In a l /\ f a = Some b.
Proof.
  induction l as [|a l IH]; simpl; [discriminate|].
  destruct (f a) as [b'|] eqn:E.
  - intros [= <-]. exists a. auto.
  - intros H. destruct (IH H) as (a' & Hin & Ha'). exists a'. auto.
Qed.

(** The tools a rule block of [_decide_action] can name. *)
Definition routed_tools : list string :=
  ["calculator"; "search"; "text"; "code"; "api_endpoint"; "react_component"].

(** A rule block that fired: its pattern matched and its tool is loaded. *)
Ltac rule_fires :=
  match goal with
  | H : match Re.search ?f ?p ?t with _ => _ end = Some _ |- _ =>
      destruct (Re.search f p t); [|discriminate H]
  end;
  match goal with
  | H : (if loaded ?n ?ts then _ else _) = Some _ |- _ =>
      destruct (loaded n ts) eqn:?; [|discriminate H];
      injection H as <- <-; split; [unfold routed_tools; simpl; tauto|assumption]
  end.

(** A rule block that fires names one of the six routed tools, and that
    tool is loaded. *)
Lemma rule_target rule ts text n i :
  In rule rules -> rule ts text = Some (n, i) ->
  In n routed_tools /\ loaded n ts = true.
Proof.
  unfold rules. simpl. intros [<-|[<-|[<-|[<-|[<-|[<-|[]]]]]]] Hr.
  - unfold calculator_rule in Hr. rule_fires.
  - apply first_some_some in Hr as (p & _ & Hr). rule_fires.
  - apply first_some_some in Hr as ([p o] & _ & Hr). rule_fires.
  - apply first_some_some in Hr as (p & _ & Hr). rule_fires.
  - apply first_some_some in Hr as (p & _ & Hr). rule_fires.
  - apply first_some_some in Hr as (p & _ & Hr). rule_fires.
Qed.

(** The route is the fallback or names a loaded routed tool. *)
Lemma route_cases ts text :
  route ts text = dummy_action (PyStr.lower text)
  \/ (In (route ts text).1 routed_tools /\ loaded (route ts text).1 ts = true).
Proof.
  unfold route, route_lowered.
  destruct (first_some _ rules) as [[n i]|] eqn:E; simpl; [right|left; reflexivity].
  apply first_some_some in E as (rule & Hin & Hr). eapply rule_target; eassumption.
Qed.

(** X2: [_decide_action] never names a tool that is not loaded.  The
    action it returns is either the fallback [dummy_action], carrying
    the lower-cased task text, or one of the six routed tools
    ([calculator], [search], [text], [code], [api_endpoint],
    [react_component]), and then that tool is in the agent's table. *)
Theorem route_names_only_loaded_tools (ts : tools) (text : string) :
  route ts text
  = ("dummy_action",
     [("query", PStr ("Placeholder action for " +:+ PyStr.lower text))])
  \/ (In (route ts text).1 routed_tools /\ is_Some (ts !! (route ts text).1)).
Proof.
  destruct (route_cases ts text) as [Hd|[Hin Hl]].
  - left. exact Hd.
  - right. split; [assumption|].
    unfold loaded in Hl. now apply bool_decide_eq_true in Hl.
Qed.

(** The route looks at the table only to see which of the six routed
    tools are loaded. *)
Lemma route_same_loaded (ts ts' : tools) text :
  (forall n, n <> "dummy_action" -> ts' !! n = ts !! n) ->
  route ts' text = route ts text.
Proof.
  intros Hsame.
  assert (Hl : forall n, n <> "dummy_action" -> loaded n ts' = loaded n ts).
  { intros n Hn. unfold loaded. now rewrite (Hsame n Hn). }
  unfold route, route_lowered, rules. cbn [first_some].
  unfold calculator_rule, search_rule, text_rule, code_rule, api_rule, react_rule.
  rewrite !Hl by discriminate. reflexivity.
Qed.

Section Run.
Variable imp : importer.
Variable N : Z.

(** The two facts a run keeps about its context. *)
Definition all_status (ctx : context) : Prop := Forall has_status (observations ctx).

Definition all_actions (a : action) (ctx : context) : Prop :=
  Forall (fun a' => a' = a) (actions ctx).

(** One round of a [ToolAgent]. *)
Lemma tool_iteration ts cur ctx :
  exists ts' ctx',
    iteration (H := tool_agent imp) ts cur ctx = (ts', Ret ctx')
    /\ task ctx' = task ctx
    /\ (all_status ctx -> all_status ctx')
    /\ (all_actions (route ts (task ctx)) ctx -> all_actions (route ts (task ctx)) ctx')
    /\ (forall n, n <> "dummy_action" -> ts' !! n = ts !! n)
    /\ ts ⊆ ts'.
Proof.
  unfold iteration. simpl. unfold ToolAgent._decide_action. simpl.
  set (text := task ctx).
  destruct (route ts text) as [n i] eqn:Er.
  destruct (execute_action_effect imp ts n i) as (ts' & o & -> & Ho & Hsame & Hother & Hsub).
  simpl. eexists _, _. split; [reflexivity|]. split; [reflexivity|].
  split; [|split; [|split; [|assumption]]].
  - unfold all_status. simpl. intros Hall. apply Forall_app. split; [assumption|].
    now constructor.
  - unfold all_actions. simpl. intros Hall. apply Forall_app. split; [assumption|].
    now constructor.
  - intros m Hm. destruct (route_cases ts text) as [Hd|[_ Hl]]; rewrite Er in *.
    + unfold dummy_action in Hd. injection Hd as -> _. now apply Hother.
    + simpl in Hl. unfold loaded in Hl. apply bool_decide_eq_true in Hl.
      now rewrite (Hsame Hl).
Qed.

(** The loop of a [ToolAgent] returns, from any state. *)
Lemma tool_loop ts cur ctx :
  exists ts' cur' ctx',
    react_loop (H := tool_agent imp) N ts cur ctx = Ret (ts', cur', ctx')
    /\ (all_status ctx -> all_status ctx')
    /\ (all_actions (route ts (task ctx)) ctx -> all_actions (route ts (task ctx)) ctx')
    /\ (forall n, n <> "dummy_action" -> ts' !! n = ts !! n)
    /\ ts ⊆ ts'.
Proof.
  apply (react_loop_elim (H := tool_agent imp) N
    (fun ts cur ctx r => exists ts' cur' ctx',
       r = Ret (ts', cur', ctx')
       /\ (all_status ctx -> all_status ctx')
       /\ (all_actions (route ts (task ctx)) ctx -> all_actions (route ts (task ctx)) ctx')
       /\ (forall n, n <> "dummy_action" -> ts' !! n = ts !! n)
       /\ ts ⊆ ts')); clear ts cur ctx.
  - intros ts cur _ ctx _. exists ts, cur, ctx. repeat split; auto.
  - intros ts cur _ ctx ts1 e Hit _.
    destruct (tool_iteration ts cur ctx) as (? & ? & Hit' & _). congruence.
  - intros ts cur _ ctx ts1 ctx1 _ Hit _.
    destruct (tool_iteration ts cur ctx) as (ts' & ctx' & Hit' & Ht & Hst & Hact & Ho & Hsub).
    rewrite Hit in Hit'. injection Hit' as <- <-.
    exists ts1, cur, ctx1. auto.
  - intros ts cur _ ctx ts1 ctx1 IH _ Hit _.
    destruct (tool_iteration ts cur ctx) as (ts' & ctx' & Hit' & Ht & Hst & Hact & Ho & Hsub).
    rewrite Hit in Hit'. injection Hit' as <- <-.
    destruct IH as (ts2 & cur2 & ctx2 & -> & Hst2 & Hact2 & Ho2 & Hsub2).
    rewrite Ht, (route_same_loaded ts ts1 (task ctx) Ho) in Hact2.
    exists ts2, cur2, ctx2. split; [reflexivity|]. split; [auto|]. split; [auto|]. split.
    + intros n Hn. rewrite Ho2, Ho; auto.
    + etransitivity; eassumption.
Qed.

(** [ToolAgent.execute] returns, with what the loop keeps. *)
Lemma tool_run py_str ts text :
  exists ts' r,
    execute (H := tool_agent imp) py_str N ts text = Ret (ts', r)
    /\ Forall has_status (observations (r_context r))
    /\ answer r = generic_answer
    /\ r_task r = text
    /\ Forall (fun a => a = route ts text) (actions (r_context r))
    /\ (forall n, n <> "dummy_action" -> ts' !! n = ts !! n)
    /\ ts ⊆ ts'.
Proof.
  unfold execute.
  destruct (tool_loop ts 0 (Context text [] [] []))
    as (ts' & cur' & ctx' & -> & Hst & Hact & Ho & Hsub).
  simpl. eexists _, _. split; [reflexivity|]. simpl.
  rewrite final_answer_generic.
  split; [apply Hst; constructor|]. split; [reflexivity|]. split; [reflexivity|].
  split; [apply Hact; constructor|]. auto.
Qed.
End Run.

(** X3: [ToolAgent.execute] returns on every task, for every cap, tool
    table and set of importable modules, whatever the tools do: no
    exception of a tool, of its loading or of its module reaches the
    caller.  Every observation it collects is a dictionary with a
    [status] entry, and the answer is the generic completion message. *)
Theorem tool_agent_run_always_returns
    (imp : importer) (py_str : pyval -> string) (N : Z) (ts : tools) (text : string) :
  exists ts' r,
    execute (H := tool_agent imp) py_str N ts text = Ret (ts', r)
    /\ r_task r = text
    /\ answer r = generic_answer
    /\ Forall (fun o => exists d, o = PDict d /\ PyDict.mem "status" d = true)
              (observations (r_context r)).
Proof.
  destruct (tool_run imp N py_str ts text) as (ts' & r & E & Hst & Ha & Ht & _).
  exists ts', r. repeat split; try assumption.
  eapply Forall_impl; [exact Hst|]. intros o Ho. unfold has_status in Ho.
  destruct o as [| | | | |d]; try discriminate. eauto.
Qed.

(** X4: a run of [ToolAgent.execute] takes the same action in every
    round, the one [_decide_action] picks for the task on the table the
    run starts with: the task text never changes and nothing an
    observation holds is looked at.  The run never replaces a loaded
    tool, and the only name it can load is [dummy_action]. *)
Theorem run_repeats_one_action
    (imp : importer) (py_str : pyval -> string) (N : Z) (ts ts' : tools)
    (text : string) (r : result) :
  execute (H := tool_agent imp) py_str N ts text = Ret (ts', r) ->
  Forall (fun a => a = route ts text) (actions (r_context r))
  /\ ts ⊆ ts'
  /\ (forall n, n <> "dummy_action" -> ts' !! n = ts !! n).
Proof.
  intros E.
  destruct (tool_run imp N py_str ts text) as (ts1 & r1 & E1 & _ & _ & _ & Hact & Ho & Hsub).
  rewrite E in E1. injection E1 as <- <-. auto.
Qed.

Lemma run_repeats_one_action_witness :
  exists ts' r,
    execute (H := tool_agent no_modules) (fun _ => "x") 3
            {[ "calculator" := calculator_stub ]} "Calculate 2+2" = Ret (ts', r)
    /\ Forall (fun a => a = ("calculator", [("expression", PStr "2+2")]))
              (actions (r_context r))
    /\ ts' !! "calculator" = Some calculator_stub.
Proof.
  destruct (execute (H := tool_agent no_modules) (fun _ => "x") 3
              {[ "calculator" := calculator_stub ]} "Calculate 2+2")
    as [[ts' r]|e] eqn:E; [|vm_compute in E; discriminate].
  exists ts', r. split; [reflexivity|].
  pose proof (run_repeats_one_action no_modules (fun _ => "x") 3
                {[ "calculator" := calculator_stub ]} ts' "Calculate 2+2" r E)
    as (Hact & _ & Hsame).
  split.
  - replace (route {[ "calculator" := calculator_stub ]} "Calculate 2+2")
      with ("calculator", [("expression", PStr "2+2")]) in Hact
      by (vm_compute; reflexivity).
    exact Hact.
  - rewrite Hsame by discriminate. reflexivity.
Defined.

End ToolRunProps.

(* ===================================================================== *)
(** ** More on the tool collection *)
(* ===================================================================== *)

Module CollectionProps.
Import ToolCollection.

(** A tool handed out was in the table, or has just been registered. *)
Lemma get_tool_found imp c name c' t :
  get_tool imp c name = (c', Ret (Some t)) ->
  (tools c !! name = Some t /\ c' = c)
  \/ (tools c !! name = None /\ c' = register_tool c t).
Proof.
  unfold get_tool. destruct (tools c !! name) as [t0|] eqn:E.
  - intros [= <- <-]. now left.
  - intros H. right. split; [reflexivity|].
    destruct (tool_classes c !! name) as [[t1|e]|].
    + injection H as <- <-. reflexivity.
    + discriminate.
    + destruct (try_except (discover imp name) _) as [[t1|]|e]; try discriminate.
      injection H as <- <-. reflexivity.
Qed.

(** X5: [get_tool] stores a tool it instantiates under the tool's own
    [name] attribute, not under the name that was asked for.  When the
    two agree (or the tool was in the table already), the next
    [get_tool] for that name is answered from the table, whatever can
    be imported by then.  When they differ, the requested name is still
    missing from the table afterwards, so the next request goes through
    instantiation again. *)
Theorem get_tool_caches_under_the_tool_name imp c name c' t :
  get_tool imp c name = (c', Ret (Some t)) ->
  (tool_name t = name \/ tools c !! name = Some t ->
     forall imp', get_tool imp' c' name = (c', Ret (Some t)))
  /\ (tools c !! name = None -> tool_name t <> name ->
        tools c' !! name = None /\ tools c' !! tool_name t = Some t).
Proof.
  intros Hget. apply get_tool_found in Hget as [[Hin ->]|[Hnot ->]].
  - split.
    + intros _ imp'. unfold get_tool. now rewrite Hin.
    + intros Hnone. congruence.
  - split.
    + intros [Hname|Hin] imp'; [|congruence].
      unfold get_tool, register_tool. simpl. rewrite Hname, lookup_insert_eq.
      reflexivity.
    + intros _ Hne. unfold register_tool. simpl.
      rewrite lookup_insert_ne by assumption. rewrite lookup_insert_eq. auto.
Qed.

(** A collection that knows the class of the calculator under the name
    [calc]. *)
Definition calc_collection : collection :=
  Collection ∅ {[ "calc" := Ret ReactAgentProps.calculator_stub ]}.

Lemma get_tool_caches_under_the_tool_name_witness :
  tools (get_tool ReactAgentProps.no_modules calc_collection "calc").1 !! "calc" = None
  /\ tools (get_tool ReactAgentProps.no_modules calc_collection "calc").1 !! "calculator"
     = Some ReactAgentProps.calculator_stub.
Proof.
  assert (E : get_tool ReactAgentProps.no_modules calc_collection "calc"
              = (register_tool calc_collection ReactAgentProps.calculator_stub,
                 Ret (Some ReactAgentProps.calculator_stub))) by reflexivity.
  pose proof (get_tool_caches_under_the_tool_name _ _ _ _ _ E) as [_ H].
  rewrite E. apply H; [reflexivity|discriminate].
Defined.

(** The tool an agent runs for a name: the loaded one or, when there is
    none, the one [load_tool] has just registered. *)
Definition runs (imp : importer) (ts : gmap string tool) (name : string) (t : tool)
  : Prop :=
  ts !! name = Some t
  \/ (ts !! name = None /\ ToolAgent.load_tool imp ts name = (<[name := t]> ts, true)).

(** The tool has no [validate_input], or it accepts the input. *)
Definition accepted (t : tool) (input : pydict pyval) : Prop :=
  tool_validate_input t = None
  \/ exists check, tool_validate_input t = Some check /\ check input = Ret true.

(** X6: what the two tool boundaries hand back when nothing raises.
    Both [ToolAgent._execute_action] and [ToolCollection.execute_tool]
    always return a dictionary with a [status] entry.  The result of
    the tool that is run (by the agent: the loaded one or the one
    loaded on demand; by the collection: the one [get_tool] hands out,
    when it has no [validate_input] or that returns true) is passed on
    untouched when it is such a dictionary, and wrapped as the [result]
    of a success dictionary otherwise; when [validate_input] returns
    false, [execute_tool] reports invalid input, whatever [execute]
    would do. *)
Theorem tool_boundaries_return_status_dicts
    (imp : importer) (ts : gmap string tool) (c : collection)
    (name : string) (input : pydict pyval) :
  let observed := (ToolAgent._execute_action imp ts name input).2 in
  let collected := (execute_tool imp c name input).2 in
  (exists d, observed = Ret (PDict d) /\ PyDict.mem "status" d = true)
  /\ (exists d, collected = Ret (PDict d) /\ PyDict.mem "status" d = true)
  /\ (forall t v, runs imp ts name t -> tool_execute t input = Ret v ->
        observed = Ret (if is_dict_with "status" v then v else success_result v))
  /\ (forall t v, (get_tool imp c name).2 = Ret (Some t) -> accepted t input ->
        tool_execute t input = Ret v ->
        collected = Ret (if is_dict_with "status" v then v else success_result v))
  /\ (forall t check, (get_tool imp c name).2 = Ret (Some t) ->
        tool_validate_input t = Some check -> check input = Ret false ->
        collected = Ret (error_result ("Invalid input for tool " +:+ name))).
Proof.
  cbv zeta.
  destruct (ToolRunProps.execute_action_effect imp ts name input)
    as (ts' & o & Hobs & Ho & _).
  split; [|split; [|split; [|split]]].
  - rewrite Hobs. simpl. unfold ToolRunProps.has_status in Ho.
    destruct o as [| | | | |d]; try discriminate. eauto.
  - unfold execute_tool.
    pose proof (ToolBoundaryProps.get_tool_returns imp c name) as [found Hfound].
    destruct (get_tool imp c name) as [c' f]. simpl in *. subst f. simpl.
    destruct found as [t|]; [|eexists; split; reflexivity].
    assert (Hrun : exists o,
               try_except
                 (result ← tool_execute t input; mret (ToolAgent.wrap_result result))
                 (fun e => mret (error_result ("Error executing tool " +:+ name +:+ ": "
                                                 +:+ exn_str e)))
               = Ret o /\ ToolRunProps.has_status o)
      by apply ToolRunProps.guarded_run_status.
    destruct (tool_validate_input t) as [check|]; simpl.
    + destruct (check input) as [[]|e]; simpl; try (eexists; split; reflexivity).
      destruct Hrun as (o1 & -> & Ho1). unfold ToolRunProps.has_status in Ho1.
      destruct o1 as [| | | | |d]; try discriminate. eauto.
    + destruct Hrun as (o1 & -> & Ho1). unfold ToolRunProps.has_status in Ho1.
      destruct o1 as [| | | | |d]; try discriminate. eauto.
  - intros t v Hruns Hv. unfold ToolAgent._execute_action.
    change ToolAgent.recursion_limit with (S (Nat.pred ToolAgent.recursion_limit)).
    generalize (Nat.pred ToolAgent.recursion_limit). intros depth.
    cbn [ToolAgent._execute_action_at].
    destruct Hruns as [Hin|[Hnot Hload]].
    + rewrite Hin. simpl. rewrite Hv. reflexivity.
    + rewrite Hnot, Hload. destruct depth; simpl; rewrite lookup_insert_eq; simpl;
        rewrite Hv; reflexivity.
  - intros t v Hget Hacc Hv. unfold execute_tool.
    destruct (get_tool imp c name) as [c' f]. simpl in *. subst f. simpl.
    destruct Hacc as [Hval|(check & Hval & Hcheck)]; rewrite Hval; simpl.
    + rewrite Hv. reflexivity.
    + rewrite Hcheck. simpl. rewrite Hv. reflexivity.
  - intros t check Hget Hval Hcheck. unfold execute_tool.
    destruct (get_tool imp c name) as [c' f]. simpl in *. subst f.
    simpl. rewrite Hval. simpl. rewrite Hcheck. reflexivity.
Qed.

End CollectionProps.

(* ===================================================================== *)
(** ** The specialised agents *)
(* ===================================================================== *)

Module SpecialistProps.
Import HybridAgent ReactAgent.

Section Roles.
Variable imp : importer.
Variable py_str : pyval -> string.

(** A specialised agent is a [ToolAgent]: its run returns, with the
    generic answer. *)
Lemma agent_execute_returns a text :
  exists a' r,
    agent_execute imp py_str a text = Ret (a', r)
    /\ r_task r = text /\ answer r = generic_answer.
Proof.
  unfold agent_execute.
  destruct (ToolRunProps.tool_run imp (a_max_iterations a) py_str (a_tools a) text)
    as (ts' & r & -> & _ & Ha & Ht & _).
  simpl. eexists _, r. auto.
Qed.

Lemma role_execute_returns h role a text :
  PyDict.get role (specialized_agents h) = Some a ->
  exists a' r,
    role_execute imp py_str h role text
    = Ret (Hybrid (self_agent h) (mode h) (complexity_threshold h)
                  (PyDict.set role a' (specialized_agents h)), r)
    /\ r_task r = text /\ answer r = generic_answer.
Proof.
  intros Hget. unfold role_execute. rewrite Hget.
  destruct (agent_execute_returns a text) as (a' & r & -> & Ht & Ha).
  simpl. eexists a', r. auto.
Qed.

(** A [match] against the literal [success] is a test with [String.eqb]. *)
Lemma status_match {T} (s : string) (A B : T) :
  match s with "success" => A | _ => B end = if String.eqb s "success" then A else B.
Proof.
  do 7 (destruct s as [|[[] [] [] [] [] [] [] []] s]; try reflexivity).
  destruct s; reflexivity.
Qed.

(** Closes a case of [direct_path_cases] in which the shortcut is not
    taken. *)
Ltac no_shortcut :=
  solve [eexists _, None; split; [reflexivity|]; split; [reflexivity|];
         split; [now left|discriminate]].

(** The calculator shortcut never raises and leaves the specialists
    alone. *)
Lemma direct_path_cases h text :
  exists h' o,
    direct_path imp py_str h text = (h', Ret o)
    /\ specialized_agents h' = specialized_agents h
    /\ (o = None \/ exists a d, o = Some (DirectResult text a d))
    /\ (PyStr.startswith "calculate" (PyStr.lower text) = false -> h' = h /\ o = None).
Proof.
  unfold direct_path.
  destruct (PyStr.startswith "calculate" (PyStr.lower text));
    [|exists h, None; repeat split; auto].
  destruct (ToolAgent._decide_action _ _) as [n i].
  destruct (_ && _); [|exists h, None; repeat split; auto; discriminate].
  destruct (ToolRunProps.execute_action_effect imp (a_tools (self_agent h)) n i)
    as (ts' & o & -> & Ho & _).
  unfold ToolRunProps.has_status in Ho.
  destruct o as [| | | | |d]; try discriminate. simpl.
  destruct (PyDict.get "result" d) as [v|];
    destruct (PyDict.get "status" d) as [[| | |s| |]|]; simpl; try no_shortcut.
  - rewrite status_match. destruct (String.eqb s "success"); [|no_shortcut].
    eexists _, _. split; [reflexivity|]. split; [reflexivity|].
    split; [right; eauto|discriminate].
  - rewrite status_match. destruct (String.eqb s "success"); no_shortcut.
Qed.

(** The four roles of the pipeline are in the table. *)
Definition has_roles (agents : pydict tool_agent_obj) : Prop :=
  Forall (fun role => is_Some (PyDict.get role agents)) required_roles.

Lemma has_roles_set role a agents :
  has_roles agents -> has_roles (PyDict.set role a agents).
Proof.
  unfold has_roles. intros H. eapply Forall_impl; [exact H|]. simpl. intros r Hr.
  destruct (String.eqb_spec r role) as [->|Hne].
  - rewrite PyDict.get_set_eq. eauto.
  - now rewrite PyDict.get_set_ne.
Qed.

(** Creating the default specialists gives all four roles; a table that
    is not empty is left as it is. *)
Lemma ensure_cases h :
  (specialized_agents h = []
   /\ has_roles (specialized_agents (_ensure_specialized_agents imp h)))
  \/ (specialized_agents h <> [] /\ _ensure_specialized_agents imp h = h).
Proof.
  unfold _ensure_specialized_agents.
  destruct (specialized_agents h) as [|p l] eqn:E.
  - left. split; [reflexivity|]. simpl. unfold has_roles, required_roles.
    repeat constructor; simpl; eauto.
  - right. split; [discriminate|reflexivity].
Qed.

(** One role of the pipeline: its run returns and keeps the roles. *)
Lemma role_step h role text :
  has_roles (specialized_agents h) -> In role required_roles ->
  exists h' r,
    role_execute imp py_str h role text = Ret (h', r)
    /\ has_roles (specialized_agents h')
    /\ r_task r = text /\ answer r = generic_answer.
Proof.
  intros Hroles Hin.
  assert (Hsome : is_Some (PyDict.get role (specialized_agents h))).
  { unfold has_roles in Hroles. rewrite Forall_forall in Hroles.
    apply Hroles. now apply list_elem_of_In. }
  destruct Hsome as [a Ha].
  destruct (role_execute_returns h role a text Ha) as (a' & r & -> & Ht & Hans).
  eexists _, r. split; [reflexivity|]. simpl. split; [|auto].
  now apply has_roles_set.
Qed.

Lemma role_pipeline_returns h text :
  has_roles (specialized_agents h) ->
  exists h' r1 r2 r3 r4,
    role_pipeline imp py_str h text
    = Ret (h', MultiResult text generic_answer
                 [("researcher", r1); ("planner", r2); ("executor", r3); ("critic", r4)])
    /\ r_task r1 = "Analyze and gather information for: " +:+ text
    /\ r_task r2 = "Plan execution strategy for: " +:+ text +:+ nl
                     +:+ "Based on research: " +:+ generic_answer
    /\ r_task r3 = "Execute plan for: " +:+ text +:+ nl
                     +:+ "Following strategy: " +:+ generic_answer
    /\ r_task r4 = "Evaluate results for: " +:+ text +:+ nl
                     +:+ "Analyzing output: " +:+ generic_answer.
Proof.
  intros Hroles. unfold role_pipeline.
  destruct (role_step h "researcher" ("Analyze and gather information for: " +:+ text) Hroles)
    as (h1 & r1 & -> & Hroles1 & Ht1 & Ha1); [unfold required_roles; simpl; tauto|].
  cbn [mbind outcome_bind]. rewrite Ha1.
  destruct (role_step h1 "planner"
              ("Plan execution strategy for: " +:+ text +:+ nl
                 +:+ "Based on research: " +:+ generic_answer) Hroles1)
    as (h2 & r2 & -> & Hroles2 & Ht2 & Ha2); [unfold required_roles; simpl; tauto|].
  cbn [mbind outcome_bind]. rewrite Ha2.
  destruct (role_step h2 "executor"
              ("Execute plan for: " +:+ text +:+ nl
                 +:+ "Following strategy: " +:+ generic_answer) Hroles2)
    as (h3 & r3 & -> & Hroles3 & Ht3 & Ha3); [unfold required_roles; simpl; tauto|].
  cbn [mbind outcome_bind]. rewrite Ha3.
  destruct (role_step h3 "critic"
              ("Evaluate results for: " +:+ text +:+ nl
                 +:+ "Analyzing output: " +:+ generic_answer) Hroles3)
    as (h4 & r4 & -> & Hroles4 & Ht4 & Ha4); [unfold required_roles; simpl; tauto|].
  cbn [mbind outcome_bind].
  exists h4, r1, r2, r3, r4. unfold mret, outcome_ret. auto.
Qed.
End Roles.

(** X7: the multi-agent run of a [HybridAgent] that has no specialised
    agent yet (they are then created), or has all four roles, always
    returns.  The result is either the direct calculator answer or the
    dictionary of the four roles; in the latter the answer is the
    generic completion message, and each role was given its fixed
    prompt, in which the previous role's answer is that same generic
    message. *)
Theorem multi_agent_run_returns
    (imp : importer) (py_str : pyval -> string) (h : hybrid) (text : string) :
  specialized_agents h = []
  \/ Forall (fun role => is_Some (get_specialized_agent h role)) required_roles ->
  exists h' r,
    _execute_multi_agent imp py_str h text = Ret (h', r)
    /\ ((exists a d, r = DirectResult text a d)
        \/ (exists r1 r2 r3 r4,
              r = MultiResult text generic_answer
                    [("researcher", r1); ("planner", r2); ("executor", r3); ("critic", r4)]
              /\ r_task r1 = "Analyze and gather information for: " +:+ text
              /\ r_task r2 = "Plan execution strategy for: " +:+ text +:+ nl
                               +:+ "Based on research: " +:+ generic_answer
              /\ r_task r3 = "Execute plan for: " +:+ text +:+ nl
                               +:+ "Following strategy: " +:+ generic_answer
              /\ r_task r4 = "Evaluate results for: " +:+ text +:+ nl
                               +:+ "Analyzing output: " +:+ generic_answer)).
Proof.
  intros Hh. unfold _execute_multi_agent.
  assert (Hroles : has_roles (specialized_agents (_ensure_specialized_agents imp h))).
  { destruct (ensure_cases imp h) as [[_ Hr]|[Hne ->]]; [assumption|].
    destruct Hh as [Hnil|Hall]; [contradiction|exact Hall]. }
  destruct (direct_path_cases imp py_str (_ensure_specialized_agents imp h) text)
    as (h1 & o & -> & Hspec & Ho & _).
  cbn [mbind outcome_bind].
  destruct Ho as [->|(a & d & ->)].
  - rewrite <- Hspec in Hroles.
    destruct (role_pipeline_returns imp py_str h1 text Hroles)
      as (h' & r1 & r2 & r3 & r4 & -> & Ht).
    eexists _, _. split; [reflexivity|]. right. exists r1, r2, r3, r4. auto.
  - eexists _, _. split; [reflexivity|]. left. eauto.
Qed.

(** X8: registering one specialised agent under a role other than
    [researcher] on a [HybridAgent] that has no researcher switches the
    default agents off: [_ensure_specialized_agents] finds the table
    non-empty and creates nothing, so a multi-agent run can only return
    through the direct calculator answer, and on any task that does not
    start with [calculate] it raises (the [KeyError] of the missing
    role). *)
Theorem custom_role_disables_the_defaults
    (imp : importer) (py_str : pyval -> string) (h : hybrid)
    (role : string) (config : agent_config) (text : string) :
  get_specialized_agent h "researcher" = None ->
  role <> "researcher" ->
  let h' := add_specialized_agent imp h role config in
  is_Some (get_specialized_agent h' role)
  /\ _ensure_specialized_agents imp h' = h'
  /\ (forall h'' r, _execute_multi_agent imp py_str h' text = Ret (h'', r) ->
        exists a d, r = DirectResult text a d)
  /\ (PyStr.startswith "calculate" (PyStr.lower text) = false ->
        exists e, _execute_multi_agent imp py_str h' text = Raise e).
Proof.
  intros Hnone Hrole h'.
  assert (Hne : specialized_agents h' <> []).
  { unfold h', add_specialized_agent. simpl.
    destruct (specialized_agents h) as [|[k v] l]; simpl; [discriminate|].
    destruct (String.eqb role k); discriminate. }
  assert (Hens : _ensure_specialized_agents imp h' = h').
  { destruct (ensure_cases imp h') as [[Hnil _]|[_ He]]; [contradiction|assumption]. }
  assert (Hres : PyDict.get "researcher" (specialized_agents h') = None).
  { unfold h', add_specialized_agent. simpl.
    rewrite PyDict.get_set_ne by congruence. exact Hnone. }
  assert (Hpipe : forall h1, specialized_agents h1 = specialized_agents h' ->
            role_pipeline imp py_str h1 text = Raise (Exn false "researcher")).
  { intros h1 H1. unfold role_pipeline, role_execute. rewrite H1, Hres. reflexivity. }
  split; [|split; [assumption|split]].
  - unfold h', add_specialized_agent, get_specialized_agent. simpl.
    rewrite PyDict.get_set_eq. eauto.
  - intros h'' r. unfold _execute_multi_agent. rewrite Hens.
    destruct (direct_path_cases imp py_str h' text) as (h1 & o & -> & Hspec & Ho & _).
    cbn [mbind outcome_bind]. destruct Ho as [->|(a & d & ->)].
    + rewrite (Hpipe h1 Hspec). discriminate.
    + intros [= <- <-]. eauto.
  - intros Hstart. unfold _execute_multi_agent. rewrite Hens.
    destruct (direct_path_cases imp py_str h' text) as (h1 & o & -> & Hspec & _ & Hno).
    destruct (Hno Hstart) as [-> ->].
    cbn [mbind outcome_bind]. rewrite (Hpipe h' eq_refl). eauto.
Qed.

Lemma multi_agent_run_returns_witness :
  exists h' r,
    _execute_multi_agent ReactAgentProps.no_modules (fun _ => "x")
      HybridProps.default_hybrid "plan the release" = Ret (h', r).
Proof.
  destruct (multi_agent_run_returns ReactAgentProps.no_modules (fun _ => "x")
              HybridProps.default_hybrid "plan the release" (or_introl eq_refl))
    as (h' & r & E & _).
  exists h', r. exact E.
Defined.

Lemma custom_role_disables_the_defaults_witness :
  exists e,
    _execute_multi_agent ReactAgentProps.no_modules (fun _ => "x")
      (add_specialized_agent ReactAgentProps.no_modules HybridProps.default_hybrid
         "reviewer" (AgentConfig None None))
      "plan the release" = Raise e.
Proof.
  pose proof (custom_role_disables_the_defaults ReactAgentProps.no_modules (fun _ => "x")
                HybridProps.default_hybrid "reviewer" (AgentConfig None None)
                "plan the release" eq_refl) as H.
  destruct H as (_ & _ & _ & H); [discriminate|].
  apply H. reflexivity.
Defined.

End SpecialistProps.

(* ===================================================================== *)
(** ** The complexity score *)
(* ===================================================================== *)

Module ScoreProps.
Import HybridAgent.

Lemma isspace_lower c : PyStr.isspace (PyStr.lower_char c) = PyStr.isspace c.
Proof. destruct c as [[] [] [] [] [] [] [] []]; vm_compute; reflexivity. Qed.

Lemma isalnum_lower c : PyStr.isalnum (PyStr.lower_char c) = PyStr.isalnum c.
Proof. destruct c as [[] [] [] [] [] [] [] []]; vm_compute; reflexivity. Qed.

Lemma split_ws_lower l : forall cur,
  length (PyStr.split_ws_aux (map PyStr.lower_char cur) (map PyStr.lower_char l))
  = length (PyStr.split_ws_aux cur l).
Proof.
  induction l as [|c cs IH]; intros cur; simpl.
  - now destruct cur.
  - rewrite isspace_lower. destruct (PyStr.isspace c).
    + destruct cur; simpl; [apply (IH [])|f_equal; apply (IH [])].
    + apply (IH (c :: cur)).
Qed.

Lemma word_count_lower text : word_count (PyStr.lower text) = word_count text.
Proof.
  unfold word_count, PyStr.split_ws, PyStr.lower.
  rewrite !length_map, PyStr.chars_of_chars. apply (split_ws_lower _ []).
Qed.

Lemma special_chars_lower text : special_chars (PyStr.lower text) = special_chars text.
Proof.
  unfold special_chars, PyStr.lower. rewrite PyStr.chars_of_chars.
  induction (PyStr.chars text) as [|c cs IH]; simpl; [reflexivity|].
  rewrite isalnum_lower, isspace_lower.
  destruct (negb (PyStr.isalnum c) && negb (PyStr.isspace c)); simpl; now rewrite IH.
Qed.

(** X9: the complexity score does not depend on letter case: a task
    and its lower-cased form get the same raw score and the same capped
    score.  The pattern and keyword counts are taken on the lower-cased
    text; the word count and the special-character count are taken on
    the text as given, but lower-casing changes neither. *)
Theorem complexity_ignores_letter_case (text : string) :
  _assess_complexity (PyStr.lower text) = _assess_complexity text
  /\ raw_complexity (PyStr.lower text) = raw_complexity text.
Proof.
  assert (H : raw_complexity (PyStr.lower text) = raw_complexity text).
  { unfold raw_complexity, operations_score, tools_needed.
    now rewrite PyStr.lower_idem, word_count_lower, special_chars_lower. }
  unfold _assess_complexity. now rewrite H.
Qed.

End ScoreProps.

(* ===================================================================== *)
(** ** The complexity gate, end to end *)
(* ===================================================================== *)

Module GateProps.
Import HybridAgent ReactAgent.

(** Reference definitions of the three counts of the score, written from
    their description, to compare the computations of the source
    with. *)
















Section Gate.
Variable imp : importer.
Variable py_str : pyval -> string.





End Gate.




End GateProps.

(* ===================================================================== *)
(** ** Eviction order *)
(* ===================================================================== *)

Module EvictionProps.
Import ShortTermMemory ShortTermProps.

(** The body of the [while] loop of [_evict_lru], as an equation. *)
Lemma evict_unfold s :
  _evict_lru s
  = match heappop (lru_queue s) with
    | None => s
    | Some (e, q') =>
        if live s e.2 then (delete e.2 (with_queue q' s)).1
        else _evict_lru (with_queue q' s)
    end.
Proof.
  apply (_evict_lru_elim
    (fun s r => r = match heappop (lru_queue s) with
                    | None => s
                    | Some (e, q') =>
                        if live s e.2 then (delete e.2 (with_queue q' s)).1
                        else _evict_lru (with_queue q' s)
                    end)).
  - intros s0 e q' Hpop _ _. now rewrite Hpop.
  - intros s0 Hpop _. now rewrite Hpop.
Qed.

(** Two stores that differ at most in [access_times]. *)
Definition same_but_access (s1 s2 : stm) : Prop :=
  capacity s1 = capacity s2 /\ ttl s1 = ttl s2 /\ items s1 = items s2
  /\ creation_times s1 = creation_times s2 /\ lru_queue s1 = lru_queue s2.

Lemma sba_refl s : same_but_access s s.
Proof. repeat split. Qed.

Lemma sba_delete i s1 s2 :
  same_but_access s1 s2 ->
  same_but_access (delete i s1).1 (delete i s2).1 /\ (delete i s1).2 = (delete i s2).2.
Proof.
  intros (Hc & Ht & Hi & Hct & Hq). unfold delete, live. rewrite Hi.
  destruct (bool_decide _); simpl; [|repeat split; assumption].
  repeat split; simpl; congruence.
Qed.

Lemma sba_delete_all l : forall s1 s2,
  same_but_access s1 s2 -> same_but_access (delete_all l s1) (delete_all l s2).
Proof.
  induction l as [|i l IH]; intros s1 s2 H; [assumption|].
  simpl. apply IH. now apply sba_delete.
Qed.

Lemma sba_prune now s1 s2 :
  same_but_access s1 s2 ->
  same_but_access (_prune_expired now s1) (_prune_expired now s2).
Proof.
  intros H. rewrite !prune_is_delete_all.
  assert (He : expired_identifiers now s1 = expired_identifiers now s2).
  { destruct H as (_ & Ht & _ & Hct & _). unfold expired_identifiers. now rewrite Ht, Hct. }
  rewrite He. now apply sba_delete_all.
Qed.

Lemma sba_with_queue q s1 s2 :
  same_but_access s1 s2 -> same_but_access (with_queue q s1) (with_queue q s2).
Proof. intros (Hc & Ht & Hi & Hct & Hq). repeat split; simpl; assumption. Qed.

(** [_evict_lru] pops the same entries on both stores. *)
Lemma sba_evict s1 : forall s2,
  same_but_access s1 s2 -> same_but_access (_evict_lru s1) (_evict_lru s2).
Proof.
  remember (length (lru_queue s1)) as n eqn:Hn. revert s1 Hn.
  induction n as [n IH] using lt_wf_ind. intros s1 Hn s2 H.
  rewrite (evict_unfold s1), (evict_unfold s2).
  pose proof H as (_ & _ & Hi & _ & Hq). rewrite <- Hq.
  destruct (heappop (lru_queue s1)) as [[e q']|] eqn:Hpop; [|assumption].
  unfold live. rewrite <- Hi. destruct (bool_decide _).
  - apply sba_delete. now apply sba_with_queue.
  - apply (IH (length q')).
    + subst n. eapply heappop_shorter; eassumption.
    + reflexivity.
    + now apply sba_with_queue.
Qed.

(** What a call hands back to its caller. *)
Inductive reply : Type :=
| RAdd (o : outcome string)
| RGet (o : option (pydict pyval))
| RBool (b : bool)
| RNone.

Definition reply_of (s : stm) (c : call) : reply :=
  match c with
  | CAdd tp tn i it => RAdd (add tp tn i it s).2
  | CGet tp tn i => RGet (get tp tn i s).2
  | CUpdate tp tn i it => RBool (update tp tn i it s).2
  | CDelete i => RBool (delete i s).2
  | CClear => RNone
  end.

(** The replies of a sequence of calls, in order. *)
Fixpoint replies (s : stm) (cs : list call) : list reply :=
  match cs with
  | [] => []
  | c :: cs' => reply_of s c :: replies (run_call s c) cs'
  end.

(** One call: same reply, and the stores still differ at most in
    [access_times]. *)
Lemma sba_call c s1 s2 :
  same_but_access s1 s2 ->
  same_but_access (run_call s1 c) (run_call s2 c) /\ reply_of s1 c = reply_of s2 c.
Proof.
  intros H. destruct c as [tp tn i it|tp tn i|tp tn i it|i|]; simpl.
  - pose proof (sba_prune tp s1 s2 H) as (Hc & Ht & Hi & Hct & Hq).
    assert (H2 : same_but_access (insert_item tp tn i it s1) (insert_item tp tn i it s2)).
    { unfold insert_item. repeat split; simpl; congruence. }
    unfold add. cbv zeta.
    set (a1 := insert_item tp tn i it s1) in *. set (a2 := insert_item tp tn i it s2) in *.
    pose proof H2 as (Hc2 & _ & Hi2 & _).
    rewrite <- Hc, <- Hi.
    destruct (capacity _ <? _); simpl.
    + pose proof (sba_evict a1 a2 H2) as H3. split; [assumption|].
      destruct H3 as (-> & _). reflexivity.
    + split; [assumption|]. now rewrite Hc.
  - pose proof (sba_prune tp s1 s2 H) as (Hc & Ht & Hi & Hct & Hq).
    unfold get. rewrite <- Hi. destruct (_ !! i); simpl; [|repeat split; assumption].
    repeat split; simpl; assumption.
  - pose proof (sba_prune tp s1 s2 H) as (Hc & Ht & Hi & Hct & Hq).
    unfold update, live. rewrite <- Hi. destruct (bool_decide _); simpl;
      [|repeat split; assumption].
    repeat split; simpl; congruence.
  - destruct (sba_delete i s1 s2 H) as [H1 H2]. split; [assumption|congruence].
  - destruct H as (Hc & Ht & _). repeat split; simpl; assumption.
Qed.

(** X10: [access_times] is never read.  Two stores that differ at most
    in [access_times] (their three tables holding the same identifiers,
    as in every store the operations build) answer every sequence of
    [add], [get], [update], [delete] and [clear] calls with the same
    replies, and still differ at most in [access_times] afterwards: the
    time of the last access decides neither what is evicted nor what
    expires. *)
Theorem access_times_are_never_read (s1 s2 : stm) (cs : list call) :
  same_keys s1 -> same_keys s2 ->
  same_but_access s1 s2 ->
  replies s1 cs = replies s2 cs
  /\ same_but_access (run_calls s1 cs) (run_calls s2 cs).
Proof.
  intros _ _. revert s1 s2. induction cs as [|c cs IH]; intros s1 s2 H; [auto|].
  destruct (sba_call c s1 s2 H) as [H1 H2]. simpl.
  destruct (IH _ _ H1) as [IH1 IH2]. split; [|exact IH2]. now rewrite H2, IH1.
Qed.


(** The store after three insertions, and after a read of the first item
    on top of them. *)
Definition unread : stm := run_calls (init 3 3600) three_adds.
Definition read_once : stm := run_calls unread [CGet 4 4 "A"].

Lemma access_times_are_never_read_witness :
  access_times read_once !! "A" = Some 4
  /\ access_times unread !! "A" = Some 1
  /\ replies read_once [CAdd 5 5 "D" (named "D"); CGet 6 6 "A"]
     = replies unread [CAdd 5 5 "D" (named "D"); CGet 6 6 "A"].
Proof.
  assert (Hk1 : same_keys read_once) by (split; vm_compute; reflexivity).
  assert (Hk2 : same_keys unread) by (split; vm_compute; reflexivity).
  assert (Hs : same_but_access read_once unread) by (repeat split; vm_compute; reflexivity).
  pose proof (access_times_are_never_read read_once unread
                [CAdd 5 5 "D" (named "D"); CGet 6 6 "A"] Hk1 Hk2 Hs) as [H _].
  split; [vm_compute; reflexivity|]. split; [vm_compute; reflexivity|]. exact H.
Defined.

(** The queue lists exactly the stored identifiers, each with its
    creation time. *)
Definition queue_mirrors (s : stm) : Prop :=
  forall t i, In (t, i) (lru_queue s) <-> creation_times s !! i = Some t.

Lemma same_keys_live s i t :
  same_keys s -> creation_times s !! i = Some t -> is_Some (items s !! i).
Proof.
  intros [_ Hc] Hi. apply elem_of_dom. rewrite <- Hc. apply elem_of_dom. eauto.
Qed.

(** [delete] rebuilds the queue from the entries of stored items. *)
Lemma delete_mirrors i s :
  same_keys s -> queue_mirrors s -> queue_mirrors (delete i s).1.
Proof.
  intros Hk Hm t j. pose proof (Hm t j) as Hmj.
  destruct (delete_times i s Hk) as [Hct _]. rewrite Hct.
  unfold delete. destruct (live s i) eqn:El; simpl.
  - rewrite filter_In. simpl. rewrite bool_decide_eq_true.
    destruct (decide (j = i)) as [->|Hne].
    + rewrite !lookup_delete_eq. split; [|discriminate].
      intros [_ [x Hx]]. discriminate.
    + rewrite !lookup_delete_ne by congruence. rewrite Hmj. split; [tauto|].
      intros Hj. split; [assumption|]. eapply same_keys_live; eassumption.
  - rewrite Hmj. destruct (decide (j = i)) as [->|Hne].
    + rewrite lookup_delete_eq. split; [|discriminate].
      intros Hj. apply (same_keys_live s i t Hk) in Hj. apply live_spec in Hj. congruence.
    + now rewrite lookup_delete_ne by congruence.
Qed.

Lemma delete_all_mirrors l : forall s,
  same_keys s -> queue_mirrors s ->
  same_keys (delete_all l s) /\ queue_mirrors (delete_all l s).
Proof.
  induction l as [|i l IH]; intros s Hk Hm; [auto|].
  simpl. apply IH; [now apply delete_same_keys|now apply delete_mirrors].
Qed.

Lemma prune_mirrors now s :
  same_keys s -> queue_mirrors s ->
  same_keys (_prune_expired now s) /\ queue_mirrors (_prune_expired now s).
Proof. intros Hk Hm. rewrite prune_is_delete_all. now apply delete_all_mirrors. Qed.

(** The entry [heappop] takes has the least time of the queue. *)
Lemma least_time q : forall e x, In x (e :: q) -> (least e q).1 <= x.1.
Proof.
  induction q as [|a q IH]; intros e x.
  - simpl. intros [<-|[]]. lia.
  - simpl. set (c := if entry_leb e a then e else a). intros Hx.
    assert (Hc : c.1 <= e.1 /\ c.1 <= a.1).
    { unfold c, entry_leb. destruct (e.1 <? a.1) eqn:E1; simpl.
      - apply Z.ltb_lt in E1. lia.
      - apply Z.ltb_ge in E1. destruct (e.1 =? a.1) eqn:E2; simpl.
        + apply Z.eqb_eq in E2. destruct (String.leb e.2 a.2); simpl; lia.
        + lia. }
    destruct Hc as [Hce Hca].
    pose proof (IH c c (or_introl eq_refl)) as Hmin.
    destruct Hx as [<-|[<-|Hx]]; [lia|lia|].
    apply IH. now right.
Qed.

Lemma heappop_least q e q' x :
  heappop q = Some (e, q') -> In x q -> e.1 <= x.1.
Proof.
  destruct q as [|e0 q0]; [discriminate|]. unfold heappop.
  intros [= <- <-]. apply least_time.
Qed.

(** What [_evict_lru] does on a store whose queue mirrors the creation
    times. *)
Lemma evict_mirrored s :
  same_keys s -> queue_mirrors s -> items s <> ∅ ->
  exists e q',
    heappop (lru_queue s) = Some (e, q')
    /\ creation_times s !! e.2 = Some e.1
    /\ _evict_lru s = (delete e.2 (with_queue q' s)).1.
Proof.
  intros Hk Hm Hne.
  destruct (heappop (lru_queue s)) as [[e q']|] eqn:Hpop.
  - exists e, q'. split; [reflexivity|].
    pose proof (heappop_some _ _ _ Hpop) as [Hin _].
    assert (Hc : creation_times s !! e.2 = Some e.1).
    { apply Hm. now destruct e. }
    split; [assumption|].
    rewrite evict_unfold, Hpop.
    assert (Hl : live s e.2 = true).
    { apply live_spec. eapply same_keys_live; eassumption. }
    now rewrite Hl.
  - exfalso. apply heappop_none in Hpop.
    apply map_choose in Hne as (i & it & Hi).
    assert (Hc : is_Some (creation_times s !! i)).
    { destruct Hk as [_ Hc]. apply elem_of_dom. rewrite Hc. apply elem_of_dom. eauto. }
    destruct Hc as [t Ht]. apply Hm in Ht. rewrite Hpop in Ht. contradiction.
Qed.

Lemma evict_mirrors s :
  same_keys s -> queue_mirrors s -> queue_mirrors (_evict_lru s).
Proof.
  intros Hk Hm.
  destruct (decide (items s = ∅)) as [He|Hne].
  - assert (Hq : lru_queue s = []).
    { destruct (lru_queue s) as [|[t i] q] eqn:Eq; [reflexivity|].
      assert (Hc : creation_times s !! i = Some t) by (apply Hm; rewrite Eq; now left).
      apply (same_keys_live s i t Hk) in Hc. rewrite He, lookup_empty in Hc.
      destruct Hc; discriminate. }
    rewrite evict_unfold, Hq. simpl. assumption.
  - destruct (evict_mirrored s Hk Hm Hne) as (e & q' & Hpop & Hc & ->).
    apply heappop_some in Hpop as [Hin ->].
    intros t j. 
    destruct (delete_times e.2 (with_queue (remove_first e (lru_queue s)) s) Hk) as [-> _].
    simpl.
    assert (Hl : live (with_queue (remove_first e (lru_queue s)) s) e.2 = true).
    { apply live_spec. simpl. eapply same_keys_live; eassumption. }
    unfold delete. rewrite Hl. simpl.
    rewrite filter_In. simpl. rewrite bool_decide_eq_true.
    destruct (decide (j = e.2)) as [->|Hne'].
    + rewrite !lookup_delete_eq. split; [|discriminate].
      intros [_ [x Hx]]. discriminate.
    + rewrite !lookup_delete_ne by congruence. split.
      * intros [Hq _]. apply Hm. eapply remove_first_subset; eassumption.
      * intros Hj. split.
        -- apply in_remove_first; [now apply Hm|]. intros <-. now apply Hne'.
        -- eapply same_keys_live; eassumption.
Qed.

(** X11: eviction is by age.  On a non-empty store whose queue lists
    exactly the stored identifiers with their creation times,
    [_evict_lru] removes one item, and no stored item was created
    earlier than the one it removes. *)
Theorem eviction_takes_the_oldest (s : stm) :
  same_keys s -> queue_mirrors s -> items s <> ∅ ->
  exists i t,
    creation_times s !! i = Some t
    /\ (forall j tj, creation_times s !! j = Some tj -> t <= tj)
    /\ items (_evict_lru s) = base.delete i (items s)
    /\ access_times (_evict_lru s) = base.delete i (access_times s).
Proof.
  intros Hk Hm Hne.
  destruct (evict_mirrored s Hk Hm Hne) as (e & q' & Hpop & Hc & ->).
  exists e.2, e.1. split; [assumption|]. split; [|split].
  - intros j tj Hj. apply Hm in Hj.
    apply (heappop_least _ _ _ (tj, j) Hpop Hj).
  - now rewrite delete_items.
  - now destruct (delete_times e.2 (with_queue q' s) Hk) as [_ ->].
Qed.


Lemma eviction_takes_the_oldest_witness :
  exists i t,
    creation_times read_once !! i = Some t
    /\ (forall j tj, creation_times read_once !! j = Some tj -> t <= tj)
    /\ items (_evict_lru read_once) = base.delete i (items read_once).
Proof.
  assert (Hk : same_keys read_once) by (split; vm_compute; reflexivity).
  assert (Hm : queue_mirrors read_once).
  { intros t i.
    change (lru_queue read_once) with [(3, "C"); (2, "B"); (1, "A")].
    replace (creation_times read_once)
      with (<["C" := 3]> (<["B" := 2]> ({["A" := 1]} : gmap string Z)))
      by (vm_compute; reflexivity).
    simpl. split.
    - intros [[= <- <-]|[[= <- <-]|[[= <- <-]|[]]]]; reflexivity.
    - intros H. apply lookup_insert_Some in H as [[<- <-]|[_ H]]; [tauto|].
      apply lookup_insert_Some in H as [[<- <-]|[_ H]]; [tauto|].
      apply lookup_singleton_Some in H as [<- <-]. tauto. }
  assert (Hne : items read_once <> ∅) by (vm_compute; discriminate).
  destruct (eviction_takes_the_oldest read_once Hk Hm Hne) as (i & t & Hc & Hmin & Hi & _).
  exists i, t. auto.
Defined.

(** The identifiers a sequence of calls hands to [add]. *)
Definition added_id (c : call) : list string :=
  match c with CAdd _ _ i _ => [i] | _ => [] end.
Definition added_ids (cs : list call) : list string := flat_map added_id cs.

(** Inserting under an identifier that is not stored adds one entry,
    with the creation time. *)
Lemma insert_mirrors tp tn i it s :
  same_keys s -> queue_mirrors s -> items s !! i = None ->
  queue_mirrors (insert_item tp tn i it s).
Proof.
  intros Hk Hm Hfresh.
  destruct (prune_mirrors tp s Hk Hm) as [Hk1 Hm1].
  assert (Hnone : creation_times (_prune_expired tp s) !! i = None).
  { destruct (prune_lookup tp s i Hk) as [_ ->].
    assert (Hc : creation_times s !! i = None).
    { destruct (creation_times s !! i) as [t|] eqn:E; [|reflexivity].
      apply (same_keys_live s i t Hk) in E. rewrite Hfresh in E. destruct E; discriminate. }
    now rewrite Hc. }
  intros t j. unfold insert_item, heappush. simpl. pose proof (Hm1 t j) as Hmj.
  destruct (decide (j = i)) as [->|Hne].
  - rewrite lookup_insert_eq. split.
    + intros [[= <-]|Hin]; [reflexivity|]. apply Hmj in Hin. congruence.
    + intros [= <-]. now left.
  - rewrite lookup_insert_ne by congruence. rewrite <- Hmj. split.
    + intros [[= _ <-]|Hin]; [contradiction|assumption].
    + intros Hin. now right.
Qed.

(** One call keeps the two invariants and stores no identifier other
    than the one it was given. *)
Lemma call_mirrors c s :
  same_keys s -> queue_mirrors s ->
  (forall i, In i (added_id c) -> items s !! i = None) ->
  same_keys (run_call s c) /\ queue_mirrors (run_call s c)
  /\ (forall j, items s !! j = None -> ~ In j (added_id c) ->
        items (run_call s c) !! j = None).
Proof.
  intros Hk Hm Hfresh.
  assert (Hprune : forall now j, items s !! j = None ->
            items (_prune_expired now s) !! j = None).
  { intros now j Hj. destruct (prune_lookup now s j Hk) as [-> _].
    rewrite Hj. destruct (creation_times s !! j) as [ct|]; [|reflexivity].
    now destruct (_ <? _). }
  destruct c as [tp tn i it|tp tn i|tp tn i it|i|]; simpl.
  - assert (Hi : items s !! i = None) by (apply Hfresh; simpl; auto).
    pose proof (insert_item_same_keys tp tn i it s Hk) as Hk2.
    pose proof (insert_mirrors tp tn i it s Hk Hm Hi) as Hm2.
    assert (Hj2 : forall j, items s !! j = None -> ~ In j (added_id (CAdd tp tn i it)) ->
              items (insert_item tp tn i it s) !! j = None).
    { intros j Hj Hne. simpl in Hne. unfold insert_item. simpl.
      rewrite lookup_insert_ne by tauto. now apply Hprune. }
    change ((add tp tn i it s).1)
      with (if capacity (insert_item tp tn i it s)
               <? Z.of_nat (size (items (insert_item tp tn i it s)))
            then _evict_lru (insert_item tp tn i it s)
            else insert_item tp tn i it s).
    destruct (_ <? _); [|auto].
    split; [now apply evict_same_keys|]. split; [now apply evict_mirrors|].
    intros j Hj Hne. eapply lookup_weaken_None; [|apply evict_subset]. now apply Hj2.
  - destruct (prune_mirrors tp s Hk Hm) as [Hk1 Hm1].
    split; [now apply get_same_keys|].
    destruct (get_unfold tp tn i s) as (_ & Hgi & Hgc & _).
    split.
    + intros t j. rewrite Hgc, <- (Hm1 t j), get_leaves_queue. reflexivity.
    + intros j Hj _. rewrite Hgi. now apply Hprune.
  - destruct (prune_mirrors tp s Hk Hm) as [Hk1 Hm1].
    unfold update. destruct (live _ i) eqn:El; simpl; [|auto].
    apply live_spec in El. pose proof El as El'. apply elem_of_dom in El'.
    destruct Hk1 as [Ha Hc]. split; [|split].
    + split; simpl; [rewrite !dom_insert_L, Ha; reflexivity|].
      rewrite dom_insert_live; assumption.
    + exact Hm1.
    + intros j Hj _. simpl. destruct (decide (j = i)) as [->|Hne].
      * apply Hprune with (now := tp) in Hj. rewrite Hj in El. destruct El; discriminate.
      * rewrite lookup_insert_ne by congruence. now apply Hprune.
  - split; [now apply delete_same_keys|]. split; [now apply delete_mirrors|].
    intros j Hj _. rewrite delete_items.
    eapply lookup_weaken_None; [exact Hj|apply delete_subseteq].
  - split; [split; reflexivity|]. split.
    + intros t j. simpl. rewrite lookup_empty. split; [contradiction|discriminate].
    + intros j _ _. apply lookup_empty.
Qed.

Lemma calls_mirror cs : forall s,
  same_keys s -> queue_mirrors s ->
  NoDup (added_ids cs) ->
  (forall i, In i (added_ids cs) -> items s !! i = None) ->
  same_keys (run_calls s cs) /\ queue_mirrors (run_calls s cs).
Proof.
  induction cs as [|c cs IH]; intros s Hk Hm Hnd Hfresh; [auto|].
  change (added_ids (c :: cs)) with (added_id c ++ added_ids cs)%list in Hnd, Hfresh.
  apply NoDup_app in Hnd as (_ & Hdisj & Hnd).
  destruct (call_mirrors c s Hk Hm) as (Hk' & Hm' & Hnew).
  { intros i Hi. apply Hfresh. apply in_or_app. now left. }
  simpl. apply IH; try assumption.
  intros i Hi. apply Hnew.
  - apply Hfresh. apply in_or_app. now right.
  - intros Hin. apply (Hdisj i); now apply list_elem_of_In.
Qed.

(** X12: in every store built from an empty one by calls whose [add]s
    use pairwise distinct identifiers, the queue lists exactly the
    stored identifiers, each with its creation time, and the three
    tables hold the same identifiers.  With X11: what [add] evicts from
    such a store is an item of least creation time. *)
Theorem queue_lists_creation_times (cap t : Z) (cs : list call) :
  NoDup (added_ids cs) ->
  let s := run_calls (init cap t) cs in
  (forall t' i, In (t', i) (lru_queue s) <-> creation_times s !! i = Some t')
  /\ dom (creation_times s) = dom (items s)
  /\ dom (access_times s) = dom (items s).
Proof.
  intros Hnd s.
  destruct (calls_mirror cs (init cap t)) as [[Ha Hc] Hm]; try assumption.
  - split; reflexivity.
  - intros t' i. simpl. rewrite lookup_empty. split; [contradiction|discriminate].
  - intros i _. apply lookup_empty.
  - auto.
Qed.

Lemma queue_lists_creation_times_witness :
  lru_queue (run_calls (init 3 3600) lru_scenario) = [(5, "D"); (3, "C"); (2, "B")]
  /\ (In (2, "B") (lru_queue (run_calls (init 3 3600) lru_scenario))
      <-> creation_times (run_calls (init 3 3600) lru_scenario) !! "B" = Some 2).
Proof.
  assert (Hnd : NoDup (added_ids lru_scenario)).
  { simpl. repeat (apply NoDup_cons; split; [rewrite list_elem_of_In; simpl; intuition discriminate|]).
    apply NoDup_nil. reflexivity. }
  pose proof (queue_lists_creation_times 3 3600 lru_scenario Hnd) as [H _].
  split; [vm_compute; reflexivity|exact (H 2 "B")].
Defined.

End EvictionProps.

(* ===================================================================== *)
(** ** Lifetime of stored items *)
(* ===================================================================== *)

Module LifetimeProps.
Import ShortTermMemory ShortTermProps.

Lemma update_inv_keys tp tn i it s : same_keys s -> same_keys (update tp tn i it s).1.
Proof.
  intros Hk. apply (prune_same_keys tp) in Hk as [Ha Hc].
  unfold update. destruct (live _ i) eqn:E; simpl; [|split; assumption].
  apply live_spec in E. apply elem_of_dom in E.
  split; simpl; [rewrite !dom_insert_L, Ha; reflexivity|].
  rewrite dom_insert_live; assumption.
Qed.

(** What [update] returns and leaves, in terms of the pruned store. *)
Lemma update_unfold tp tn i it s :
  (update tp tn i it s).2 = bool_decide (is_Some (items (_prune_expired tp s) !! i))
  /\ creation_times (update tp tn i it s).1 = creation_times (_prune_expired tp s)
  /\ ttl (update tp tn i it s).1 = ttl (_prune_expired tp s)
  /\ (forall j, items (update tp tn i it s).1 !! j
                = if decide (j = i)
                  then (if (update tp tn i it s).2 then Some it else None)
                  else items (_prune_expired tp s) !! j).
Proof.
  unfold update, live. destruct (bool_decide _) eqn:E; simpl.
  - repeat split; try reflexivity. intros j. case_decide as Hj.
    + subst j. apply lookup_insert_eq.
    + now apply lookup_insert_ne.
  - repeat split; try reflexivity. intros j. case_decide as Hj; [|reflexivity].
    subst j. apply bool_decide_eq_false in E.
    destruct (items _ !! i) eqn:Ei; [|reflexivity]. exfalso. apply E. eauto.
Qed.

(** X13: [update] replaces the content of an item and keeps its
    creation time.  For an item added at clock reading [t0] (and not
    evicted by its own insertion): an update issued after [t0 + ttl]
    returns [False]; an update issued by [t0 + ttl] returns [True], a
    later [get] by [t0 + ttl] returns the new content, and a [get]
    after [t0 + ttl] returns nothing, so the update has not extended
    the item's life. *)
Theorem update_keeps_the_creation_time
    (s : stm) (tp t0 : Z) (i : string) (it it' : pydict pyval) (tu tu' t tn : Z) :
  same_keys s ->
  let s1 := (add tp t0 i it s).1 in
  is_Some (items s1 !! i) ->
  (t0 + ttl s < tu -> (update tu tu' i it' s1).2 = false)
  /\ (tu <= t0 + ttl s ->
      (update tu tu' i it' s1).2 = true
      /\ (t <= t0 + ttl s -> (get t tn i (update tu tu' i it' s1).1).2 = Some it')
      /\ (t0 + ttl s < t -> (get t tn i (update tu tu' i it' s1).1).2 = None)).
Proof.
  intros Hk s1 Hlive.
  destruct (add_stores tp t0 i it s Hk Hlive) as (Hk1 & Hi1 & Hc1 & Ht1).
  fold s1 in Hk1, Hi1, Hc1, Ht1.
  destruct (update_unfold tu tu' i it' s1) as (Hres & Hct & Httl & Hit).
  destruct (prune_lookup tu s1 i Hk1) as [Hpi Hpc].
  destruct (prune_config tu s1 Hk1) as [_ Hpt].
  rewrite Hc1, Hi1, Ht1 in Hpi. rewrite Hc1, Ht1 in Hpc.
  split.
  - intros Hlate. rewrite Hres, Hpi.
    replace (ttl s <? tu - t0) with true by (symmetry; apply Z.ltb_lt; lia).
    apply bool_decide_eq_false. intros [x Hx]. discriminate.
  - intros Hin.
    replace (ttl s <? tu - t0) with false in Hpi, Hpc by (symmetry; apply Z.ltb_ge; lia).
    assert (Hok : (update tu tu' i it' s1).2 = true).
    { rewrite Hres, Hpi. apply bool_decide_eq_true. eauto. }
    split; [assumption|].
    assert (Hk2 : same_keys (update tu tu' i it' s1).1).
    { apply update_inv_keys. exact Hk1. }
    assert (Hi2 : items (update tu tu' i it' s1).1 !! i = Some it').
    { rewrite Hit, Hok. now rewrite decide_True. }
    assert (Hc2 : creation_times (update tu tu' i it' s1).1 !! i = Some t0).
    { now rewrite Hct, Hpc. }
    rewrite (get_by_age t tn i it' t0 _ Hk2 Hi2 Hc2), Httl, Hpt, Ht1.
    split; intros Ht.
    + now replace (ttl s <? t - t0) with false by (symmetry; apply Z.ltb_ge; lia).
    + now replace (ttl s <? t - t0) with true by (symmetry; apply Z.ltb_lt; lia).
Qed.


Lemma update_keeps_the_creation_time_witness :
  let s1 := (add 0 0 "a" (named "a") (init 10 5)).1 in
  (update 3 3 "a" (named "b") s1).2 = true
  /\ (get 5 5 "a" (update 3 3 "a" (named "b") s1).1).2 = Some (named "b")
  /\ (get 6 6 "a" (update 3 3 "a" (named "b") s1).1).2 = None
  /\ (update 6 6 "a" (named "b") s1).2 = false.
Proof.
  intros s1.
  assert (Hk : same_keys (init 10 5)) by (split; reflexivity).
  assert (Hlive : is_Some (items (add 0 0 "a" (named "a") (init 10 5)).1 !! "a"))
    by (vm_compute; eauto).
  pose proof (update_keeps_the_creation_time (init 10 5) 0 0 "a" (named "a") (named "b")
                3 3 5 5 Hk Hlive) as [_ H1].
  pose proof (update_keeps_the_creation_time (init 10 5) 0 0 "a" (named "a") (named "b")
                3 3 6 6 Hk Hlive) as [_ H2].
  pose proof (update_keeps_the_creation_time (init 10 5) 0 0 "a" (named "a") (named "b")
                6 6 6 6 Hk Hlive) as [H3 _].
  destruct H1 as (Hok & Hget & _); [simpl; lia|].
  destruct H2 as (_ & _ & Hgone); [simpl; lia|].
  split; [exact Hok|]. split; [apply Hget; simpl; lia|].
  split; [apply Hgone; simpl; lia|apply H3; simpl; lia].
Defined.

(** X14: [delete] returns whether the identifier was stored; after it,
    [get] on that identifier returns nothing at any clock reading, a
    second [delete] returns [False], and [get] on any other identifier
    answers as it would have without the deletion. *)
Theorem delete_forgets_the_item (s : stm) (i : string) :
  same_keys s ->
  (delete i s).2 = bool_decide (is_Some (items s !! i))
  /\ (forall tp tn, (get tp tn i (delete i s).1).2 = None)
  /\ (forall j tp tn, j <> i -> (get tp tn j (delete i s).1).2 = (get tp tn j s).2)
  /\ (delete i (delete i s).1).2 = false.
Proof.
  intros Hk.
  pose proof (delete_same_keys i s Hk) as Hk'.
  destruct (delete_times i s Hk) as [Hct _].
  destruct (delete_config i s) as [_ Httl].
  pose proof (delete_items i s) as Hit.
  split; [|split; [|split]].
  - unfold delete, live. now destruct (bool_decide _).
  - intros tp tn. destruct (get_unfold tp tn i (delete i s).1) as (-> & _).
    destruct (prune_lookup tp (delete i s).1 i Hk') as [-> _].
    now rewrite Hct, Hit, !lookup_delete_eq.
  - intros j tp tn Hne.
    destruct (get_unfold tp tn j (delete i s).1) as (-> & _).
    destruct (get_unfold tp tn j s) as (-> & _).
    destruct (prune_lookup tp (delete i s).1 j Hk') as [-> _].
    destruct (prune_lookup tp s j Hk) as [-> _].
    now rewrite Hct, Hit, Httl, !lookup_delete_ne by congruence.
  - unfold delete at 1. 
    assert (Hl : live (delete i s).1 i = false).
    { unfold live. apply bool_decide_eq_false. rewrite Hit, lookup_delete_eq.
      intros [x Hx]. discriminate. }
    now rewrite Hl.
Qed.

Lemma delete_forgets_the_item_witness :
  (delete "B" (run_calls (init 3 3600) three_adds)).2 = true
  /\ (get 4 4 "B" (delete "B" (run_calls (init 3 3600) three_adds)).1).2 = None.
Proof.
  assert (Hk : same_keys (run_calls (init 3 3600) three_adds))
    by (split; vm_compute; reflexivity).
  pose proof (delete_forgets_the_item (run_calls (init 3 3600) three_adds) "B" Hk)
    as (H1 & H2 & _).
  split; [rewrite H1; vm_compute; reflexivity|apply H2].
Defined.

(** X15: a store created with capacity 0 never holds an item.  After
    any sequence of calls it is empty; every [add] on it raises
    [ZeroDivisionError] (the utilisation computed for the log divides
    by the capacity), leaves the store empty, and the item it was given
    cannot be read back. *)
Theorem zero_capacity_store_holds_nothing
    (t : Z) (cs : list call) (tp tn : Z) (i : string) (it : pydict pyval) :
  let s := run_calls (init 0 t) cs in
  items s = ∅
  /\ (add tp tn i it s).2 = Raise ZeroDivisionError
  /\ items (add tp tn i it s).1 = ∅
  /\ (forall tp' tn', (get tp' tn' i (add tp tn i it s).1).2 = None).
Proof.
  intros s.
  assert (Hcap : 0 <= 0) by lia.
  pose proof (run_calls_inv cs (init 0 t) Hcap (init_inv 0 t Hcap)) as Hinv.
  destruct (run_calls_config cs (init 0 t) Hcap (init_inv 0 t Hcap)) as [Hc _].
  fold s in Hinv, Hc. simpl in Hc.
  assert (Hempty : forall s', inv s' -> capacity s' = 0 -> items s' = ∅).
  { intros s' (_ & _ & Hb) Hc'. unfold bounded in Hb. rewrite Hc' in Hb.
    apply map_size_empty_inv. lia. }
  pose proof (add_inv tp tn i it s Hinv) as Hinv'.
  assert (Hc' : capacity (add tp tn i it s).1 = 0).
  { destruct (run_call_config (CAdd tp tn i it) s) as [Hcc _]; [apply Hinv|].
    change (capacity (add tp tn i it s).1 = capacity s) in Hcc. now rewrite Hcc. }
  split; [now apply Hempty|]. split; [|split].
  - change ((add tp tn i it s).2)
      with (if capacity (add tp tn i it s).1 =? 0
            then Raise ZeroDivisionError else Ret i).
    now rewrite Hc'.
  - now apply Hempty.
  - intros tp' tn'. destruct (get_unfold tp' tn' i (add tp tn i it s).1) as (-> & _).
    destruct (prune_lookup tp' (add tp tn i it s).1 i) as [-> _]; [apply Hinv'|].
    rewrite (Hempty _ Hinv' Hc'), lookup_empty.
    destruct (creation_times _ !! i); [destruct (_ <? _)|]; reflexivity.
Qed.

End LifetimeProps.

(* ===================================================================== *)
(** ** More on the long-term store *)
(* ===================================================================== *)

Module ArchiveProps.
Import LongTermMemory LongTermProps.

(** The document [add] stores for an item. *)
Definition stored_document (timestamp : Z) (identifier project category : string)
    (it : item) : item :=
  PyDict.set "_meta"
    (PDict [("id", PStr identifier); ("created_at", PInt timestamp);
            ("updated_at", PInt timestamp); ("project", PStr project);
            ("category", PStr category)]) it.

(** [_remove_from_indexes] takes one identifier out of the main index
    and leaves the files alone. *)
Lemma remove_from_indexes_effect o s s' :
  _remove_from_indexes o s = Ret s' ->
  index_in_memory s' = index_in_memory s
  /\ max_items_per_category s' = max_items_per_category s
  /\ disk s' = disk s
  /\ PyDict.get o (index s') = None
  /\ (forall j, j <> o -> PyDict.get j (index s') = PyDict.get j (index s)).
Proof.
  unfold _remove_from_indexes. destruct (PyDict.get o (index s)) as [it|] eqn:E.
  - intros H. apply bind_ret_inv in H as (p & _ & H).
    apply bind_ret_inv in H as (c & _ & H). injection H as <-. simpl.
    repeat split; [apply PyDict.get_del_eq|]. intros j Hj. now apply PyDict.get_del_ne.
  - intros [= <-]. repeat split; auto.
Qed.

Lemma list_mem_In x l : list_mem x l = true <-> In x l.
Proof.
  unfold list_mem. rewrite existsb_exists. split.
  - intros (y & Hy & He). apply String.eqb_eq in He. now subst.
  - intros Hx. exists x. split; [assumption|apply String.eqb_refl].
Qed.

(** X16: what [add] stores can be read back.  When [add] returns, it
    returns the identifier it generated, and [get] on it yields the
    item with its [_meta] entry (identifier, both timestamps, project
    and category labels, [default] and [general] when absent); the
    same document is in the file.  In indexed mode this needs a bound
    of at least one item per category and an identifier that is in no
    category list yet; otherwise the pruning step can remove the item
    just added. *)
Theorem add_then_get (timestamp : Z) (identifier : string) (it : item)
    (s s' : ltm) (identifier' : string) :
  add timestamp identifier it s = Ret (s', identifier') ->
  (index_in_memory s = true ->
     1 <= max_items_per_category s
     /\ forall c bucket, PyDict.get c (category_index s) = Some bucket ->
                         ~ In identifier bucket) ->
  identifier' = identifier
  /\ exists project category,
       label_of (default (PStr "default") (PyDict.get "project" it)) = Ret project
       /\ label_of (default (PStr "general") (PyDict.get "category" it)) = Ret category
       /\ get identifier s' = Some (stored_document timestamp identifier project category it)
       /\ PyDict.get identifier (disk s')
          = Some (stored_document timestamp identifier project category it).
Proof.
  unfold add. intros H Hfresh.
  apply bind_ret_inv in H as (project & Hp & H).
  apply bind_ret_inv in H as (category & Hc & H).
  fold (stored_document timestamp identifier project category it) in H.
  set (doc := stored_document timestamp identifier project category it) in *.
  change (index_in_memory (_save_item identifier doc s)) with (index_in_memory s) in H.
  destruct (index_in_memory s) eqn:Hidx.
  - destruct (Hfresh eq_refl) as [Hmax Hnew]. clear Hfresh.
    apply bind_ret_inv in H as (s3 & H3 & H). injection H as <- <-.
    split; [reflexivity|]. exists project, category.
    split; [assumption|]. split; [assumption|].
    simpl in H3.
    unfold bucket_append in H3. rewrite PyDict.get_set_eq in H3. simpl in H3.
    set (old := default [] (PyDict.get category (category_index s))) in *.
    assert (Hold : ~ In identifier old).
    { unfold old. destruct (PyDict.get category (category_index s)) as [b|] eqn:Eb; simpl.
      - now apply (Hnew category).
      - tauto. }
    assert (Hgoal : index_in_memory s3 = true
                    /\ PyDict.get identifier (index s3) = Some doc
                    /\ PyDict.get identifier (disk s3) = Some doc).
    { destruct (max_items_per_category s <? Z.of_nat (length (old ++ [identifier])))
        eqn:Hover.
      - destruct old as [|oldest rest] eqn:Eold.
        + simpl in Hover. apply Z.ltb_lt in Hover. lia.
        + simpl in H3. apply bind_ret_inv in H3 as (s2'' & Hrm & H3).
          injection H3 as <-.
          apply remove_from_indexes_effect in Hrm as (Hi & _ & Hd & _ & Hother).
          simpl in Hi, Hd, Hother.
          assert (Hne : identifier <> oldest) by (intros ->; apply Hold; now left).
          unfold _delete_item_file.
          destruct (PyDict.mem oldest (disk s2'')); simpl.
          * split; [assumption|]. split.
            -- rewrite (Hother identifier Hne). apply PyDict.get_set_eq.
            -- rewrite Hd, PyDict.get_del_ne by assumption. apply PyDict.get_set_eq.
          * split; [assumption|]. split.
            -- rewrite (Hother identifier Hne). apply PyDict.get_set_eq.
            -- rewrite Hd. apply PyDict.get_set_eq.
      - injection H3 as <-. simpl. split; [reflexivity|].
        split; apply PyDict.get_set_eq. }
    destruct Hgoal as (Hi3 & Hx3 & Hd3).
    unfold get. simpl. rewrite Hi3. unfold PyDict.mem. rewrite Hx3. simpl. auto.
  - injection H as <- <-. split; [reflexivity|]. exists project, category.
    split; [assumption|]. split; [assumption|].
    unfold get. simpl. rewrite Hidx. simpl. split; apply PyDict.get_set_eq.
Qed.


Lemma add_then_get_witness :
  get "a" one_item_store
  = Some [("name", PStr "n"); ("project", PStr "p1");
          ("_meta", PDict [("id", PStr "a"); ("created_at", PInt 10);
                           ("updated_at", PInt 10); ("project", PStr "p1");
                           ("category", PStr "general")])].
Proof.
  assert (E : add 10 "a" [("name", PStr "n"); ("project", PStr "p1")] empty_store
              = Ret (one_item_store, "a")) by reflexivity.
  pose proof (add_then_get _ _ _ _ _ _ E) as [_ (p & c & Hp & Hc & Hget & _)].
  { intros _. split; [simpl; lia|]. intros c bucket Hb. discriminate Hb. }
  injection Hp as <-. injection Hc as <-. exact Hget.
Defined.

(** The length of the list a table holds under a key; a missing key
    counts as an empty list. *)
Definition bucket_size (key : string) (table : pydict (list string)) : Z :=
  Z.of_nat (length (default [] (PyDict.get key table))).

Lemma list_remove_length x l : (length (list_remove x l) <= length l)%nat.
Proof.
  induction l as [|y l IH]; simpl; [lia|].
  destruct (String.eqb x y); simpl; lia.
Qed.

Lemma bucket_size_set k key bucket table :
  bucket_size k (PyDict.set key bucket table)
  = if String.eqb k key then Z.of_nat (length bucket) else bucket_size k table.
Proof.
  unfold bucket_size. destruct (String.eqb_spec k key) as [->|Hne].
  - now rewrite PyDict.get_set_eq.
  - now rewrite PyDict.get_set_ne.
Qed.

Lemma bucket_size_del k key table :
  bucket_size k (PyDict.del key table) <= bucket_size k table.
Proof.
  unfold bucket_size. destruct (String.eqb_spec k key) as [->|Hne].
  - rewrite PyDict.get_del_eq. simpl. lia.
  - rewrite PyDict.get_del_ne by assumption. lia.
Qed.

(** Taking an identifier out of a list lengthens no list of the table. *)
Lemma bucket_remove_size cleanup k key identifier table :
  bucket_size k (bucket_remove cleanup key identifier table) <= bucket_size k table.
Proof.
  unfold bucket_remove.
  destruct (PyDict.get key table) as [bucket|] eqn:E; [|lia].
  destruct (list_mem identifier bucket); [|lia].
  pose proof (list_remove_length identifier bucket) as Hlen.
  assert (Hset : forall b, (length b <= length bucket)%nat ->
            bucket_size k (PyDict.set key b table) <= bucket_size k table).
  { intros b Hb. rewrite bucket_size_set.
    destruct (String.eqb_spec k key) as [->|Hne]; [|lia].
    unfold bucket_size. rewrite E. simpl. lia. }
  destruct (list_remove identifier bucket) as [|x l] eqn:El.
  - destruct cleanup; [apply bucket_size_del|apply Hset; simpl; lia].
  - apply Hset. exact Hlen.
Qed.

Lemma remove_from_indexes_size o s s' k :
  _remove_from_indexes o s = Ret s' ->
  bucket_size k (category_index s') <= bucket_size k (category_index s).
Proof.
  unfold _remove_from_indexes. destruct (PyDict.get o (index s)) as [it|].
  - intros H. apply bind_ret_inv in H as (p & _ & H).
    apply bind_ret_inv in H as (c & _ & H). injection H as <-. simpl.
    apply bucket_remove_size.
  - intros [= <-]. lia.
Qed.

(** The list the category index holds for a category; a missing key
    counts as an empty list. *)
Definition category_list (category : string) (s : ltm) : list string :=
  default [] (PyDict.get category (category_index s)).

(** Taking an identifier out of the lists leaves a list alone that does
    not hold it. *)
Lemma bucket_remove_absent cleanup k key identifier table :
  ~ In identifier (default [] (PyDict.get k table)) ->
  PyDict.get k (bucket_remove cleanup key identifier table) = PyDict.get k table.
Proof.
  intros Hout. unfold bucket_remove.
  destruct (PyDict.get key table) as [bucket|] eqn:E; [|reflexivity].
  destruct (list_mem identifier bucket) eqn:Hmem; [|reflexivity].
  assert (Hne : k <> key).
  { intros ->. rewrite E in Hout. apply Hout. now apply list_mem_In. }
  destruct (list_remove identifier bucket); [destruct cleanup|].
  - now apply PyDict.get_del_ne.
  - now apply PyDict.get_set_ne.
  - now apply PyDict.get_set_ne.
Qed.

Lemma remove_from_indexes_absent o s s' k :
  _remove_from_indexes o s = Ret s' ->
  ~ In o (category_list k s) ->
  PyDict.get k (category_index s') = PyDict.get k (category_index s).
Proof.
  unfold _remove_from_indexes, category_list.
  destruct (PyDict.get o (index s)) as [it|].
  - intros H Hout. apply bind_ret_inv in H as (p & _ & H).
    apply bind_ret_inv in H as (c & _ & H). injection H as <-. simpl.
    now apply bucket_remove_absent.
  - intros [= <-]. reflexivity.
Qed.

(** Removing the file of an identifier touches nothing but the files,
    and the identifier has no file afterwards. *)
Lemma delete_item_file_effect o s :
  let s' := (_delete_item_file o s).1 in
  index_in_memory s' = index_in_memory s
  /\ max_items_per_category s' = max_items_per_category s
  /\ index s' = index s
  /\ category_index s' = category_index s
  /\ PyDict.get o (disk s') = None.
Proof.
  cbv zeta. unfold _delete_item_file, PyDict.mem.
  destruct (PyDict.get o (disk s)) eqn:E; simpl; repeat split; auto.
  apply PyDict.get_del_eq.
Qed.

(** X17: [add] keeps a category within [max_items_per_category] (labels
    being text).  When [add] returns, the bound is unchanged and a
    category list that was within the bound is within it afterwards;
    without the index in memory no list changes.  With it, the
    identifier is appended to the list of the item's category; when
    that brings the list above the bound, the first identifier of the
    list (the oldest one) is taken out, so that, in a list without
    duplicates, what stays is the rest of the list in its order, and
    the oldest item is gone from the index and from the files; the list
    of no other category grows. *)
Theorem add_keeps_categories_within_bound
    (timestamp : Z) (identifier : string) (it : item) (s s' : ltm)
    (identifier' : string) :
  add timestamp identifier it s = Ret (s', identifier') ->
  max_items_per_category s' = max_items_per_category s
  /\ (forall c, bucket_size c (category_index s) <= max_items_per_category s ->
        bucket_size c (category_index s') <= max_items_per_category s)
  /\ (index_in_memory s = false -> category_index s' = category_index s)
  /\ (index_in_memory s = true ->
        exists category,
          label_of (default (PStr "general") (PyDict.get "category" it)) = Ret category
          /\ (forall c, c <> category ->
                bucket_size c (category_index s') <= bucket_size c (category_index s))
          /\ let appended := (category_list category s ++ [identifier])%list in
             (Z.of_nat (length appended) <= max_items_per_category s ->
                category_list category s' = appended)
             /\ (max_items_per_category s < Z.of_nat (length appended) ->
                 NoDup appended ->
                 category_list category s' = tail appended
                 /\ forall oldest, head appended = Some oldest ->
                      ~ In oldest (category_list category s')
                      /\ get oldest s' = None
                      /\ PyDict.get oldest (disk s') = None)).
Proof.
  unfold add. intros H.
  apply bind_ret_inv in H as (project & Hp & H).
  apply bind_ret_inv in H as (category & Hc & H).
  set (doc := PyDict.set "_meta" _ it) in *.
  change (index_in_memory (_save_item identifier doc s)) with (index_in_memory s) in H.
  destruct (index_in_memory s) eqn:Hidx.
  2:{ injection H as <- <-. simpl. repeat split; auto. discriminate. }
  apply bind_ret_inv in H as (s3 & H3 & H). injection H as <- <-. simpl.
  simpl in H3. unfold bucket_append in H3. rewrite PyDict.get_set_eq in H3. simpl in H3.
  unfold category_list. simpl.
  set (old := default [] (PyDict.get category (category_index s))) in *.
  destruct (max_items_per_category s <? Z.of_nat (length (old ++ [identifier]))) eqn:Hover.
  - apply Z.ltb_lt in Hover.
    destruct (old ++ [identifier])%list as [|oldest rest] eqn:Eold.
    { destruct old; discriminate Eold. }
    apply bind_ret_inv in H3 as (s2'' & Hrm & H3). injection H3 as <-.
    pose proof (fun c => remove_from_indexes_size _ _ _ c Hrm) as Hsize.
    pose proof (fun k => remove_from_indexes_absent _ _ _ k Hrm) as Habs.
    apply remove_from_indexes_effect in Hrm as (Hi & Hmax & Hd & Hgone & _).
    unfold category_list in Habs. simpl in Hsize, Hmax, Habs, Hi, Hd.
    destruct (delete_item_file_effect oldest s2'') as (Hi' & Hmax' & Hx' & Hc' & Hd').
    rewrite Hmax', Hc'.
    assert (Hlen : length (oldest :: rest) = S (length old)).
    { rewrite <- Eold, length_app. simpl. lia. }
    simpl in Hlen.
    assert (Hothers : forall c, c <> category ->
              bucket_size c (category_index s2'') <= bucket_size c (category_index s)).
    { intros c Hne. eapply Z.le_trans; [apply Hsize|].
      rewrite !bucket_size_set. apply String.eqb_neq in Hne. rewrite Hne. lia. }
    split; [assumption|]. split; [|split; [discriminate|]].
    + intros c Hbound. destruct (String.eqb_spec c category) as [->|Hne].
      * eapply Z.le_trans; [apply Hsize|]. rewrite !bucket_size_set, String.eqb_refl.
        unfold bucket_size in Hbound. fold old in Hbound. lia.
      * specialize (Hothers c Hne). lia.
    + intros _. exists category. split; [exact Hc|]. split; [exact Hothers|].
      cbv zeta. fold old. rewrite Eold.
      split; [intros Hle; simpl in Hle, Hover; lia|].
      intros _ Hnodup. apply NoDup_cons in Hnodup as [Hfirst Hrest].
      assert (Hout : ~ In oldest rest) by (now rewrite <- list_elem_of_In).
      assert (Hlist : PyDict.get category (category_index s2'') = Some rest).
      { rewrite Habs; rewrite PyDict.get_set_eq; [reflexivity|exact Hout]. }
      rewrite Hlist. simpl. split; [reflexivity|].
      intros o [= <-]. split; [exact Hout|]. split; [|exact Hd'].
      unfold get. simpl. rewrite Hi', Hx', Hd'. unfold PyDict.mem. rewrite Hgone.
      now rewrite andb_false_r.
  - apply Z.ltb_ge in Hover. injection H3 as <-. simpl.
    split; [reflexivity|]. split; [|split; [discriminate|]].
    + intros c Hbound. rewrite bucket_size_set.
      destruct (String.eqb_spec c category) as [->|Hne]; [exact Hover|exact Hbound].
    + intros _. exists category. split; [exact Hc|]. split.
      * intros c Hne. rewrite bucket_size_set. apply String.eqb_neq in Hne.
        rewrite Hne. lia.
      * cbv zeta. fold old. rewrite PyDict.get_set_eq. simpl.
        split; [reflexivity|]. intros Hlt. lia.
Qed.

(** A store that keeps two items per category, after two insertions. *)
Definition narrow_store : ltm :=
  match add 1 "a" [("name", PStr "first")] (LTM true 2 [] [] [] []) with
  | Ret (s, _) =>
      match add 2 "b" [("name", PStr "second")] s with
      | Ret (s', _) => s'
      | Raise _ => s
      end
  | Raise _ => LTM true 2 [] [] [] []
  end.

(** A third insertion into the same category drops the first item and
    keeps the second in front of the third. *)
Lemma add_keeps_categories_within_bound_witness :
  exists s3,
    add 3 "c" [("name", PStr "third")] narrow_store = Ret (s3, "c")
    /\ category_list "general" narrow_store = ["a"; "b"]
    /\ category_list "general" s3 = ["b"; "c"]
    /\ get "a" s3 = None.
Proof.
  destruct (add 3 "c" [("name", PStr "third")] narrow_store) as [[s3 i]|e] eqn:E;
    [|vm_compute in E; discriminate].
  assert (Hi : i = "c") by (vm_compute in E; congruence). subst i.
  exists s3. split; [reflexivity|]. split; [reflexivity|].
  pose proof (add_keeps_categories_within_bound 3 "c" [("name", PStr "third")]
                narrow_store s3 "c" E) as (_ & _ & _ & H).
  destruct (H eq_refl) as (category & Hc & _ & _ & Hdrop).
  injection Hc as <-.
  destruct Hdrop as [Hlist Hgone]; [vm_compute; reflexivity| |].
  - change (category_list "general" narrow_store ++ ["c"])%list with ["a"; "b"; "c"].
    repeat constructor; rewrite ?list_elem_of_In; simpl; intuition discriminate.
  - split; [exact Hlist|]. apply (Hgone "a"). reflexivity.
Defined.

Lemma keyed_length results ks : keyed results = Ret ks -> length ks = length results.
Proof.
  revert ks. induction results as [|h rest IH]; intros ks; simpl.
  - intros [= <-]. reflexivity.
  - intros H. apply bind_ret_inv in H as (k & _ & H).
    apply bind_ret_inv in H as (ks' & Hks & H). injection H as <-.
    simpl. now rewrite (IH ks' Hks).
Qed.

Lemma insert_newest_length x l : length (insert_newest x l) = S (length l).
Proof.
  induction l as [|y l IH]; simpl; [reflexivity|].
  destruct (x.1 <? y.1); simpl; [now rewrite IH|reflexivity].
Qed.

(** Sorting keeps the number of hits. *)
Lemma sort_length results out :
  sort_newest_first results = Ret out -> length out = length results.
Proof.
  unfold sort_newest_first. destruct results as [|h1 [|h2 rest]].
  - intros [= <-]. reflexivity.
  - intros [= <-]. reflexivity.
  - intros H. apply bind_ret_inv in H as (ks & Hks & H). injection H as <-.
    rewrite length_map. apply keyed_length in Hks. rewrite <- Hks.
    clear Hks. induction ks as [|k ks IH]; simpl; [reflexivity|].
    now rewrite insert_newest_length, IH.
Qed.

Section Limits.
Variable json_dumps : pyval -> string.

(** Both loops stop as soon as the list has reached the limit, and the
    test comes after the append. *)
Lemma scan_index_length s query limit ids : forall results out,
  scan_index json_dumps s query limit ids results = Ret out ->
  Z.of_nat (length out) <= Z.max (Z.of_nat (length results) + 1) limit
  /\ (length results <= length out)%nat.
Proof.
  induction ids as [|identifier rest IH]; intros results out; simpl.
  - intros [= <-]. lia.
  - destruct (PyDict.get identifier (index s)) as [it|]; [|apply IH].
    intros H. apply bind_ret_inv in H as (ok & _ & H). destruct ok; [|now apply IH].
    apply bind_ret_inv in H as (created_at & _ & H).
    destruct (limit <=? _) eqn:E.
    + injection H as <-. rewrite length_app. simpl. lia.
    + apply Z.leb_gt in E. apply IH in H. rewrite length_app in *. simpl in *. lia.
Qed.

Lemma scan_disk_length query limit pf cf files : forall results out,
  scan_disk json_dumps query limit pf cf files results = Ret out ->
  Z.of_nat (length out) <= Z.max (Z.of_nat (length results) + 1) limit
  /\ (length results <= length out)%nat.
Proof.
  induction files as [|[identifier it] rest IH]; intros results out; simpl.
  - intros [= <-]. lia.
  - intros H. apply bind_ret_inv in H as (other_project & _ & H).
    destruct other_project; [now apply IH|].
    apply bind_ret_inv in H as (other_category & _ & H).
    destruct other_category; [now apply IH|].
    apply bind_ret_inv in H as (ok & _ & H). destruct ok; [|now apply IH].
    apply bind_ret_inv in H as (created_at & _ & H).
    destruct (limit <=? _) eqn:E.
    + injection H as <-. rewrite length_app. simpl. lia.
    + apply Z.leb_gt in E. apply IH in H. rewrite length_app in *. simpl in *. lia.
Qed.

(** X18: [search] returns at most [limit] hits, and at most one when
    [limit] is below one: the test on the length of the result list
    comes after the append, so the first match is always kept. *)
Theorem search_respects_the_limit (s : ltm) (query : pydict pyval) (limit : Z)
    (hits : list hit) :
  (search json_dumps s query limit).2 = Ret hits ->
  Z.of_nat (length hits) <= Z.max 1 limit.
Proof.
  unfold search. simpl. intros H.
  apply bind_ret_inv in H as (results & Hscan & Hsort).
  apply sort_length in Hsort. rewrite Hsort.
  destruct (index_in_memory s).
  - apply bind_ret_inv in Hscan as (ids & _ & Hscan).
    apply scan_index_length in Hscan. simpl in Hscan. lia.
  - apply scan_disk_length in Hscan. simpl in Hscan. lia.
Qed.
End Limits.


(** A store with two items of the same project. *)
Definition two_item_store : ltm :=
  match add 20 "b" [("name", PStr "m"); ("project", PStr "p1")] one_item_store with
  | Ret (s, _) => s
  | Raise _ => one_item_store
  end.

Lemma search_respects_the_limit_witness :
  exists hits,
    (search (fun _ => "x") two_item_store [("project", PStr "p1")] 0).2 = Ret hits
    /\ Z.of_nat (length hits) <= 1.
Proof.
  destruct (search (fun _ => "x") two_item_store [("project", PStr "p1")] 0).2
    as [hits|e] eqn:E; [|vm_compute in E; discriminate].
  exists hits. split; [reflexivity|].
  apply (search_respects_the_limit (fun _ => "x") two_item_store
           [("project", PStr "p1")] 0 hits E).
Defined.

(** X19: after [delete], [get] on the identifier returns nothing; the
    value returned tells whether the file existed; and [get] on every
    other identifier is unchanged. *)
Theorem delete_then_get (identifier : string) (s s' : ltm) (deleted : bool) :
  delete identifier s = Ret (s', deleted) ->
  get identifier s' = None
  /\ deleted = PyDict.mem identifier (disk s)
  /\ (forall j, j <> identifier -> get j s' = get j s).
Proof.
  unfold delete. intros H. apply bind_ret_inv in H as (s1 & H1 & H).
  assert (Hs1 : index_in_memory s1 = index_in_memory s
                /\ disk s1 = disk s
                /\ (index_in_memory s = true -> PyDict.get identifier (index s1) = None)
                /\ (forall j, j <> identifier ->
                      PyDict.get j (index s1) = PyDict.get j (index s))).
  { destruct (index_in_memory s) eqn:Hidx.
    - apply remove_from_indexes_effect in H1 as (Hi & _ & Hd & Hnone & Hother).
      rewrite Hi. auto.
    - injection H1 as <-. rewrite Hidx. repeat split; auto. discriminate. }
  destruct Hs1 as (Hi & Hd & Hnone & Hother).
  unfold _delete_item_file in H. rewrite Hd in H.
  assert (Hget : forall s2 j, index_in_memory s2 = index_in_memory s ->
            index s2 = index s1 ->
            get j s2 = if index_in_memory s && PyDict.mem j (index s1)
                       then PyDict.get j (index s1) else PyDict.get j (disk s2)).
  { intros s2 j H2 H3. unfold get. now rewrite H2, H3. }
  destruct (PyDict.mem identifier (disk s)) eqn:Hm; injection H as <- <-.
  - split; [|split; [reflexivity|]].
    + rewrite (Hget _ identifier) by (simpl; auto). simpl.
      destruct (index_in_memory s); simpl; [|apply PyDict.get_del_eq].
      unfold PyDict.mem. rewrite (Hnone eq_refl). apply PyDict.get_del_eq.
    + intros j Hj. rewrite (Hget _ j) by (simpl; auto). simpl. unfold get.
      unfold PyDict.mem. rewrite (Hother j Hj).
      now rewrite PyDict.get_del_ne by assumption.
  - split; [|split; [reflexivity|]].
    + rewrite (Hget _ identifier) by auto.
      assert (Hdisk : PyDict.get identifier (disk s1) = None).
      { rewrite Hd. unfold PyDict.mem in Hm.
        destruct (PyDict.get identifier (disk s)); [discriminate|reflexivity]. }
      destruct (index_in_memory s); simpl; [|assumption].
      unfold PyDict.mem. now rewrite (Hnone eq_refl).
    + intros j Hj. rewrite (Hget _ j) by auto. unfold get.
      unfold PyDict.mem. now rewrite (Hother j Hj), Hd.
Qed.

Lemma delete_then_get_witness :
  exists s',
    delete "a" two_item_store = Ret (s', true)
    /\ get "a" s' = None
    /\ get "b" s' = get "b" two_item_store.
Proof.
  destruct (delete "a" two_item_store) as [[s' b]|e] eqn:E;
    [|vm_compute in E; discriminate].
  pose proof (delete_then_get "a" two_item_store s' b E) as (Hnone & Hb & Hother).
  assert (b = true) by (rewrite Hb; reflexivity). subst b.
  exists s'. split; [reflexivity|]. split; [exact Hnone|].
  apply Hother. discriminate.
Defined.

Lemma del_del {V} k k' (d : pydict V) :
  PyDict.del k (PyDict.del k' d) = PyDict.del k' (PyDict.del k d).
Proof.
  induction d as [|[k0 v0] d IH]; simpl; [reflexivity|].
  destruct (String.eqb k' k0) eqn:E1, (String.eqb k k0) eqn:E2; simpl;
    rewrite ?E1, ?E2; congruence.
Qed.

Lemma del_idem {V} k (d : pydict V) : PyDict.del k (PyDict.del k d) = PyDict.del k d.
Proof.
  induction d as [|[k0 v0] d IH]; simpl; [reflexivity|].
  destruct (String.eqb k k0) eqn:E; simpl; rewrite ?E; congruence.
Qed.

(** X20: with the index in memory, a [project] filter hides the
    [category] filter.  A search whose query holds a non-empty
    [project] value returns the same, results and errors alike, as the
    search on the query without its [category] entry: the candidates
    are the identifiers of the project and the category is never
    compared. *)
Theorem project_filter_hides_the_category_filter
    (json_dumps : pyval -> string) (s : ltm) (query : pydict pyval) (limit : Z) :
  index_in_memory s = true ->
  py_truthy (default PNone (PyDict.get "project" query)) = true ->
  (search json_dumps s query limit).2
  = (search json_dumps s (PyDict.del "category" query) limit).2.
Proof.
  intros Hidx Hp. unfold search. simpl. rewrite Hidx.
  rewrite (PyDict.get_del_ne "project" "category") by discriminate.
  rewrite Hp.
  rewrite (del_del "project" "category" query), del_idem.
  reflexivity.
Qed.


Lemma project_filter_hides_the_category_filter_witness :
  (search (fun _ => "x") two_item_store
     [("project", PStr "p1"); ("category", PStr "absent")] 10).2
  = (search (fun _ => "x") two_item_store [("project", PStr "p1")] 10).2.
Proof.
  apply (project_filter_hides_the_category_filter (fun _ => "x") two_item_store
           [("project", PStr "p1"); ("category", PStr "absent")] 10);
    reflexivity.
Defined.

(** X21: [update] never changes the labels in the file.  The document
    is written before the [_meta] entry is relabelled, so the file
    holds the new fields with the old [_meta], in which only
    [updated_at] has changed: its project and category are those of
    the item before the update, whatever the update asked for. *)
Theorem update_never_relabels_the_file
    (t1 t2 : Z) (identifier : string) (it : item) (s s' : ltm)
    (existing : item) (meta : pydict pyval) :
  get identifier s = Some existing ->
  PyDict.get "_meta" existing = Some (PDict meta) ->
  update t1 t2 identifier it s = Ret (s', true) ->
  exists document,
    PyDict.get identifier (disk s') = Some document
    /\ PyDict.get "_meta" document = Some (PDict (PyDict.set "updated_at" (PInt t1) meta))
    /\ meta_get "project" PNone document = meta_get "project" PNone existing
    /\ meta_get "category" PNone document = meta_get "category" PNone existing
    /\ (forall k, k <> "_meta" -> PyDict.get k document = PyDict.get k it).
Proof.
  intros Hget Hmeta. unfold update. rewrite Hget, Hmeta. cbn [mbind outcome_bind].
  set (meta' := PyDict.set "updated_at" (PInt t1) meta).
  set (doc := PyDict.set "_meta" (PDict meta') it).
  intros H.
  assert (Hdisk : PyDict.get identifier (disk s') = Some doc).
  { revert H.
    change (index_in_memory (_save_item identifier doc s)) with (index_in_memory s).
    destruct (index_in_memory s).
    - intros H.
      apply bind_ret_inv in H as (old_project & _ & H).
      apply bind_ret_inv in H as (old_category & _ & H).
      apply bind_ret_inv in H as (new_project & _ & H).
      apply bind_ret_inv in H as (new_category & _ & H).
      revert H.
      destruct (negb (String.eqb new_project old_project));
        destruct (negb (String.eqb new_category old_category));
        intros [= <-]; simpl; apply PyDict.get_set_eq.
    - intros [= <-]. simpl. apply PyDict.get_set_eq. }
  exists doc. split; [assumption|].
  assert (Hm : PyDict.get "_meta" doc = Some (PDict meta'))
    by apply PyDict.get_set_eq.
  split; [assumption|].
  unfold meta_get. rewrite Hm, Hmeta. simpl. unfold meta'.
  rewrite !PyDict.get_set_ne by discriminate.
  split; [reflexivity|]. split; [reflexivity|].
  intros k Hk. unfold doc. now apply PyDict.get_set_ne.
Qed.

Lemma update_never_relabels_the_file_witness :
  exists s' document,
    update 20 21 "a" [("name", PStr "m"); ("project", PStr "p2")] one_item_store
    = Ret (s', true)
    /\ PyDict.get "a" (disk s') = Some document
    /\ meta_get "project" PNone document = Ret (PStr "p1")
    /\ (it ← default (Ret []) (Ret <$> get "a" s'); meta_get "project" PNone it)
       = Ret (PStr "p2").
Proof.
  destruct (update 20 21 "a" [("name", PStr "m"); ("project", PStr "p2")] one_item_store)
    as [[s' b]|e] eqn:E; [|vm_compute in E; discriminate].
  assert (Hb : b = true) by (vm_compute in E; congruence). subst b.
  assert (Hidx : (it ← default (Ret []) (Ret <$> get "a" s'); meta_get "project" PNone it)
                 = Ret (PStr "p2")).
  { vm_compute in E. injection E as <-. reflexivity. }
  destruct (update_never_relabels_the_file 20 21 "a"
              [("name", PStr "m"); ("project", PStr "p2")] one_item_store s'
              [("name", PStr "n"); ("project", PStr "p1");
               ("_meta", PDict [("id", PStr "a"); ("created_at", PInt 10);
                                ("updated_at", PInt 10); ("project", PStr "p1");
                                ("category", PStr "general")])]
              [("id", PStr "a"); ("created_at", PInt 10);
               ("updated_at", PInt 10); ("project", PStr "p1");
               ("category", PStr "general")]
              eq_refl eq_refl E)
    as (document & Hdisk & _ & Hproject & _).
  exists s', document. split; [reflexivity|]. split; [exact Hdisk|].
  split; [rewrite Hproject; reflexivity|exact Hidx].
Defined.

(** Sortedness by decreasing key. *)
Definition newest_first (ks : list (Z * hit)) : Prop :=
  StronglySorted (fun a b : Z * hit => b.1 <= a.1) ks.

Lemma insert_newest_Forall (P : Z * hit -> Prop) x l :
  P x -> Forall P l -> Forall P (insert_newest x l).
Proof.
  intros Hx Hl. induction Hl as [|y l Hy Hl IH]; simpl.
  - now repeat constructor.
  - destruct (x.1 <? y.1); constructor; auto.
Qed.

Lemma insert_newest_sorted x l : newest_first l -> newest_first (insert_newest x l).
Proof.
  unfold newest_first. intros Hl. induction Hl as [|y l Hl IH Hy]; simpl.
  - repeat constructor.
  - destruct (x.1 <? y.1) eqn:E.
    + apply Z.ltb_lt in E. constructor; [assumption|].
      apply insert_newest_Forall; [lia|assumption].
    + apply Z.ltb_ge in E. constructor; [now constructor|].
      constructor; [assumption|].
      eapply Forall_impl; [exact Hy|]. simpl. intros z Hz. lia.
Qed.

(** Every pair of the list holds a hit with the number its
    [created_at] reads as. *)
Definition well_keyed (ks : list (Z * hit)) : Prop :=
  Forall (fun p : Z * hit => as_number (hit_created_at p.2) = Ret p.1) ks.

Lemma keyed_well_keyed results ks : keyed results = Ret ks -> well_keyed ks /\ map snd ks = results.
Proof.
  revert ks. induction results as [|h rest IH]; intros ks; simpl.
  - intros [= <-]. split; [constructor|reflexivity].
  - intros H. apply bind_ret_inv in H as (k & Hk & H).
    apply bind_ret_inv in H as (ks' & Hks & H). injection H as <-.
    destruct (IH ks' Hks) as [Hw Hm]. split; [constructor; assumption|].
    simpl. now rewrite Hm.
Qed.

Lemma well_keyed_keyed ks : well_keyed ks -> keyed (map snd ks) = Ret ks.
Proof.
  intros Hw. induction Hw as [|[k h] ks Hk Hw IH]; simpl; [reflexivity|].
  simpl in Hk. rewrite Hk. cbn [mbind outcome_bind]. rewrite IH. reflexivity.
Qed.

Lemma sorted_insertions ks :
  well_keyed ks ->
  well_keyed (fold_right insert_newest [] ks) /\ newest_first (fold_right insert_newest [] ks).
Proof.
  intros Hw. induction Hw as [|p ks Hp Hw [IH1 IH2]]; simpl.
  - split; constructor.
  - split; [now apply insert_newest_Forall|now apply insert_newest_sorted].
Qed.

(** X22: [search] lists its hits newest first: read as numbers, the
    [created_at] values of the returned list never increase. *)
Theorem search_lists_newest_first
    (json_dumps : pyval -> string) (s : ltm) (query : pydict pyval) (limit : Z)
    (hits : list hit) (ks : list (Z * hit)) :
  (search json_dumps s query limit).2 = Ret hits ->
  keyed hits = Ret ks ->
  StronglySorted (fun a b : Z * hit => b.1 <= a.1) ks.
Proof.
  unfold search. simpl. intros H Hks.
  apply bind_ret_inv in H as (results & _ & Hsort).
  unfold sort_newest_first in Hsort.
  destruct results as [|h1 [|h2 rest]].
  - injection Hsort as <-. injection Hks as <-. constructor.
  - injection Hsort as <-. simpl in Hks.
    apply bind_ret_inv in Hks as (k & _ & Hks). injection Hks as <-.
    repeat constructor.
  - apply bind_ret_inv in Hsort as (ks0 & Hks0 & Hsort). injection Hsort as <-.
    apply keyed_well_keyed in Hks0 as [Hw _].
    destruct (sorted_insertions ks0 Hw) as [Hw' Hs'].
    rewrite (well_keyed_keyed _ Hw') in Hks. injection Hks as <-. exact Hs'.
Qed.

Lemma search_lists_newest_first_witness :
  exists hits ks,
    (search (fun _ => "x") two_item_store [("project", PStr "p1")] 10).2 = Ret hits
    /\ keyed hits = Ret ks
    /\ map fst ks = [20; 10]
    /\ StronglySorted (fun a b : Z * hit => b.1 <= a.1) ks.
Proof.
  destruct (search (fun _ => "x") two_item_store [("project", PStr "p1")] 10).2
    as [hits|e] eqn:E; [|vm_compute in E; discriminate].
  destruct (keyed hits) as [ks|e] eqn:Ek;
    [|vm_compute in E; injection E as <-; vm_compute in Ek; discriminate].
  exists hits, ks. split; [reflexivity|]. split; [exact Ek|]. split.
  - vm_compute in E. injection E as <-. vm_compute in Ek. injection Ek as <-. reflexivity.
  - exact (search_lists_newest_first (fun _ => "x") two_item_store
             [("project", PStr "p1")] 10 hits ks E Ek).
Defined.

(** X23: after [clear], whatever the mode, [get] returns nothing for
    every identifier and every search that returns, returns no hit; the
    configuration is kept. *)
Theorem clear_empties_the_store (json_dumps : pyval -> string) (s : ltm) :
  index_in_memory (clear s) = index_in_memory s
  /\ max_items_per_category (clear s) = max_items_per_category s
  /\ (forall identifier, get identifier (clear s) = None)
  /\ (forall query limit hits,
        (search json_dumps (clear s) query limit).2 = Ret hits -> hits = []).
Proof.
  assert (Hget : forall identifier, get identifier (clear s) = None).
  { intros identifier. unfold get, clear. destruct (index_in_memory s); reflexivity. }
  split; [unfold clear; now destruct (index_in_memory s)|].
  split; [unfold clear; now destruct (index_in_memory s)|].
  split; [assumption|].
  intros query limit hits. unfold search, clear.
  destruct (index_in_memory s); simpl.
  - intros H. apply bind_ret_inv in H as (results & Hscan & Hsort).
    apply bind_ret_inv in Hscan as (ids & Hids & Hscan).
    assert (ids = []).
    { assert (Hb : forall key ids', bucket_of key [] = Ret ids' -> ids' = []).
      { intros key ids'. destruct key; simpl; congruence. }
      revert Hids. destruct (py_truthy _); [apply Hb|].
      destruct (py_truthy _); [apply Hb|]. simpl. congruence. }
    subst ids. simpl in Hscan. injection Hscan as <-. simpl in Hsort. congruence.
  - intros [= <-]. reflexivity.
Qed.

End ArchiveProps.

(* ===================================================================== *)
(** ** Reloading the index *)
(* ===================================================================== *)

Module RestartProps.
Import LongTermMemory LongTermProps.

(** The labels a document is filed under. *)
Definition labels (it : item) : outcome (string * string) :=
  project ← (v ← meta_get "project" (PStr "default") it; label_of v);
  category ← (v ← meta_get "category" (PStr "general") it; label_of v);
  mret (project, category).

Definition bucket (key : string) (table : pydict (list string)) : list string :=
  default [] (PyDict.get key table).

Lemma bucket_append_In k key identifier table x :
  In x (bucket k (bucket_append key identifier table))
  <-> In x (bucket k table) \/ (k = key /\ x = identifier).
Proof.
  unfold bucket, bucket_append. destruct (String.eqb_spec k key) as [->|Hne].
  - rewrite PyDict.get_set_eq. simpl. rewrite in_app_iff. simpl. intuition.
  - rewrite PyDict.get_set_ne by assumption. intuition.
Qed.

(** Indexing a file whose labels are text. *)
Lemma index_file_labelled identifier it s p c :
  labels it = Ret (p, c) ->
  index_file identifier it s
  = LTM (index_in_memory s) (max_items_per_category s) (disk s)
        (PyDict.set identifier it (index s))
        (bucket_append c identifier (category_index s))
        (bucket_append p identifier (project_index s)).
Proof.
  unfold labels, index_file. intros H.
  apply bind_ret_inv in H as (p' & Hp & H).
  apply bind_ret_inv in H as (c' & Hc & H). injection H as <- <-.
  apply bind_ret_inv in Hp as (pv & -> & Hp).
  apply bind_ret_inv in Hc as (cv & -> & Hc).
  cbn [mbind outcome_bind mret outcome_ret]. rewrite Hp, Hc. reflexivity.
Qed.

(** Every document of the list is filed under text labels. *)
Definition labelled (files : pydict item) : Prop :=
  Forall (fun f : string * item => exists p c, labels f.2 = Ret (p, c)) files.

(** The loop of [_load_index] over files with distinct identifiers. *)
Lemma index_files_spec files : forall s,
  labelled files -> NoDup (PyDict.keys files) ->
  let s' := index_files files s in
  index_in_memory s' = index_in_memory s
  /\ max_items_per_category s' = max_items_per_category s
  /\ disk s' = disk s
  /\ (forall identifier,
        PyDict.get identifier (index s')
        = match PyDict.get identifier files with
          | Some it => Some it
          | None => PyDict.get identifier (index s)
          end)
  /\ (forall identifier p,
        In identifier (bucket p (project_index s'))
        <-> In identifier (bucket p (project_index s))
            \/ exists it c, PyDict.get identifier files = Some it /\ labels it = Ret (p, c))
  /\ (forall identifier c,
        In identifier (bucket c (category_index s'))
        <-> In identifier (bucket c (category_index s))
            \/ exists it p, PyDict.get identifier files = Some it /\ labels it = Ret (p, c)).
Proof.
  induction files as [|[i0 it0] rest IH]; intros s Hl Hnd.
  - simpl. split; [reflexivity|]. split; [reflexivity|]. split; [reflexivity|].
    split; [reflexivity|]. split.
    + intros identifier p. split; [now left|].
      intros [H|(it & c' & H & _)]; [assumption|discriminate].
    + intros identifier c. split; [now left|].
      intros [H|(it & p' & H & _)]; [assumption|discriminate].
  - inversion Hl as [|? ? (p0 & c0 & Hl0) Hl']; subst. simpl in Hl0.
    unfold PyDict.keys in Hnd. simpl in Hnd. apply NoDup_cons in Hnd as [Hnew Hnd].
    assert (Hrest : PyDict.get i0 rest = None).
    { destruct (PyDict.get i0 rest) as [x|] eqn:E; [|reflexivity].
      exfalso. apply Hnew. clear -E. induction rest as [|[k v] rest IH]; [discriminate|].
      simpl in E |- *. destruct (String.eqb_spec i0 k) as [->|Hne];
        [apply list_elem_of_here|apply list_elem_of_further; auto]. }
    specialize (IH (index_file i0 it0 s) Hl' Hnd).
    cbv zeta in IH |- *. simpl index_files.
    rewrite (index_file_labelled i0 it0 s p0 c0 Hl0) in *. simpl in IH.
    destruct IH as (Hi & Hm & Hd & Hidx & Hp & Hc).
    split; [assumption|]. split; [assumption|]. split; [assumption|].
    split; [|split].
    + intros identifier. rewrite Hidx. simpl.
      destruct (String.eqb_spec identifier i0) as [->|Hne].
      * rewrite Hrest. apply PyDict.get_set_eq.
      * now rewrite PyDict.get_set_ne by assumption.
    + intros identifier p. rewrite Hp, bucket_append_In. simpl.
      destruct (String.eqb_spec identifier i0) as [->|Hne].
      * rewrite Hrest. split.
        -- intros [[H|[-> _]]|(it & c & H & _)]; [now left| |discriminate].
           right. exists it0, c0. auto.
        -- intros [H|(it & c & [= <-] & Hlab)]; [left; now left|].
           left. right. split; [congruence|reflexivity].
      * split.
        -- intros [[H|[_ H]]|H]; [now left|contradiction|now right].
        -- intros [H|H]; [left; now left|now right].
    + intros identifier c. rewrite Hc, bucket_append_In. simpl.
      destruct (String.eqb_spec identifier i0) as [->|Hne].
      * rewrite Hrest. split.
        -- intros [[H|[-> _]]|(it & p & H & _)]; [now left| |discriminate].
           right. exists it0, p0. auto.
        -- intros [H|(it & p & [= <-] & Hlab)]; [left; now left|].
           left. right. split; [congruence|reflexivity].
      * split.
        -- intros [[H|[_ H]]|H]; [now left|contradiction|now right].
        -- intros [H|H]; [left; now left|now right].
Qed.

(** X24: a restart rebuilds the index from the files.  For a directory
    of documents with distinct identifiers whose labels are text,
    [__init__] with [index_in_memory] leaves the files as they are,
    [get] answers with the document of the file, and an identifier is in
    the list of a project (of a category) exactly when its file carries
    that project (that category) in its [_meta] entry, [default] and
    [general] standing for a missing one.  With X21: a relabelling by
    [update] does not survive a restart. *)
Theorem restart_rebuilds_the_index_from_the_files
    (max_items : Z) (files : pydict item) :
  Forall (fun f : string * item => exists p c, labels f.2 = Ret (p, c)) files ->
  NoDup (PyDict.keys files) ->
  let s := init true max_items files in
  disk s = files
  /\ (forall identifier, get identifier s = PyDict.get identifier files)
  /\ (forall identifier p,
        In identifier (bucket p (project_index s))
        <-> exists it c, PyDict.get identifier files = Some it /\ labels it = Ret (p, c))
  /\ (forall identifier c,
        In identifier (bucket c (category_index s))
        <-> exists it p, PyDict.get identifier files = Some it /\ labels it = Ret (p, c)).
Proof.
  intros Hl Hnd s.
  destruct (index_files_spec files (LTM true max_items files [] [] []) Hl Hnd)
    as (Hi & _ & Hd & Hidx & Hp & Hc).
  change (index_files files (LTM true max_items files [] [] [])) with s in *.
  simpl in *.
  split; [assumption|]. split; [|split].
  - intros identifier. unfold get. rewrite Hi, Hd. simpl. unfold PyDict.mem.
    rewrite Hidx. destruct (PyDict.get identifier files); reflexivity.
  - intros identifier p. rewrite Hp. unfold bucket. simpl. tauto.
  - intros identifier c. rewrite Hc. unfold bucket. simpl. tauto.
Qed.


Lemma restart_rebuilds_the_index_from_the_files_witness :
  exists s',
    update 20 21 "a" [("name", PStr "m"); ("project", PStr "p2")] one_item_store
    = Ret (s', true)
    /\ bucket "p2" (project_index s') = ["a"]
    /\ In "a" (bucket "p1" (project_index (init true 1000 (disk s'))))
    /\ ~ In "a" (bucket "p2" (project_index (init true 1000 (disk s')))).
Proof.
  destruct (update 20 21 "a" [("name", PStr "m"); ("project", PStr "p2")] one_item_store)
    as [[s' b]|e] eqn:E; [|vm_compute in E; discriminate].
  vm_compute in E. injection E as <- <-.
  eexists. split; [reflexivity|]. split; [reflexivity|].
  match goal with
  | |- context [init true 1000 ?files] =>
      assert (Hl : Forall (fun f : string * item => exists p c, labels f.2 = Ret (p, c)) files)
        by (repeat constructor; eexists _, _; reflexivity);
      assert (Hnd : NoDup (PyDict.keys files))
        by (repeat constructor; rewrite elem_of_nil; tauto);
      pose proof (restart_rebuilds_the_index_from_the_files 1000 files Hl Hnd)
        as (_ & _ & Hp & _)
  end.
  split.
  - apply Hp. eexists _, _. split; reflexivity.
  - intros Hin. apply Hp in Hin as (it & c & Hget & Hlab).
    injection Hget as <-. vm_compute in Hlab. discriminate.
Defined.

End RestartProps.

(* ===================================================================== *)
(** ** Construction of a tool agent *)
(* ===================================================================== *)

Module ConstructorProps.
Import ToolAgent HybridAgent.

(** What importing, looking up and instantiating the class of a tool
    gives. *)
Definition importable (imp : importer) (name : string) : outcome tool :=
  module ← imp ("devassist.tools." +:+ name);
  tool_class ← getattr module (class_name name);
  call_attr tool_class.

Lemma load_cases imp ts name :
  (load_tool imp ts name).1
  = match importable imp name with
    | Ret t => <[name := t]> ts
    | Raise _ => ts
    end.
Proof. unfold load_tool, importable. now destruct (_ ≫= _). Qed.

(** The loop of [ToolAgent.__init__] over the requested names. *)
Lemma load_all imp names : forall (ts : tools) name,
  fold_left (fun ts name => (load_tool imp ts name).1) names ts !! name
  = if decide (name ∈ names)
    then match importable imp name with
         | Ret t => Some t
         | Raise _ => ts !! name
         end
    else ts !! name.
Proof.
  induction names as [|n names IH]; intros ts name; cbn [fold_left].
  - rewrite decide_False by apply not_elem_of_nil. reflexivity.
  - rewrite IH, load_cases.
    destruct (decide (name ∈ names)) as [Hin|Hnot].
    + rewrite decide_True by (now apply list_elem_of_further).
      destruct (decide (name = n)) as [->|Hne].
      * destruct (importable imp n); [reflexivity|reflexivity].
      * destruct (importable imp name); [reflexivity|].
        destruct (importable imp n); [now rewrite lookup_insert_ne|reflexivity].
    + destruct (decide (name = n)) as [->|Hne].
      * rewrite decide_True by apply list_elem_of_here.
        destruct (importable imp n); [apply lookup_insert_eq|reflexivity].
      * rewrite decide_False by (rewrite elem_of_cons; tauto).
        destruct (importable imp n); [now rewrite lookup_insert_ne|reflexivity].
Qed.

(** X25: [ToolAgent.__init__] never raises and loads exactly what can
    be imported: a name is in the new agent's tool table when it is
    among the names asked for and its module can be imported, holds the
    class of the expected name and that class can be instantiated; the
    table then holds that instance.  A name that fails any of these
    steps is skipped. *)
Theorem constructor_loads_what_can_be_imported
    (imp : importer) (max_iterations : Z) (names : list string) (name : string) :
  a_max_iterations (new_tool_agent imp max_iterations names) = max_iterations
  /\ a_tools (new_tool_agent imp max_iterations names) !! name
     = if decide (name ∈ names)
       then match importable imp name with
            | Ret t => Some t
            | Raise _ => None
            end
       else None.
Proof.
  split; [reflexivity|]. unfold new_tool_agent. simpl.
  rewrite (load_all imp names ∅ name), lookup_empty. reflexivity.
Qed.

End ConstructorProps.
